(** * Retrieval engine of the client-support agent

    A shallow embedding of the FAISS retriever of [backend/app/agent_setup.py]
    ([FaissRetriever], [retrieve_knowledge]) and of the helpers of
    [backend/app/rag.py] ([chunk_text], [build_faiss_index], [search_faiss]),
    together with the properties the specification states about them;
    then of the same methods when printing and writing can fail, of the
    rest of [rag.py] ([generate_embeddings], [generate_answer],
    [root] and the endpoints [upload_file] and [chat]), of [setup_agent]
    and [load_system_prompt], of the start of the application in
    [backend/app/main.py] ([lifespan], [health_check]) and of the tool
    [request_password_reset] of [backend/app/native_functions.py], with
    properties read off the code.

    Python strings are sequences of Unicode code points; the retriever object,
    the three files it touches, the embedding service and the printed
    messages are threaded explicitly through a small state/exception/output
    monad in which, as in Python, a raised exception keeps the mutations made
    before it.

    What the embedding is taken to be:
    - the coroutines run one after the other, each to its end;
    - the exceptions are those that [except Exception] catches;
    - a file written is the file read afterwards; text files are read with
      universal newlines, as [open(path, "r")] does;
    - the methods are written twice.  First for a run in which nothing of
      the surroundings fails: standard output takes every text it is given
      and the two writes of [save] go through; the properties of the
      specification that are conditioned on such a run are stated on
      these.  Then, in [Strict], with the [print] of a text from outside
      the program and the two writes as they are: standard output encodes
      UTF-8 and refuses a lone surrogate, a write can raise and leave its
      file in any state; the properties on what reaches the caller and on
      what is left on disk are stated on those, and the two agree where
      nothing fails;
    - numpy, faiss and the embedding service are the libraries the program
      calls: [np.array], [IndexFlatL2], [add], [ntotal], [read_index] and
      [write_index] are written down as they behave, the nearest-neighbour
      query follows section 4.3 of the specification, and the embedding
      service is any function from the texts (and the number of earlier
      calls) to vectors or an exception;
    - objects of faiss, of the embedding service and of the retriever are
      truthy;
    - in [rag.py] the embedding provider and the model are any functions
      from their argument (and the number of earlier calls) to an answer or
      an exception; reading the uploaded file succeeds, its bytes decode or
      do not; [str(e)] of a caught exception is kept as a term over [e];
      the distance of a retrieved chunk is not -1, so that the relevance
      score is defined; standard output takes the texts the endpoints
      print;
    - in [setup_agent] every call to Semantic Kernel and [os.makedirs]
      either returns or raises, as given for the run. *)

From Stdlib Require Import List NArith ZArith Lia Bool Arith Permutation Sorted.
From Stdlib Require Strings.String Strings.Ascii.
Import ListNotations.
Import String.StringSyntax.
Delimit Scope string_scope with string.

(* ================================================================== *)
(** * Python [str] *)
(* ================================================================== *)

Module PyStr.

(** A character is a Unicode code point. *)
Definition char := N.
Definition str := list char.

Definition LF : char := 10%N.
Definition CR : char := 13%N.

(** Literal of the source, written with ASCII characters. *)
Definition lit (s : String.string) : str :=
  map Ascii.N_of_ascii (String.list_ascii_of_string s).
Arguments lit s%_string.

(** [str.isspace] on one character: the code points CPython classifies as
    whitespace, which are the ones [str.strip()] removes. *)
Definition isspace (c : char) : bool :=
  ((9 <=? c) && (c <=? 13) || (28 <=? c) && (c <=? 32) ||
   (c =? 133) || (c =? 160) || (c =? 5760) ||
   (8192 <=? c) && (c <=? 8202) ||
   (c =? 8232) || (c =? 8233) || (c =? 8239) || (c =? 8287) || (c =? 12288))%N.

Fixpoint lstrip (s : str) : str :=
  match s with
  | [] => []
  | c :: t => if isspace c then lstrip t else s
  end.

Definition rstrip (s : str) : str := rev (lstrip (rev s)).

(** [s.strip()] *)
Definition strip (s : str) : str := rstrip (lstrip s).

(** [s.startswith(p)] *)
Fixpoint startswith (p s : str) : bool :=
  match p, s with
  | [], _ => true
  | _ :: _, [] => false
  | a :: p', b :: s' => (a =? b)%N && startswith p' s'
  end.

(** [s.split(sep)] for a non-empty [sep]: the text is scanned from the left,
    every leftmost occurrence of [sep] closes the current piece and is
    skipped.  [skip] counts the characters of a matched separator that are
    still to be passed over, [cur] holds the current piece, reversed. *)
Fixpoint split_from (sep s : str) (skip : nat) (cur : str) : list str :=
  match s with
  | [] => [rev cur]
  | c :: t =>
      match skip with
      | S n => split_from sep t n cur
      | O =>
          if startswith sep s
          then rev cur :: split_from sep t (length sep - 1) []
          else split_from sep t 0 (c :: cur)
      end
  end.

Definition split (s sep : str) : list str := split_from sep s 0 [].

(** [sep.join(l)] *)
Fixpoint join (sep : str) (l : list str) : str :=
  match l with
  | [] => []
  | x :: t =>
      match t with
      | [] => x
      | _ :: _ => x ++ sep ++ join sep t
      end
  end.

(** [s.replace('\r\n', '\n')] *)
Fixpoint replace_crlf (s : str) : str :=
  match s with
  | [] => []
  | c :: t =>
      match t with
      | c2 :: t2 =>
          if (c =? CR)%N && (c2 =? LF)%N
          then LF :: replace_crlf t2
          else c :: replace_crlf t
      | [] => [c]
      end
  end.

(** What [f.read()] returns for a file opened in text mode with the default
    [newline=None] (universal newlines): CR LF and a lone CR both read as
    LF.  [pendingcr] tells that the previous character was a CR, already
    delivered as LF. *)
Fixpoint translate_newlines (s : str) (pendingcr : bool) : str :=
  match s with
  | [] => []
  | c :: t =>
      if (c =? CR)%N then LF :: translate_newlines t true
      else if (c =? LF)%N && pendingcr then translate_newlines t false
      else c :: translate_newlines t false
  end.

Definition universal_newlines (s : str) : str := translate_newlines s false.

(** The comprehension [[chunk.strip() for chunk in chunks if chunk.strip()]]. *)
Fixpoint strip_nonempty (chunks : list str) : list str :=
  match chunks with
  | [] => []
  | chunk :: rest =>
      match strip chunk with
      | [] => strip_nonempty rest
      | (_ :: _) as stripped => stripped :: strip_nonempty rest
      end
  end.

(** The text [s] cut at the occurrences of [sep] found from the left, none
    overlapping the one before: no place inside a piece is the start of
    the separator, read in the text that follows. *)
Inductive splits_into (sep : str) : str -> list str -> Prop :=
| splits_last (p : str) :
    (forall a1 a2, p = a1 ++ a2 -> a2 <> [] -> startswith sep a2 = false) ->
    splits_into sep p [p]
| splits_cons (p rest : str) (ps : list str) :
    (forall a1 a2, p = a1 ++ a2 -> a2 <> [] ->
       startswith sep (a2 ++ sep ++ rest) = false) ->
    splits_into sep rest ps ->
    splits_into sep (p ++ sep ++ rest) (p :: ps).

(** [p] occurs in [s] as a substring. *)
Definition occurs (p s : str) : Prop := exists a b, s = a ++ p ++ b.

(** A chunk as the data model wants it: non-empty, and neither its first
    nor its last character is whitespace. *)
Definition trimmed (s : str) : Prop :=
  s <> [] /\ (forall c t, s = c :: t -> isspace c = false)
          /\ (forall c t, s = t ++ [c] -> isspace c = false).

Definition blank (s : str) : bool := forallb isspace s.

(** [p in s] *)
Fixpoint contains (p s : str) : bool :=
  startswith p s ||
  match s with
  | [] => false
  | _ :: t => contains p t
  end.

Definition no_CR (s : str) : Prop := Forall (fun c => c <> CR) s.

(** For a separator LF, [marker], LF: the separator is not found in the
    chunk, nor in the chunk with a LF put after it (the chunk does not end
    with LF and the marker). *)
Definition separable (marker c : str) : Prop :=
  ~ occurs (LF :: marker ++ [LF]) (c ++ [LF]).

End PyStr.
Import PyStr.

(* ================================================================== *)
(** * The retriever and its collaborators *)
(* ================================================================== *)

(** ** Exceptions and results *)

Inductive exn :=
| FileNotFoundError
| UnicodeDecodeError
| UnicodeEncodeError    (* a text that the output or a file cannot encode *)
| RuntimeError          (* faiss could not read the index file *)
| ValueError
| IndexError
| AssertionError
| AttributeError
| TypeError
| ProviderError         (* whatever the embedding provider raises *)
| OSError.              (* the operating system refuses a write *)

Inductive Result (A : Type) :=
| Ok (a : A)
| Raise (e : exn).
Arguments Ok {A} a.
Arguments Raise {A} e.

(** A path of the file system. *)
Inductive file (A : Type) :=
| Absent                 (* no such path *)
| Unreadable             (* present, but it does not decode *)
| Holds (content : A).
Arguments Absent {A}.
Arguments Unreadable {A}.
Arguments Holds {A} content.

(** ** What the program prints *)

Inductive message :=
| LoadingExistingIndex
| NoIndexFound
| EmbeddingServiceNotAvailable
| NoTextChunksFound
| GeneratingEmbeddings (n : nat)
| EmbeddingDimension (dim : nat)
| IndexBuilt (n : nat)
| ErrorBuilding (e : exn)
| IndexNotBuilt
| SavingIndex
| IndexSaved
| IndexLoaded (n : option nat) (m : nat)
| ErrorLoading (e : exn)
| WillRebuild
| Searching (query : str)
| IndexOutOfBounds (i : Z)
| NoRelevantDocuments
| FoundContext (context : str)
| ErrorDuringSearch (e : exn).

Section Retrieval.

(** The components of an embedding vector are float32 numbers in the
    program.  The development is parametric in them: a type of numbers, the
    squared Euclidean distance of two vectors, the comparison of two
    distances and the distance reported for a missing neighbour. *)
Variable scalar : Type.
Variable sq_l2 : list scalar -> list scalar -> scalar.
Variable scalar_leb : scalar -> scalar -> bool.
Variable no_hit_distance : scalar.

Definition vector := list scalar.


(** ** numpy *)

(** [np.array(embeddings, dtype="float32")] for a sequence of vectors: the
    rows must have one length (an empty sequence gives an array of shape
    [(0,)]). *)
Definition np_array (embeddings : list vector) : Result (list vector) :=
  match embeddings with
  | [] => Ok []
  | r :: rest =>
      if forallb (fun r' => length r' =? length r) rest
      then Ok embeddings else Raise ValueError
  end.

(** [a.shape[1]] *)
Definition shape_1 (a : list vector) : Result nat :=
  match a with
  | [] => Raise IndexError
  | r :: _ => Ok (length r)
  end.

(** ** The flat L2 index *)

Record Index := { d : nat; xb : list vector }.

(** [faiss.IndexFlatL2(d)] *)
Definition IndexFlatL2 (dim : nat) : Index := {| d := dim; xb := [] |}.

(** [index.add(x)] *)
Definition add (i : Index) (x : list vector) : Index :=
  {| d := d i; xb := xb i ++ x |}.

Definition ntotal (i : Index) : nat := length (xb i).

Fixpoint insert_hit (h : nat * scalar) (l : list (nat * scalar)) : list (nat * scalar) :=
  match l with
  | [] => [h]
  | y :: t => if scalar_leb (snd h) (snd y) then h :: l else y :: insert_hit h t
  end.

(** Every stored vector with its ordinal and its distance from [q], by
    ascending distance, equal distances by ascending ordinal. *)
Definition ranked (x : list vector) (q : vector) : list (nat * scalar) :=
  fold_right insert_hit [] (combine (seq 0 (length x)) (map (sq_l2 q) x)).

(** Modelled from the spec: [index.search(query, k)] of faiss, a library the
    repository only calls.  The query of section 4.3 (an exhaustive scan, the
    [k] nearest ordinals by ascending squared L2 distance, ties by ascending
    ordinal, all of them when [k] exceeds the number of stored vectors), in
    the shape [FaissRetriever.search] reads: one row of [k] distances and one
    row of [k] labels, the label -1 filling the places for which the index
    has no vector.  The wrapper asserts a positive [k] and a query of the
    dimension of the index. *)
Definition index_search (i : Index) (q : vector) (k : Z) : Result (list scalar * list Z) :=
  if negb (length q =? d i) then Raise AssertionError
  else if (k <=? 0)%Z then Raise AssertionError
  else
    let hits := firstn (Z.to_nat k) (ranked (xb i) q) in
    let missing := Z.to_nat k - length hits in
    Ok (map snd hits ++ repeat no_hit_distance missing,
        map (fun h => Z.of_nat (fst h)) hits ++ repeat (-1)%Z missing).

(** ** Files *)

(** The three paths of the retriever: [index_path], [text_path] and
    [knowledge_file].  A text file holds the characters its bytes decode
    to; the index file holds the index that [faiss.write_index] wrote and
    [faiss.read_index] gives back. *)
Record Disk := {
  index_file : file Index;
  text_file : file str;
  knowledge_file : file str
}.

(** [os.path.exists] *)
Definition exists_ {A} (f : file A) : bool :=
  match f with Absent => false | _ => true end.

(** ** The embedding service *)

(** [generate_embeddings(texts)] of the service: given how many calls came
    before, it answers with vectors or raises. *)
Definition EmbeddingService := nat -> list str -> Result (list vector).

(** ** The retriever object *)

Record FaissRetriever := {
  embedding_service : option EmbeddingService;
  index : option Index;
  chunks_with_content : list str;
  _initialized : bool
}.

(** [FaissRetriever(index_path, text_path, knowledge_file, embedding_svc)] *)
Definition __init__ (embedding_svc : option EmbeddingService) : FaissRetriever :=
  {| embedding_service := embedding_svc;
     index := None;
     chunks_with_content := [];
     _initialized := false |}.

Record World := {
  self : FaissRetriever;
  disk : Disk;
  calls : nat           (* calls made to the embedding service so far *)
}.


(** ** The monad of the methods

    A computation takes the world and gives its outcome, the world it
    leaves and what it printed.  A raised exception keeps the world. *)
Definition M (A : Type) : Type := World -> Result A * World * list message.

Definition ret {A} (a : A) : M A := fun w => (Ok a, w, []).

Definition bind {A B} (m : M A) (f : A -> M B) : M B :=
  fun w =>
    match m w with
    | (Ok a, w1, out1) =>
        let '(r, w2, out2) := f a w1 in (r, w2, out1 ++ out2)
    | (Raise e, w1, out1) => (Raise e, w1, out1)
    end.

Definition raise {A} (e : exn) : M A := fun w => (Raise e, w, []).

(** [try: body / except Exception as e: handler e] *)
Definition try_except {A} (body : M A) (handler : exn -> M A) : M A :=
  fun w =>
    match body w with
    | (Ok a, w1, out1) => (Ok a, w1, out1)
    | (Raise e, w1, out1) =>
        let '(r, w2, out2) := handler e w1 in (r, w2, out1 ++ out2)
    end.

(** [print(...)] on a standard output that takes the text.  The texts of
    the program and of the exceptions are taken to be printable; where a
    text from outside is printed, [Strict.print_text] below says what
    happens when standard output cannot encode it. *)
Definition print (m : message) : M unit := fun w => (Ok tt, w, [m]).

Definition lift {A} (r : Result A) : M A := fun w => (r, w, []).

Definition get_self : M FaissRetriever := fun w => (Ok (self w), w, []).

Definition set_self (r : FaissRetriever) : M unit :=
  fun w => (Ok tt, {| self := r; disk := disk w; calls := calls w |}, []).

Definition get_disk : M Disk := fun w => (Ok (disk w), w, []).

Definition set_disk (dk : Disk) : M unit :=
  fun w => (Ok tt, {| self := self w; disk := dk; calls := calls w |}, []).

Notation "x <- m ;; k" := (bind m (fun x => k))
  (at level 61, m at next level, right associativity).
Notation "m ;; k" := (bind m (fun _ => k))
  (at level 61, right associativity).

(** Assignments to the fields of [self]. *)
Definition with_index (s : FaissRetriever) (i : option Index) : FaissRetriever :=
  {| embedding_service := embedding_service s;
     index := i;
     chunks_with_content := chunks_with_content s;
     _initialized := _initialized s |}.

Definition with_chunks (s : FaissRetriever) (l : list str) : FaissRetriever :=
  {| embedding_service := embedding_service s;
     index := index s;
     chunks_with_content := l;
     _initialized := _initialized s |}.

Definition with_initialized (s : FaissRetriever) (b : bool) : FaissRetriever :=
  {| embedding_service := embedding_service s;
     index := index s;
     chunks_with_content := chunks_with_content s;
     _initialized := b |}.

Definition set_index (i : option Index) : M unit :=
  s <- get_self ;; set_self (with_index s i).

Definition set_chunks_with_content (l : list str) : M unit :=
  s <- get_self ;; set_self (with_chunks s l).

Definition set_initialized (b : bool) : M unit :=
  s <- get_self ;; set_self (with_initialized s b).

(** [with open(path, "r", encoding="utf-8") as f: content = f.read()] *)
Definition read_text (f : file str) : Result str :=
  match f with
  | Absent => Raise FileNotFoundError
  | Unreadable => Raise UnicodeDecodeError
  | Holds s => Ok (universal_newlines s)
  end.

(** [with open(self.text_path, "w", encoding="utf-8") as f: f.write(s)]
    when the write goes through (the directory of the path was made by
    the constructor); [Strict.write_text_file] below is the write that can
    fail. *)
Definition write_text_file (s : str) : M unit :=
  dk <- get_disk ;;
  set_disk {| index_file := index_file dk;
              text_file := Holds s;
              knowledge_file := knowledge_file dk |}.

(** [faiss.read_index(self.index_path)] *)
Definition read_index (f : file Index) : Result Index :=
  match f with
  | Holds i => Ok i
  | _ => Raise RuntimeError
  end.

(** [faiss.write_index(self.index, self.index_path)] when the write goes
    through; [Strict.write_index] below is the write that can fail. *)
Definition write_index (i : Index) : M unit :=
  dk <- get_disk ;;
  set_disk {| index_file := Holds i;
              text_file := text_file dk;
              knowledge_file := knowledge_file dk |}.

(** [await svc.generate_embeddings(texts)] *)
Definition generate_embeddings (svc : EmbeddingService) (texts : list str) : M (list vector) :=
  fun w => (svc (calls w) texts,
            {| self := self w; disk := disk w; calls := S (calls w) |}, []).

Definition paragraph_break : str := [LF; LF].

Definition marker : str := lit "<---CHUNK_SEPARATOR--->".

(** ["\n<---CHUNK_SEPARATOR--->\n"] *)
Definition separator : str := LF :: marker ++ [LF].

Definition not_initialized_error : str :=
  lit "Error: FAISS index or embedding service is not initialized.".
Definition no_relevant_information : str :=
  lit "No relevant information found in the knowledge base.".
Definition search_error : str :=
  lit "Error occurred during knowledge base search.".
Definition retriever_not_initialized_error : str :=
  lit "Error: Knowledge base retriever is not initialized.".

(** ** [FaissRetriever.save] *)
Definition save : M unit :=
  s <- get_self ;;
  match index s with
  | None => print IndexNotBuilt
  | Some i =>
      print SavingIndex ;;
      write_index i ;;
      s <- get_self ;;
      write_text_file (join separator (chunks_with_content s)) ;;
      print IndexSaved
  end.

(** ** [FaissRetriever.build] *)
Definition build_body (svc : EmbeddingService) : M unit :=
  dk <- get_disk ;;
  content <- lift (read_text (knowledge_file dk)) ;;
  let chunks := split content paragraph_break in
  set_chunks_with_content (strip_nonempty chunks) ;;
  s <- get_self ;;
  match chunks_with_content s with
  | [] => print NoTextChunksFound
  | _ :: _ =>
      print (GeneratingEmbeddings (length (chunks_with_content s))) ;;
      embeddings <- generate_embeddings svc (chunks_with_content s) ;;
      embeddings_np <- lift (np_array embeddings) ;;
      dim <- lift (shape_1 embeddings_np) ;;
      print (EmbeddingDimension dim) ;;
      set_index (Some (IndexFlatL2 dim)) ;;
      set_index (Some (add (IndexFlatL2 dim) embeddings_np)) ;;
      print (IndexBuilt (ntotal (add (IndexFlatL2 dim) embeddings_np))) ;;
      save
  end.

Definition build : M unit :=
  s <- get_self ;;
  match embedding_service s with
  | None => print EmbeddingServiceNotAvailable
  | Some svc => try_except (build_body svc) (fun e => print (ErrorBuilding e))
  end.

(** ** [FaissRetriever.load] *)
Definition load_body : M unit :=
  dk <- get_disk ;;
  i <- lift (read_index (index_file dk)) ;;
  set_index (Some i) ;;
  content <- lift (read_text (text_file dk)) ;;
  set_chunks_with_content (strip_nonempty (split content separator)) ;;
  s <- get_self ;;
  let mismatch :=
    match index s with          (* an index object is truthy *)
    | Some i => negb (length (chunks_with_content s) =? ntotal i)
    | None => false
    end in
  match chunks_with_content s with
  | [] => raise ValueError
  | _ :: _ =>
      if mismatch then raise ValueError
      else print (IndexLoaded (option_map ntotal (index s))
                              (length (chunks_with_content s)))
  end.

Definition load : M unit :=
  try_except load_body
    (fun e => print (ErrorLoading e) ;; print WillRebuild ;; build).

(** ** [FaissRetriever.initialize] *)
Definition initialize : M unit :=
  s <- get_self ;;
  if _initialized s then ret tt
  else
    dk <- get_disk ;;
    (if exists_ (index_file dk) && exists_ (text_file dk)
     then print LoadingExistingIndex ;; load
     else print NoIndexFound ;; build) ;;
    set_initialized true.

(** ** [FaissRetriever.search] *)

(** The loop over [indices[0]]. *)
Fixpoint for_indices (indices : list Z) (results : list str) : M (list str) :=
  match indices with
  | [] => ret results
  | i :: rest =>
      s <- get_self ;;
      if (0 <=? i)%Z && (i <? Z.of_nat (length (chunks_with_content s)))%Z
      then for_indices rest
             (results ++ [nth (Z.to_nat i) (chunks_with_content s) []])
      else print (IndexOutOfBounds i) ;; for_indices rest results
  end.

Definition search_body (i : Index) (svc : EmbeddingService) (query : str) (k : Z) : M str :=
  embedding_list <- generate_embeddings svc [query] ;;
  query_embedding <- lift (match embedding_list with
                           | [] => Raise IndexError
                           | e :: _ => Ok e
                           end) ;;
  found <- lift (index_search i query_embedding k) ;;
  let '(distances, indices) := found in
  results <- for_indices indices [] ;;
  match results with
  | [] => print NoRelevantDocuments ;; ret no_relevant_information
  | _ :: _ =>
      let context := join paragraph_break results in
      print (FoundContext context) ;; ret context
  end.

Definition search (query : str) (k : Z) : M str :=
  s <- get_self ;;
  (if _initialized s then ret tt else initialize) ;;
  s <- get_self ;;
  match index s, embedding_service s with
  | Some i, Some svc =>
      print (Searching query) ;;
      try_except (search_body i svc query k)
        (fun e => print (ErrorDuringSearch e) ;; ret search_error)
  | _, _ => ret not_initialized_error
  end.

(** ** [retrieve_knowledge], the tool of the agent

    [faiss_retriever] is the module's global: [None] until [setup_agent]
    has made the retriever. *)
Record Process := {
  faiss_retriever : option FaissRetriever;
  p_disk : Disk;
  p_calls : nat
}.

Definition retrieve_knowledge (query : str) (p : Process)
  : Result str * Process * list message :=
  match faiss_retriever p with
  | Some r =>
      let '(res, w, out) :=
        search query 2 {| self := r; disk := p_disk p; calls := p_calls p |} in
      (res, {| faiss_retriever := Some (self w); p_disk := disk w; p_calls := calls w |}, out)
  | None => (Ok retriever_not_initialized_error, p, [])
  end.

(** ** [rag.py] *)

Definition chunk_text (content : str) : list str :=
  let normalized_content := replace_crlf content in
  let chunks := split normalized_content paragraph_break in
  strip_nonempty chunks.

Definition build_faiss_index (embeddings : list vector) : Result Index :=
  match shape_1 embeddings with
  | Raise e => Raise e
  | Ok dimension => Ok (add (IndexFlatL2 dimension) embeddings)
  end.

Record Retrieved := { rank : nat; text : str; distance : scalar }.

Record RagGlobals := {
  faiss_index : option Index;
  text_chunks : option (list str);
  is_ready : bool
}.

(** The loop over [enumerate(zip(indices[0], distances[0]), 1)], appending
    to [retrieved].  The chained comparison [0 <= idx < len(text_chunks)]
    takes the length only when [0 <= idx] holds. *)
Fixpoint for_ranked (chunks : option (list str)) (rank0 : nat)
    (hits : list (Z * scalar)) (retrieved : list Retrieved)
  : Result (list Retrieved) :=
  match hits with
  | [] => Ok retrieved
  | (idx, dist) :: rest =>
      if (0 <=? idx)%Z
      then match chunks with
           | None => Raise TypeError
           | Some l =>
               if (idx <? Z.of_nat (length l))%Z
               then for_ranked chunks (S rank0) rest
                      (retrieved ++ [{| rank := rank0;
                                        text := nth (Z.to_nat idx) l [];
                                        distance := dist |}])
               else for_ranked chunks (S rank0) rest retrieved
           end
      else for_ranked chunks (S rank0) rest retrieved
  end.

(** [search_faiss(query, k)]; [embed_content] stands for the call to the
    embedding provider, which may raise. *)
Definition search_faiss (g : RagGlobals) (embed_content : str -> Result vector)
    (query : str) (k : Z) : Result (list Retrieved) :=
  if negb (is_ready g) then Ok []
  else
    match embed_content query with
    | Raise e => Raise e
    | Ok query_embedding =>
        match faiss_index g with
        | None => Raise AttributeError
        | Some i =>
            match index_search i query_embedding k with
            | Raise e => Raise e
            | Ok (distances, indices) =>
                for_ranked (text_chunks g) 1 (combine indices distances) []
            end
        end
    end.

End Retrieval.

Arguments vector scalar : clear implicits.
Arguments np_array {scalar} embeddings.
Arguments shape_1 {scalar} a.
Arguments d {scalar} i.
Arguments xb {scalar} i.
Arguments Build_Index {scalar} d xb.
Arguments IndexFlatL2 {scalar} dim.
Arguments add {scalar} i x.
Arguments ntotal {scalar} i.
Arguments index_file {scalar} _.
Arguments text_file {scalar} _.
Arguments knowledge_file {scalar} _.
Arguments Build_Disk {scalar} index_file text_file knowledge_file.
Arguments embedding_service {scalar} _.
Arguments index {scalar} _.
Arguments chunks_with_content {scalar} _.
Arguments _initialized {scalar} _.
Arguments Build_FaissRetriever {scalar} _ _ _ _.
Arguments __init__ {scalar} embedding_svc.
Arguments self {scalar} _.
Arguments disk {scalar} _.
Arguments calls {scalar} _.
Arguments Build_World {scalar} self disk calls.
Arguments ret {scalar A} a.
Arguments bind {scalar A B} m f.
Arguments raise {scalar A} e.
Arguments try_except {scalar A} body handler.
Arguments print {scalar} m.
Arguments lift {scalar A} r.
Arguments get_self {scalar}.
Arguments set_self {scalar} r.
Arguments get_disk {scalar}.
Arguments set_disk {scalar} dk.
Arguments set_index {scalar} i.
Arguments set_chunks_with_content {scalar} l.
Arguments set_initialized {scalar} b.
Arguments read_index {scalar} f.
Arguments write_index {scalar} i.
Arguments write_text_file {scalar} s.
Arguments generate_embeddings {scalar} svc texts.
Arguments save {scalar}.
Arguments build_body {scalar} svc.
Arguments build {scalar}.
Arguments load_body {scalar}.
Arguments load {scalar}.
Arguments initialize {scalar}.
Arguments for_indices {scalar} indices results.
Arguments faiss_retriever {scalar} _.
Arguments p_disk {scalar} _.
Arguments p_calls {scalar} _.
Arguments Build_Process {scalar} _ _ _.
Arguments build_faiss_index {scalar} embeddings.
Arguments rank {scalar} _.
Arguments text {scalar} _.
Arguments distance {scalar} _.
Arguments Build_Retrieved {scalar} _ _ _.
Arguments faiss_index {scalar} _.
Arguments text_chunks {scalar} _.
Arguments is_ready {scalar} _.
Arguments Build_RagGlobals {scalar} _ _ _.
Arguments for_ranked {scalar} chunks rank0 hits retrieved.
Arguments with_index {scalar} s i.
Arguments with_chunks {scalar} s l.
Arguments with_initialized {scalar} s b.
Arguments insert_hit {scalar} scalar_leb h l.
Arguments ranked {scalar} sq_l2 scalar_leb x q.
Arguments index_search {scalar} sq_l2 scalar_leb no_hit_distance i q k.
Arguments search_body {scalar} sq_l2 scalar_leb no_hit_distance i svc query k.
Arguments search {scalar} sq_l2 scalar_leb no_hit_distance query k.
Arguments retrieve_knowledge {scalar} sq_l2 scalar_leb no_hit_distance query p.
Arguments search_faiss {scalar} sq_l2 scalar_leb no_hit_distance g embed_content query k.

(* ================================================================== *)
(** * The vocabulary of the specification *)
(* ================================================================== *)

(** The chunker in the words of the specification: the paragraphs of a
    text are what lies between its paragraph breaks; the chunks are the
    paragraphs that are not blank, each trimmed of the whitespace around
    it, in their order. *)
Definition paragraphs (text : str) : list str := split text paragraph_break.

Definition non_blank_paragraphs (text : str) : list str :=
  filter (fun p => negb (blank p)) (paragraphs text).

Definition trim_of (p c : str) : Prop :=
  trimmed c /\ exists a b, p = a ++ c ++ b /\ blank a = true /\ blank b = true.

Section Vocabulary.

Variable scalar : Type.

(** The contract of the embedding gateway (section 4.2): as many vectors
    come back as texts were sent. *)
Definition count_preserving (svc : EmbeddingService scalar) : Prop :=
  forall n texts vs, svc n texts = Ok vs -> length vs = length texts.

(** [index.ntotal == len(chunks_with_content)] *)
Definition size_invariant (r : FaissRetriever scalar) : Prop :=
  exists i, index r = Some i /\ ntotal i = length (chunks_with_content r).

(** Every stored chunk is non-empty and has no whitespace at its ends. *)
Definition chunks_trimmed (r : FaissRetriever scalar) : Prop :=
  Forall trimmed (chunks_with_content r).

(** A build that went to its end printed that the index was saved; a load
    that did not fall back to a rebuild printed what it loaded. *)
Definition build_succeeded (out : list message) : Prop := In IndexSaved out.

Definition load_succeeded (out : list message) : Prop :=
  exists n m, In (IndexLoaded n m) out.

(** An ordinal the chunk list has. *)
Definition in_range (n : nat) (i : Z) : bool :=
  (0 <=? i)%Z && (i <? Z.of_nat n)%Z.

(** The chunks at the ordinals of a row of labels that the chunk list has,
    and the warnings for the other labels. *)
Definition chunks_at (chunks : list str) (indices : list Z) : list str :=
  map (fun i => nth (Z.to_nat i) chunks [])
      (filter (in_range (length chunks)) indices).

Definition out_of_bounds (chunks : list str) (indices : list Z) : list message :=
  map IndexOutOfBounds
      (filter (fun i => negb (in_range (length chunks) i)) indices).

(** The world with another retriever object, or with one more call made to
    the embedding service. *)
Definition with_self (w : World scalar) (r : FaissRetriever scalar) : World scalar :=
  {| self := r; disk := disk w; calls := calls w |}.

Definition called (w : World scalar) : World scalar :=
  {| self := self w; disk := disk w; calls := S (calls w) |}.

(** The world in which [search] queries the index: the one it was called
    in, or the one the lazy [initialize] leaves. *)
Definition after_lazy_initialize (w : World scalar) : World scalar :=
  if _initialized (self w) then w
  else let '(_, w1, _) := initialize w in w1.

(** The files after [save]. *)
Definition saved_disk (dk : Disk scalar) (i : Index scalar) (l : list str) : Disk scalar :=
  {| index_file := Holds i;
     text_file := Holds (join separator l);
     knowledge_file := knowledge_file dk |}.

(** The chunks [build] takes from the text of the knowledge file. *)
Definition corpus_chunks (content : str) : list str :=
  strip_nonempty (split content paragraph_break).

(** The ways of [build]. *)
Inductive build_case (w w' : World scalar) (out : list message) : Prop :=
| build_no_service :
    embedding_service (self w) = None ->
    w' = w -> out = [EmbeddingServiceNotAvailable] ->
    build_case w w' out
| build_corpus_unreadable svc e :
    embedding_service (self w) = Some svc ->
    read_text (knowledge_file (disk w)) = Raise e ->
    w' = w -> out = [ErrorBuilding e] ->
    build_case w w' out
| build_corpus_empty svc content :
    embedding_service (self w) = Some svc ->
    read_text (knowledge_file (disk w)) = Ok content ->
    corpus_chunks content = [] ->
    w' = with_self w (with_chunks (self w) []) ->
    out = [NoTextChunksFound] ->
    build_case w w' out
| build_embedding_failed svc content e :
    embedding_service (self w) = Some svc ->
    read_text (knowledge_file (disk w)) = Ok content ->
    corpus_chunks content <> [] ->
    (svc (calls w) (corpus_chunks content) = Raise e \/
     exists embeddings, svc (calls w) (corpus_chunks content) = Ok embeddings /\
       (np_array embeddings = Raise e \/ shape_1 embeddings = Raise e)) ->
    w' = called (with_self w (with_chunks (self w) (corpus_chunks content))) ->
    out = [GeneratingEmbeddings (length (corpus_chunks content)); ErrorBuilding e] ->
    build_case w w' out
| build_done svc content embeddings dim :
    embedding_service (self w) = Some svc ->
    read_text (knowledge_file (disk w)) = Ok content ->
    corpus_chunks content <> [] ->
    svc (calls w) (corpus_chunks content) = Ok embeddings ->
    np_array embeddings = Ok embeddings ->
    shape_1 embeddings = Ok dim ->
    w' = {| self := with_index (with_chunks (self w) (corpus_chunks content))
                      (Some {| d := dim; xb := embeddings |});
            disk := saved_disk (disk w) {| d := dim; xb := embeddings |}
                      (corpus_chunks content);
            calls := S (calls w) |} ->
    out = [GeneratingEmbeddings (length (corpus_chunks content));
           EmbeddingDimension dim; IndexBuilt (length embeddings);
           SavingIndex; IndexSaved] ->
    build_case w w' out.

(** The chunks [load] takes from the text file. *)
Definition artifact_chunks (content : str) : list str :=
  strip_nonempty (split content separator).

(** The ways in which the body of [load] raises, with the world it leaves. *)
Inductive load_failure (w w1 : World scalar) (e : exn) : Prop :=
| load_index_unreadable :
    read_index (index_file (disk w)) = Raise e ->
    w1 = w ->
    load_failure w w1 e
| load_text_unreadable i :
    read_index (index_file (disk w)) = Ok i ->
    read_text (text_file (disk w)) = Raise e ->
    w1 = with_self w (with_index (self w) (Some i)) ->
    load_failure w w1 e
| load_mismatch i content :
    read_index (index_file (disk w)) = Ok i ->
    read_text (text_file (disk w)) = Ok content ->
    artifact_chunks content = [] \/
      length (artifact_chunks content) <> ntotal i ->
    e = ValueError ->
    w1 = with_self w (with_chunks (with_index (self w) (Some i))
                        (artifact_chunks content)) ->
    load_failure w w1 e.

(** The ways of [load]. *)
Inductive load_case (w w' : World scalar) (out : list message) : Prop :=
| load_done i content :
    read_index (index_file (disk w)) = Ok i ->
    read_text (text_file (disk w)) = Ok content ->
    artifact_chunks content <> [] ->
    length (artifact_chunks content) = ntotal i ->
    w' = with_self w (with_chunks (with_index (self w) (Some i))
                        (artifact_chunks content)) ->
    out = [IndexLoaded (Some (ntotal i)) (length (artifact_chunks content))] ->
    load_case w w' out
| load_rebuild e w1 out1 :
    load_failure w w1 e ->
    build_case w1 w' out1 ->
    out = ErrorLoading e :: WillRebuild :: out1 ->
    load_case w w' out.

End Vocabulary.

Arguments count_preserving {scalar} svc.
Arguments size_invariant {scalar} r.
Arguments chunks_trimmed {scalar} r.
Arguments with_self {scalar} w r.
Arguments called {scalar} w.
Arguments after_lazy_initialize {scalar} w.
Arguments saved_disk {scalar} dk i l.
Arguments build_case {scalar} w w' out.
Arguments load_failure {scalar} w w1 e.
Arguments load_case {scalar} w w' out.

(** The order of the ranking in section 4.3: the distance of the first hit
    is not the greater one and, at equal distances, its ordinal is the
    smaller one. *)
Definition ranks_before {scalar : Type} (scalar_leb : scalar -> scalar -> bool)
    (h1 h2 : nat * scalar) : Prop :=
  scalar_leb (snd h1) (snd h2) = true /\
  (scalar_leb (snd h2) (snd h1) = true -> fst h1 < fst h2).

(** The worlds a retriever can be in: just constructed, or after a call of
    one of its methods from such a world, or after the files or the number
    of calls to the embedding service were changed from outside. *)
Inductive reachable {scalar : Type} (sq_l2 : list scalar -> list scalar -> scalar)
    (scalar_leb : scalar -> scalar -> bool) (no_hit_distance : scalar)
  : World scalar -> Prop :=
| reachable_new svc dk n :
    reachable sq_l2 scalar_leb no_hit_distance
      {| self := __init__ svc; disk := dk; calls := n |}
| reachable_outside w dk n :
    reachable sq_l2 scalar_leb no_hit_distance w ->
    reachable sq_l2 scalar_leb no_hit_distance
      {| self := self w; disk := dk; calls := n |}
| reachable_initialize w r w' out :
    reachable sq_l2 scalar_leb no_hit_distance w ->
    initialize w = (r, w', out) ->
    reachable sq_l2 scalar_leb no_hit_distance w'
| reachable_build w r w' out :
    reachable sq_l2 scalar_leb no_hit_distance w ->
    build w = (r, w', out) ->
    reachable sq_l2 scalar_leb no_hit_distance w'
| reachable_load w r w' out :
    reachable sq_l2 scalar_leb no_hit_distance w ->
    load w = (r, w', out) ->
    reachable sq_l2 scalar_leb no_hit_distance w'
| reachable_save w r w' out :
    reachable sq_l2 scalar_leb no_hit_distance w ->
    save w = (r, w', out) ->
    reachable sq_l2 scalar_leb no_hit_distance w'
| reachable_search w query k r w' out :
    reachable sq_l2 scalar_leb no_hit_distance w ->
    search sq_l2 scalar_leb no_hit_distance query k w = (r, w', out) ->
    reachable sq_l2 scalar_leb no_hit_distance w'.

(** The ordinals a query finds: the first [k] of the ranking. *)
Definition nearest {scalar : Type} (sq_l2 : list scalar -> list scalar -> scalar)
    (scalar_leb : scalar -> scalar -> bool) (i : Index scalar)
    (q : vector scalar) (k : Z) : list nat :=
  map fst (firstn (Z.to_nat k) (ranked sq_l2 scalar_leb (xb i) q)).

(* ================================================================== *)
(** * Concrete scenarios *)
(* ================================================================== *)

Module Scenario.

(** Integer components, with the exact squared distance. *)
Definition sq_l2 (a b : list Z) : Z :=
  fold_right Z.add 0%Z
    (map (fun p => ((fst p - snd p) * (fst p - snd p))%Z) (combine a b)).

Definition no_hit : Z := (-1)%Z.

(** A deterministic embedding stub: a text goes to the one-component vector
    of its number of characters. *)
Definition stub : EmbeddingService Z :=
  fun _ texts => Ok (map (fun t => [Z.of_nat (length t)]) texts).

(** A provider that is down. *)
Definition provider_down : EmbeddingService Z :=
  fun _ _ => Raise ProviderError.

(** The corpus of the concrete scenario of the specification. *)
Definition corpus : str :=
  lit "Reset your password by visiting /reset." ++ [LF; LF] ++
  lit "Contact support at help@co.com for billing issues.".

(** A corpus of blank paragraphs only. *)
Definition blank_corpus : str := lit "  " ++ [LF; LF; LF] ++ lit " ".

(** One paragraph that holds the chunk separator. *)
Definition separator_corpus : str := lit "a" ++ separator ++ lit "b".

(** Two paragraphs, the first of which ends with LF and the marker. *)
Definition marker_tail_corpus : str :=
  lit "x" ++ [LF] ++ marker ++ [LF; LF] ++ lit "y".

(** A retriever just constructed, no artifact on disk. *)
Definition fresh (svc : EmbeddingService Z) (knowledge : file str) : World Z :=
  {| self := __init__ (Some svc);
     disk := {| index_file := Absent; text_file := Absent;
                knowledge_file := knowledge |};
     calls := 0 |}.

(** The worlds [initialize], [build] and [save] leave. *)
Definition after_initialize (w : World Z) : World Z :=
  let '(_, w', _) := initialize w in w'.

Definition after_build (w : World Z) : World Z :=
  let '(_, w', _) := build w in w'.

Definition after_save (w : World Z) : World Z :=
  let '(_, w', _) := save w in w'.

(** A retriever just constructed over the files another one left. *)
Definition restarted (svc : EmbeddingService Z) (w : World Z) : World Z :=
  {| self := __init__ (Some svc); disk := disk w; calls := calls w |}.

(** An artifact whose two files disagree: an index of two vectors beside a
    text file of three chunks; the knowledge file is gone. *)
Definition stale_index : Index Z := {| d := 1; xb := [[5%Z]; [9%Z]] |}.

Definition three_chunks : list str := [lit "alpha"; lit "beta"; lit "gamma"].

Definition mismatched_artifact : World Z :=
  {| self := __init__ (Some stub);
     disk := {| index_file := Holds stale_index;
                text_file := Holds (join separator three_chunks);
                knowledge_file := Absent |};
     calls := 0 |}.

(** A ready retriever whose embedding provider went down. *)
Definition ready_provider_down : World Z :=
  {| self := {| embedding_service := Some provider_down;
                index := Some stale_index;
                chunks_with_content := [lit "alpha"; lit "beta"];
                _initialized := true |};
     disk := {| index_file := Absent; text_file := Absent;
                knowledge_file := Absent |};
     calls := 0 |}.

Definition question : str := lit "how do I reset my password".

End Scenario.

(* ================================================================== *)
(** * The retriever when printing and writing can fail *)
(* ================================================================== *)

(** The methods above are written for a standard output that takes every
    text and for writes that succeed.  Here they are once more with the
    three places where that matters written out: the [print] of a text
    that comes from outside the program (the query, the context), and the
    two writes of [save].  Standard output is taken to encode UTF-8, which
    refuses a lone surrogate and nothing else; the texts of the program
    and of the exceptions are taken to be printable. *)

(** [s.encode("utf-8")] succeeds: no code point of [s] is a surrogate. *)
Definition encodable (s : str) : bool :=
  forallb (fun c => negb ((55296 <=? c)%N && (c <=? 57343)%N)) s.

Module Strict.

Section Methods.

Variable scalar : Type.
Variable sq_l2 : list scalar -> list scalar -> scalar.
Variable scalar_leb : scalar -> scalar -> bool.
Variable no_hit_distance : scalar.

(** What the file system does to the two writes of one [save]: each one
    goes through, or raises an exception and leaves its path as some file
    (the one of before, a truncated one, none). *)
Record Faults := {
  on_write_index : option (exn * file (Index scalar));
  on_write_text : option (exn * file str)
}.

Definition no_faults : Faults :=
  {| on_write_index := None; on_write_text := None |}.

Variable faults : Faults.

Local Notation "x <- m ;; k" := (bind m (fun x => k))
  (at level 61, m at next level, right associativity).
Local Notation "m ;; k" := (bind m (fun _ => k))
  (at level 61, right associativity).

(** [print(f"...{s}...")] for a text [s] from outside the program. *)
Definition print_text (s : str) (m : message) : M scalar unit :=
  if encodable s then print m else raise UnicodeEncodeError.

(** [faiss.write_index(self.index, self.index_path)] *)
Definition write_index (i : Index scalar) : M scalar unit :=
  dk <- get_disk ;;
  match on_write_index faults with
  | Some (e, remains) =>
      set_disk {| index_file := remains;
                  text_file := text_file dk;
                  knowledge_file := knowledge_file dk |} ;;
      raise e
  | None =>
      set_disk {| index_file := Holds i;
                  text_file := text_file dk;
                  knowledge_file := knowledge_file dk |}
  end.

(** [with open(self.text_path, "w", encoding="utf-8") as f: f.write(s)]:
    when the file system lets it through, [open] has emptied the file
    before [f.write] encodes [s]. *)
Definition write_text_file (s : str) : M scalar unit :=
  dk <- get_disk ;;
  match on_write_text faults with
  | Some (e, remains) =>
      set_disk {| index_file := index_file dk;
                  text_file := remains;
                  knowledge_file := knowledge_file dk |} ;;
      raise e
  | None =>
      if encodable s
      then set_disk {| index_file := index_file dk;
                       text_file := Holds s;
                       knowledge_file := knowledge_file dk |}
      else set_disk {| index_file := index_file dk;
                       text_file := Holds [];
                       knowledge_file := knowledge_file dk |} ;;
           raise UnicodeEncodeError
  end.

(** ** [FaissRetriever.save] *)
Definition save : M scalar unit :=
  s <- get_self ;;
  match index s with
  | None => print IndexNotBuilt
  | Some i =>
      print SavingIndex ;;
      write_index i ;;
      s <- get_self ;;
      write_text_file (join separator (chunks_with_content s)) ;;
      print IndexSaved
  end.

(** ** [FaissRetriever.build] *)
Definition build_body (svc : EmbeddingService scalar) : M scalar unit :=
  dk <- get_disk ;;
  content <- lift (read_text (knowledge_file dk)) ;;
  let chunks := split content paragraph_break in
  set_chunks_with_content (strip_nonempty chunks) ;;
  s <- get_self ;;
  match chunks_with_content s with
  | [] => print NoTextChunksFound
  | _ :: _ =>
      print (GeneratingEmbeddings (length (chunks_with_content s))) ;;
      embeddings <- generate_embeddings svc (chunks_with_content s) ;;
      embeddings_np <- lift (np_array embeddings) ;;
      dim <- lift (shape_1 embeddings_np) ;;
      print (EmbeddingDimension dim) ;;
      set_index (Some (IndexFlatL2 dim)) ;;
      set_index (Some (add (IndexFlatL2 dim) embeddings_np)) ;;
      print (IndexBuilt (ntotal (add (IndexFlatL2 dim) embeddings_np))) ;;
      save
  end.

Definition build : M scalar unit :=
  s <- get_self ;;
  match embedding_service s with
  | None => print EmbeddingServiceNotAvailable
  | Some svc => try_except (build_body svc) (fun e => print (ErrorBuilding e))
  end.

(** ** [FaissRetriever.load] *)
Definition load : M scalar unit :=
  try_except load_body
    (fun e => print (ErrorLoading e) ;; print WillRebuild ;; build).

(** ** [FaissRetriever.initialize] *)
Definition initialize : M scalar unit :=
  s <- get_self ;;
  if _initialized s then ret tt
  else
    dk <- get_disk ;;
    (if exists_ (index_file dk) && exists_ (text_file dk)
     then print LoadingExistingIndex ;; load
     else print NoIndexFound ;; build) ;;
    set_initialized true.

(** ** [FaissRetriever.search] *)
Definition search_body (i : Index scalar) (svc : EmbeddingService scalar)
    (query : str) (k : Z) : M scalar str :=
  embedding_list <- generate_embeddings svc [query] ;;
  query_embedding <- lift (match embedding_list with
                           | [] => Raise IndexError
                           | e :: _ => Ok e
                           end) ;;
  found <- lift (index_search sq_l2 scalar_leb no_hit_distance i query_embedding k) ;;
  let '(distances, indices) := found in
  results <- for_indices indices [] ;;
  match results with
  | [] => print NoRelevantDocuments ;; ret no_relevant_information
  | _ :: _ =>
      let context := join paragraph_break results in
      print_text context (FoundContext context) ;; ret context
  end.

(** The [print] of the query stands before the [try]. *)
Definition search (query : str) (k : Z) : M scalar str :=
  s <- get_self ;;
  (if _initialized s then ret tt else initialize) ;;
  s <- get_self ;;
  match index s, embedding_service s with
  | Some i, Some svc =>
      print_text query (Searching query) ;;
      try_except (search_body i svc query k)
        (fun e => print (ErrorDuringSearch e) ;; ret search_error)
  | _, _ => ret not_initialized_error
  end.

(** ** [retrieve_knowledge] *)
Definition retrieve_knowledge (query : str) (p : Process scalar)
  : Result str * Process scalar * list message :=
  match faiss_retriever p with
  | Some r =>
      let '(res, w, out) :=
        search query 2 {| self := r; disk := p_disk p; calls := p_calls p |} in
      (res, {| faiss_retriever := Some (self w); p_disk := disk w; p_calls := calls w |}, out)
  | None => (Ok retriever_not_initialized_error, p, [])
  end.

(** The world in which [search] reaches its guard: the one it was
    called in, or the one the lazy [initialize] leaves. *)
Definition after_lazy_initialize (w : World scalar) : World scalar :=
  if _initialized (self w) then w
  else let '(_, w1, _) := initialize w in w1.

End Methods.

Arguments Faults scalar : clear implicits.
Arguments on_write_index {scalar} _.
Arguments on_write_text {scalar} _.
Arguments Build_Faults {scalar} _ _.
Arguments no_faults {scalar}.
Arguments print_text {scalar} s m.
Arguments write_index {scalar} faults i.
Arguments write_text_file {scalar} faults s.
Arguments save {scalar} faults.
Arguments build_body {scalar} faults svc.
Arguments build {scalar} faults.
Arguments load {scalar} faults.
Arguments initialize {scalar} faults.
Arguments search_body {scalar} sq_l2 scalar_leb no_hit_distance i svc query k.
Arguments search {scalar} sq_l2 scalar_leb no_hit_distance faults query k.
Arguments retrieve_knowledge {scalar} sq_l2 scalar_leb no_hit_distance faults query p.
Arguments after_lazy_initialize {scalar} faults w.

End Strict.

(** What a call does to the files: it never writes the knowledge file; as
    long as no [save] has started writing, every file is as it was; and
    when a [save] went to its end, the index file and the text file hold
    the index and the chunks of the retriever. *)
Definition writes_by_save {scalar : Type} (w w' : World scalar)
    (out : list message) : Prop :=
  knowledge_file (disk w') = knowledge_file (disk w) /\
  (~ In SavingIndex out -> disk w' = disk w) /\
  (In IndexSaved out ->
   exists i, index (self w') = Some i /\
     disk w' = saved_disk (disk w) i (chunks_with_content (self w')) /\
     encodable (join separator (chunks_with_content (self w'))) = true).

(* ================================================================== *)
(** * The upload and chat endpoints of [rag.py] *)
(* ================================================================== *)

(** [s.endswith(suffix)] *)
Definition endswith (s suffix : str) : bool := startswith (rev suffix) (rev s).

(** What leaves an endpoint when it raises: an exception of a library or
    of the interpreter, or an [HTTPException].  The detail of an
    [HTTPException] is a text of the program or [str(e)] of a caught
    exception [e]. *)
Inductive raised :=
| Library (e : exn)
| HTTPException (status_code : nat) (detail : detail)
with detail :=
| Text (s : str)
| StrOf (e : raised).

Inductive Response (A : Type) :=
| Returns (a : A)
| Raises (e : raised).
Arguments Returns {A} a.
Arguments Raises {A} e.

(** The [task_type] of [genai.embed_content]. *)
Inductive task_type := retrieval_document | retrieval_query.

Module Rag.

(** The prompt of [generate_answer], an f-string over [context] and
    [query]. *)
Definition prompt (context query : str) : str :=
  join [LF]
    [ lit "You are an expert AI assistant with deep knowledge and analytical capabilities. Your role is to provide comprehensive, accurate, and well-structured answers based on the given context.";
      [];
      lit "INSTRUCTIONS:";
      lit "1. Analyze the provided context carefully and thoroughly";
      lit "2. Answer the question with detailed explanations and relevant examples where applicable";
      lit "3. Structure your response with clear paragraphs for better readability";
      lit "4. If the context contains multiple relevant points, address them systematically";
      lit "5. Use specific information from the context to support your answer";
      lit "6. If you reference information, you can mention which source it comes from (e.g., "
        ++ [34%N] ++ lit "According to Source 1..." ++ [34%N] ++ lit ")";
      lit "7. Be informative but remain focused on answering the specific question asked";
      lit "8. If the context doesn't fully answer the question, provide the most relevant information available and acknowledge any limitations";
      [];
      lit "CONTEXT INFORMATION:";
      context;
      [];
      lit "USER QUESTION:";
      query;
      [];
      lit "DETAILED ANSWER:";
      lit "Please provide a comprehensive and well-explained response based on the context above." ].

Definition only_txt_files : str := lit "Only .txt files are supported".
Definition content_too_short : str := lit "File content is too short".
Definition encoding_error : str :=
  lit "File encoding error. Please ensure file is UTF-8 encoded.".
Definition upload_first : str :=
  lit "Please upload a knowledge base file first using /upload endpoint".
Definition question_too_short : str := lit "Question is too short".
Definition nothing_relevant : str :=
  lit "I couldn't find relevant information in the knowledge base.".

(** The file of an upload request: its name, if the part has one, and the
    text its bytes decode to as UTF-8, if they do. *)
Record UploadFile := { filename : option str; content : option str }.

(** The dictionary [upload_file] returns. *)
Record UploadResponse := {
  status : str;
  message : str;
  chunks_created : nat;
  ready_for_chat : bool
}.

Record ChatRequest := { question : str; top_k : Z }.

(** What [root] returns, without its constant entries. *)
Record Status := { ready : bool; chunks_loaded : nat }.

Section Endpoints.

Variable scalar : Type.
Variable sq_l2 : list scalar -> list scalar -> scalar.
Variable scalar_leb : scalar -> scalar -> bool.
Variable no_hit_distance : scalar.
(** [round(1 / (1 + distance), 3)] *)
Variable relevance : scalar -> scalar.

(** [genai.embed_content(model=..., content=text, task_type=...)['embedding']]
    at the n-th call to the provider; it may raise. *)
Definition Provider := nat -> task_type -> str -> Result (vector scalar).

(** [GenerativeModel('gemini-2.5-flash').generate_content(prompt).text] at
    the n-th call; it may raise. *)
Definition Model := nat -> str -> Result str.

(** The globals of the module, and how often the two services were
    called. *)
Record State := {
  globals : RagGlobals scalar;
  embed_calls : nat;
  generate_calls : nat
}.

(** The loop of [generate_embeddings] over [enumerate(texts)], appending
    to [embeddings]. *)
Fixpoint for_texts (provider : Provider) (texts : list str) (n : nat)
    (embeddings : list (vector scalar)) : Result (list (vector scalar)) * nat :=
  match texts with
  | [] => (Ok embeddings, n)
  | text :: rest =>
      match provider n retrieval_document text with
      | Raise e => (Raise e, S n)
      | Ok embedding => for_texts provider rest (S n) (embeddings ++ [embedding])
      end
  end.

Definition generate_embeddings (provider : Provider) (texts : list str) (n : nat)
  : Result (list (vector scalar)) * nat :=
  match for_texts provider texts n [] with
  | (Ok embeddings, n') => (np_array embeddings, n')
  | (Raise e, n') => (Raise e, n')
  end.

Definition generate_answer (model : Model) (query : str)
    (context_chunks : list (Retrieved scalar)) (n : nat) : Result str * nat :=
  let context := join [LF; LF] (map text context_chunks) in
  (model n (prompt context query), S n).

Definition root (st : State) : Status :=
  {| ready := is_ready (globals st);
     chunks_loaded := match text_chunks (globals st) with
                      | Some ((_ :: _) as l) => length l
                      | _ => 0
                      end |}.

Definition with_text_chunks (st : State) (l : list str) (n : nat) : State :=
  {| globals := {| faiss_index := faiss_index (globals st);
                   text_chunks := Some l;
                   is_ready := is_ready (globals st) |};
     embed_calls := n;
     generate_calls := generate_calls st |}.

(** The [try] block of [upload_file].  [text_chunks] is assigned as soon
    as the text is chunked, [faiss_index] and [is_ready] once the index is
    built. *)
Definition upload_body (provider : Provider) (file : UploadFile) (name : str)
    (st : State) : Response UploadResponse * State :=
  match content file with
  | None => (Raises (Library UnicodeDecodeError), st)
  | Some content =>
      if length content <? 10
      then (Raises (HTTPException 400 (Text content_too_short)), st)
      else
        let chunks := chunk_text content in
        match generate_embeddings provider chunks (embed_calls st) with
        | (Raise e, n) => (Raises (Library e), with_text_chunks st chunks n)
        | (Ok embeddings, n) =>
            match build_faiss_index embeddings with
            | Raise e => (Raises (Library e), with_text_chunks st chunks n)
            | Ok i =>
                (Returns {| status := lit "success";
                            message := lit "File '" ++ name ++
                                       lit "' uploaded and indexed successfully";
                            chunks_created := length chunks;
                            ready_for_chat := true |},
                 {| globals := {| faiss_index := Some i;
                                  text_chunks := Some chunks;
                                  is_ready := true |};
                    embed_calls := n;
                    generate_calls := generate_calls st |})
            end
        end
  end.

(** The two handlers of [upload_file], [except UnicodeDecodeError] and
    [except Exception as e]: what they raise for the exception [e] of the
    [try] block. *)
Definition upload_except (e : raised) : raised :=
  match e with
  | Library UnicodeDecodeError => HTTPException 400 (Text encoding_error)
  | _ => HTTPException 500 (StrOf e)
  end.

(** [upload_file]: the check of the file name, then the [try] block under
    its handlers. *)
Definition upload_file (provider : Provider) (file : UploadFile) (st : State)
  : Response UploadResponse * State :=
  match filename file with
  | None => (Raises (Library AttributeError), st)
  | Some name =>
      if negb (endswith name (lit ".txt"))
      then (Raises (HTTPException 400 (Text only_txt_files)), st)
      else
        match upload_body provider file name st with
        | (Returns r, st') => (Returns r, st')
        | (Raises e, st') => (Raises (upload_except e), st')
        end
  end.

Record Source := { source_rank : nat; source_text : str; relevance_score : scalar }.

Record ChatResponse := {
  response_question : str;
  answer : str;
  sources : list Source
}.

(** One entry of [sources]:
    [chunk["text"][:200] + "..." if len(chunk["text"]) > 200 else chunk["text"]]. *)
Definition source_of (chunk : Retrieved scalar) : Source :=
  {| source_rank := rank chunk;
     source_text := if 200 <? length (text chunk)
                    then firstn 200 (text chunk) ++ lit "..."
                    else text chunk;
     relevance_score := relevance (distance chunk) |}.

(** The [try] block of [chat].  [search_faiss] calls the provider once
    when the module is ready. *)
Definition chat_body (provider : Provider) (model : Model) (request : ChatRequest)
    (st : State) : Response ChatResponse * State :=
  let n := if is_ready (globals st) then S (embed_calls st) else embed_calls st in
  match search_faiss sq_l2 scalar_leb no_hit_distance (globals st)
          (provider (embed_calls st) retrieval_query)
          (question request) (top_k request) with
  | Raise e =>
      (Raises (Library e),
       {| globals := globals st; embed_calls := n;
          generate_calls := generate_calls st |})
  | Ok [] =>
      (Returns {| response_question := question request;
                  answer := nothing_relevant;
                  sources := [] |},
       {| globals := globals st; embed_calls := n;
          generate_calls := generate_calls st |})
  | Ok retrieved_chunks =>
      match generate_answer model (question request) retrieved_chunks
              (generate_calls st) with
      | (Raise e, m) =>
          (Raises (Library e),
           {| globals := globals st; embed_calls := n; generate_calls := m |})
      | (Ok answer_text, m) =>
          (Returns {| response_question := question request;
                      answer := answer_text;
                      sources := map source_of retrieved_chunks |},
           {| globals := globals st; embed_calls := n; generate_calls := m |})
      end
  end.

(** [chat]: the two checks, then the [try] block under
    [except Exception as e]. *)
Definition chat (provider : Provider) (model : Model) (request : ChatRequest)
    (st : State) : Response ChatResponse * State :=
  if negb (is_ready (globals st))
  then (Raises (HTTPException 400 (Text upload_first)), st)
  else if match question request with [] => true | _ => false end
          || (length (strip (question request)) <? 3)
  then (Raises (HTTPException 400 (Text question_too_short)), st)
  else
    match chat_body provider model request st with
    | (Returns r, st') => (Returns r, st')
    | (Raises e, st') => (Raises (HTTPException 500 (StrOf e)), st')
    end.

(** The module as imported: no index, no chunks, not ready. *)
Definition started : State :=
  {| globals := {| faiss_index := None; text_chunks := None; is_ready := false |};
     embed_calls := 0;
     generate_calls := 0 |}.

(** The states of the module: as imported, or after a request to one of
    the two endpoints, answered or not, or after the services were called
    from elsewhere. *)
Inductive reachable : State -> Prop :=
| reachable_started : reachable started
| reachable_elsewhere st n m :
    reachable st ->
    reachable {| globals := globals st; embed_calls := n; generate_calls := m |}
| reachable_upload provider file st r st' :
    reachable st ->
    upload_file provider file st = (r, st') ->
    reachable st'
| reachable_chat provider model request st r st' :
    reachable st ->
    chat provider model request st = (r, st') ->
    reachable st'.

End Endpoints.

Arguments Provider scalar : clear implicits.
Arguments State scalar : clear implicits.
Arguments globals {scalar} _.
Arguments embed_calls {scalar} _.
Arguments generate_calls {scalar} _.
Arguments Build_State {scalar} _ _ _.
Arguments for_texts {scalar} provider texts n embeddings.
Arguments generate_embeddings {scalar} provider texts n.
Arguments generate_answer {scalar} model query context_chunks n.
Arguments root {scalar} st.
Arguments with_text_chunks {scalar} st l n.
Arguments upload_body {scalar} provider file name st.
Arguments upload_file {scalar} provider file st.
Arguments Source scalar : clear implicits.
Arguments source_rank {scalar} _.
Arguments source_text {scalar} _.
Arguments relevance_score {scalar} _.
Arguments Build_Source {scalar} _ _ _.
Arguments ChatResponse scalar : clear implicits.
Arguments response_question {scalar} _.
Arguments answer {scalar} _.
Arguments sources {scalar} _.
Arguments Build_ChatResponse {scalar} _ _ _.
Arguments source_of {scalar} relevance chunk.
Arguments chat_body {scalar} sq_l2 scalar_leb no_hit_distance relevance provider model request st.
Arguments chat {scalar} sq_l2 scalar_leb no_hit_distance relevance provider model request st.
Arguments started {scalar}.
Arguments reachable {scalar} sq_l2 scalar_leb no_hit_distance relevance _.

End Rag.

(* ================================================================== *)
(** * Setting up the agent: [setup_agent], [lifespan] and the health check *)
(* ================================================================== *)

Section AgentSetup.

Variable scalar : Type.
(** The chat service and the agent of Semantic Kernel. *)
Variable chat_service : Type.
Variable agent : Type.

(** What the calls to Semantic Kernel and to the file system give during
    one run of [setup_agent]. *)
Record Libraries := {
  GoogleAITextEmbedding : Result (EmbeddingService scalar);
  GoogleAIChatCompletion : Result chat_service;
  add_embedding_service : Result unit;    (* [kernel.add_service(embedding_service)] *)
  add_chat_service : Result unit;         (* [kernel.add_service(chat_service)] *)
  makedirs : Result unit;                 (* in the constructor of the retriever *)
  system_prompt_md : file str;
  ChatCompletionAgent : chat_service -> str -> Result agent;
  register_plugins : Result unit          (* the three registrations of tools *)
}.

(** The two globals of [agent_setup.py], with the files and the number of
    calls to the embedding service. *)
Record AppGlobals := {
  process : Process scalar;
  embedding_service_global : option (EmbeddingService scalar)
}.

Definition load_system_prompt (prompt_file : file str) : Result str :=
  match read_text prompt_file with
  | Ok system_prompt => Ok system_prompt
  | Raise e => Raise e
  end.

Definition with_embedding_service (g : AppGlobals)
    (svc : EmbeddingService scalar) : AppGlobals :=
  {| process := process g; embedding_service_global := Some svc |}.

(** [setup_agent]: every [try] block prints and raises again.  The global
    [faiss_retriever] names the retriever as soon as it is constructed,
    and sees what [initialize] does to it. *)
Definition setup_agent (lib : Libraries) (g : AppGlobals)
  : Result agent * AppGlobals * list message :=
  match GoogleAITextEmbedding lib with
  | Raise e => (Raise e, g, [])
  | Ok svc =>
      let g1 := with_embedding_service g svc in
      match GoogleAIChatCompletion lib with
      | Raise e => (Raise e, g1, [])
      | Ok chat =>
          match add_embedding_service lib with
          | Raise e => (Raise e, g1, [])
          | Ok _ =>
              match add_chat_service lib with
              | Raise e => (Raise e, g1, [])
              | Ok _ =>
                  match makedirs lib with
                  | Raise e => (Raise e, g1, [])
                  | Ok _ =>
                      let '(r, w, out) :=
                        initialize {| self := __init__ (Some svc);
                                      disk := p_disk (process g);
                                      calls := p_calls (process g) |} in
                      let g2 :=
                        {| process := {| faiss_retriever := Some (self w);
                                         p_disk := disk w;
                                         p_calls := calls w |};
                           embedding_service_global := Some svc |} in
                      match r with
                      | Raise e => (Raise e, g2, out)
                      | Ok _ =>
                          match load_system_prompt (system_prompt_md lib) with
                          | Raise e => (Raise e, g2, out)
                          | Ok system_prompt =>
                              match ChatCompletionAgent lib chat system_prompt with
                              | Raise e => (Raise e, g2, out)
                              | Ok a =>
                                  match register_plugins lib with
                                  | Raise e => (Raise e, g2, out)
                                  | Ok _ => (Ok a, g2, out)
                                  end
                              end
                          end
                      end
                  end
              end
          end
      end
  end.

(** The start of [lifespan] in [main.py]: [app.state.agent] afterwards. *)
Definition lifespan (lib : Libraries) (g : AppGlobals)
  : option agent * AppGlobals * list message :=
  match setup_agent lib g with
  | (Ok agent_instance, g', out) => (Some agent_instance, g', out)
  | (Raise _, g', out) => (None, g', out)
  end.

(** What [health_check] returns, without its constant entries. *)
Record Health := {
  agent_initialized : bool;
  semantic_kernel : bool;
  rag_index : str
}.

Definition health_check (app_state_agent : option agent) : Health :=
  let agent_status := match app_state_agent with Some _ => true | None => false end in
  {| agent_initialized := agent_status;
     semantic_kernel := agent_status;
     rag_index := if agent_status then lit "ready" else lit "not_loaded" |}.

End AgentSetup.

Arguments Libraries scalar chat_service agent : clear implicits.
Arguments GoogleAITextEmbedding {scalar chat_service agent} _.
Arguments GoogleAIChatCompletion {scalar chat_service agent} _.
Arguments add_embedding_service {scalar chat_service agent} _.
Arguments add_chat_service {scalar chat_service agent} _.
Arguments makedirs {scalar chat_service agent} _.
Arguments system_prompt_md {scalar chat_service agent} _.
Arguments ChatCompletionAgent {scalar chat_service agent} _ _ _.
Arguments register_plugins {scalar chat_service agent} _.
Arguments Build_Libraries {scalar chat_service agent} _ _ _ _ _ _ _ _.
Arguments AppGlobals scalar : clear implicits.
Arguments process {scalar} _.
Arguments embedding_service_global {scalar} _.
Arguments Build_AppGlobals {scalar} _ _.
Arguments with_embedding_service {scalar} g svc.
Arguments setup_agent {scalar chat_service agent} lib g.
Arguments lifespan {scalar chat_service agent} lib g.
Arguments health_check {agent} app_state_agent.

(* ================================================================== *)
(** * A tool of the agent: [request_password_reset] of [native_functions.py] *)
(* ================================================================== *)

Definition invalid_email : str :=
  lit "Invalid email address format provided. Please provide a valid email.".

Definition reset_link_sent (email : str) : str :=
  lit "A password reset link has been successfully sent to " ++ email ++
  lit ". Please check your inbox.".

Definition request_password_reset (email : str) : str :=
  if match email with [] => true | _ => false end
     || negb (contains (lit "@") email)
     || negb (contains (lit ".") email)
  then invalid_email
  else reset_link_sent email.

(* ================================================================== *)
(** * More concrete scenarios *)
(* ================================================================== *)

Module Cases.

(** A retriever marked initialized that holds an index and no chunk. *)
Definition index_without_chunks : World Z :=
  {| self := {| embedding_service := Some Scenario.stub;
                index := Some Scenario.stale_index;
                chunks_with_content := [];
                _initialized := true |};
     disk := {| index_file := Absent; text_file := Absent;
                knowledge_file := Absent |};
     calls := 0 |}.

(** A retriever that holds another index and other chunks, beside other
    artifact files. *)
Definition stale (knowledge : file str) : World Z :=
  {| self := {| embedding_service := Some Scenario.stub;
                index := Some Scenario.stale_index;
                chunks_with_content := Scenario.three_chunks;
                _initialized := true |};
     disk := {| index_file := Holds Scenario.stale_index;
                text_file := Holds (lit "old");
                knowledge_file := knowledge |};
     calls := 0 |}.

(** A query that holds a lone surrogate, U+DC80. *)
Definition lone_surrogate : str := [56448%N].

(** The disk is full when the text file is written: [open] has made an
    empty file, the write raises. *)
Definition disk_full : Strict.Faults Z :=
  {| Strict.on_write_index := None;
     Strict.on_write_text := Some (OSError, Holds []) |}.

(** The world a build leaves when the writes are as given. *)
Definition after_strict_build (faults : Strict.Faults Z) (w : World Z) : World Z :=
  let '(_, w', _) := Strict.build faults w in w'.

(** An embedding provider for [rag.py]: a text goes to the one-component
    vector of its number of characters. *)
Definition provider : Rag.Provider Z :=
  fun _ _ t => Ok [Z.of_nat (length t)].

Definition provider_down : Rag.Provider Z :=
  fun _ _ _ => Raise ProviderError.

(** A model that answers every prompt with the same text. *)
Definition model : nat -> str -> Result str :=
  fun _ _ => Ok (lit "Visit /reset.").

(** Relevance in thousandths: [1000 / (1 + distance)] rounded down. *)
Definition relevance (distance : Z) : Z := (1000 / (1 + distance))%Z.

Definition upload (name : str) (text : str) : Rag.UploadFile :=
  {| Rag.filename := Some name; Rag.content := Some text |}.

Definition knowledge_txt : Rag.UploadFile :=
  upload (lit "knowledge.txt") Scenario.corpus.

Definition other_txt : Rag.UploadFile :=
  upload (lit "other.txt")
    (lit "one" ++ [LF; LF] ++ lit "two" ++ [LF; LF] ++ lit "three").

Definition short_txt : Rag.UploadFile := upload (lit "short.txt") (lit "too short").

Definition after_upload (p : Rag.Provider Z) (f : Rag.UploadFile)
    (st : Rag.State Z) : Rag.State Z :=
  snd (Rag.upload_file p f st).

(** The module after the corpus was uploaded. *)
Definition uploaded : Rag.State Z := after_upload provider knowledge_txt Rag.started.

(** And after a second file was sent while the provider was down. *)
Definition failed_reupload : Rag.State Z :=
  after_upload provider_down other_txt uploaded.

Definition ask (q : str) (k : Z) : Rag.ChatRequest :=
  {| Rag.question := q; Rag.top_k := k |}.

(** Semantic Kernel with every call succeeding; the agent is the system
    prompt it was given. *)
Definition working : Libraries Z unit str :=
  {| GoogleAITextEmbedding := Ok Scenario.stub;
     GoogleAIChatCompletion := Ok tt;
     add_embedding_service := Ok tt;
     add_chat_service := Ok tt;
     makedirs := Ok tt;
     system_prompt_md := Holds (lit "You are a support agent.");
     ChatCompletionAgent := fun _ instructions => Ok instructions;
     register_plugins := Ok tt |}.

(** The process as started: no retriever yet, no artifact, and the files
    of the knowledge base as given. *)
Definition at_startup (knowledge : file str) : AppGlobals Z :=
  {| process := {| faiss_retriever := None;
                   p_disk := {| index_file := Absent; text_file := Absent;
                                knowledge_file := knowledge |};
                   p_calls := 0 |};
     embedding_service_global := None |}.

End Cases.

(* ================================================================== *)
(** * Facts about the string operations *)
(* ================================================================== *)

Section StripFacts.

Lemma lstrip_suffix (s : str) :
  exists a, s = a ++ lstrip s /\ blank a = true.
Proof.
  induction s as [|c t [a [E B]]]; simpl.
  - exists []. auto.
  - destruct (isspace c) eqn:W.
    + exists (c :: a). simpl. rewrite W, B. split; [f_equal; exact E | reflexivity].
    + exists []. auto.
Qed.

Lemma lstrip_head (s : str) c t : lstrip s = c :: t -> isspace c = false.
Proof.
  induction s as [|x u IH]; simpl; [discriminate|].
  destruct (isspace x) eqn:W; [exact IH|].
  intros E. injection E as -> _. exact W.
Qed.

Lemma lstrip_blank (s : str) : blank s = true -> lstrip s = [].
Proof.
  induction s as [|c t IH]; simpl; [reflexivity|].
  intros B. apply andb_prop in B as [W B]. rewrite W. auto.
Qed.

Lemma lstrip_fixed (s : str) c t : s = c :: t -> isspace c = false -> lstrip s = s.
Proof. intros -> W. simpl. rewrite W. reflexivity. Qed.

Lemma blank_app (a b : str) : blank (a ++ b) = blank a && blank b.
Proof. apply forallb_app. Qed.

Lemma blank_rev (a : str) : blank (rev a) = blank a.
Proof.
  induction a as [|c t IH]; simpl; [reflexivity|].
  rewrite blank_app, IH. simpl. rewrite andb_true_r. apply andb_comm.
Qed.

Lemma rstrip_prefix (s : str) :
  exists b, s = rstrip s ++ b /\ blank b = true.
Proof.
  unfold rstrip. destruct (lstrip_suffix (rev s)) as [a [E B]].
  exists (rev a). split.
  - rewrite <- rev_app_distr, <- E. symmetry. apply rev_involutive.
  - rewrite blank_rev. exact B.
Qed.

Lemma rstrip_last (s : str) c t : rstrip s = t ++ [c] -> isspace c = false.
Proof.
  unfold rstrip. intros E.
  apply (f_equal (@rev char)) in E. rewrite rev_involutive, rev_unit in E.
  exact (lstrip_head _ _ _ E).
Qed.

Lemma strip_blank (s : str) : blank s = true -> strip s = [].
Proof. intros B. unfold strip. rewrite (lstrip_blank _ B). reflexivity. Qed.

Lemma strip_nil_blank (s : str) : strip s = [] -> blank s = true.
Proof.
  unfold strip. intros E.
  destruct (rstrip_prefix (lstrip s)) as [b [Eb Bb]].
  rewrite E in Eb. simpl in Eb.
  destruct (lstrip_suffix s) as [a [Ea Ba]].
  destruct (lstrip s) as [|c t] eqn:L.
  - rewrite app_nil_r in Ea. subst a. exact Ba.
  - pose proof (lstrip_head _ _ _ L) as W.
    subst b. simpl in Bb. rewrite W in Bb. discriminate.
Qed.

Lemma strip_nil_iff (s : str) : strip s = [] <-> blank s = true.
Proof. split; [apply strip_nil_blank | apply strip_blank]. Qed.

Lemma strip_trimmed (s : str) : strip s <> [] -> trimmed (strip s).
Proof.
  intros NE. split; [exact NE|]. split.
  - intros c t E. unfold strip in *.
    destruct (rstrip_prefix (lstrip s)) as [b [Eb _]].
    rewrite E in Eb. simpl in Eb. exact (lstrip_head _ _ _ Eb).
  - intros c t E. exact (rstrip_last _ _ _ E).
Qed.

Lemma strip_fixed (s : str) : trimmed s -> strip s = s.
Proof.
  intros [NE [Hh Hl]]. unfold strip.
  destruct s as [|c t]; [contradiction|].
  rewrite (lstrip_fixed _ _ _ eq_refl (Hh _ _ eq_refl)).
  unfold rstrip.
  destruct (exists_last (l := c :: t)) as [u [x E]]; [discriminate|].
  rewrite E, rev_unit.
  rewrite (lstrip_fixed _ _ _ eq_refl (Hl _ _ E)).
  rewrite <- rev_unit. apply rev_involutive.
Qed.

Lemma lstrip_Forall (P : char -> Prop) (s : str) : Forall P s -> Forall P (lstrip s).
Proof.
  induction 1 as [|c t Hc Ht IH]; simpl; [constructor|].
  destruct (isspace c); [exact IH | constructor; assumption].
Qed.

Lemma strip_Forall (P : char -> Prop) (s : str) : Forall P s -> Forall P (strip s).
Proof.
  intros H. unfold strip, rstrip.
  apply Forall_rev, lstrip_Forall, Forall_rev, lstrip_Forall, H.
Qed.

Lemma lstrip_app_blank (a s : str) : blank a = true -> lstrip (a ++ s) = lstrip s.
Proof.
  induction a as [|c a IH]; simpl; [reflexivity|].
  intros B. apply andb_prop in B as [W B]. rewrite W. auto.
Qed.

Lemma strip_decompose (p : str) :
  exists a b, p = a ++ strip p ++ b /\ blank a = true /\ blank b = true.
Proof.
  destruct (lstrip_suffix p) as [a [Ea Ba]].
  destruct (rstrip_prefix (lstrip p)) as [b [Eb Bb]].
  exists a, b. unfold strip. rewrite <- Eb. auto.
Qed.

(** Trimming has one result. *)
Lemma trim_of_strip (p c : str) : trim_of p c -> c = strip p.
Proof.
  intros [[NE [Hh Hl]] [a [b [-> [Ba Bb]]]]].
  unfold strip. rewrite (lstrip_app_blank _ _ Ba).
  destruct c as [|x t]; [contradiction|].
  rewrite (lstrip_fixed ((x :: t) ++ b) x (t ++ b) eq_refl (Hh _ _ eq_refl)).
  unfold rstrip. rewrite rev_app_distr.
  rewrite (lstrip_app_blank (rev b) _) by (rewrite blank_rev; exact Bb).
  destruct (exists_last (l := x :: t)) as [u [y E]]; [discriminate|].
  rewrite E, rev_unit.
  rewrite (lstrip_fixed _ _ _ eq_refl (Hl _ _ E)).
  rewrite <- rev_unit. symmetry. apply rev_involutive.
Qed.

End StripFacts.

Section SplitFacts.

Lemma startswith_app (p r : str) : startswith p (p ++ r) = true.
Proof.
  induction p as [|a p IH]; simpl; [reflexivity|].
  rewrite N.eqb_refl. exact IH.
Qed.

Lemma startswith_true (p s : str) :
  startswith p s = true -> exists r, s = p ++ r.
Proof.
  revert s. induction p as [|a p IH]; intros s H.
  - exists s. reflexivity.
  - destruct s as [|b s]; simpl in H; [discriminate|].
    apply andb_prop in H as [Hab H]. apply N.eqb_eq in Hab. subst b.
    destruct (IH _ H) as [r ->]. exists r. reflexivity.
Qed.

Lemma split_from_nonempty (sep s : str) n cur : split_from sep s n cur <> [].
Proof.
  revert n cur. induction s as [|c t IH]; intros n cur; simpl; [discriminate|].
  destruct n; [|apply IH].
  destruct (startswith sep (c :: t)); [discriminate | apply IH].
Qed.

Lemma split_from_skip (sep x rest cur : str) :
  split_from sep (x ++ rest) (length x) cur = split_from sep rest 0 cur.
Proof. induction x as [|c x IH]; simpl; [reflexivity | exact IH]. Qed.

(** At an occurrence of the separator the current piece is closed. *)
Lemma split_from_match (c : char) (sep' rest cur : str) :
  split_from (c :: sep') ((c :: sep') ++ rest) 0 cur
  = rev cur :: split_from (c :: sep') rest 0 [].
Proof.
  change (split_from (c :: sep') ((c :: sep') ++ rest) 0 cur)
    with (if startswith (c :: sep') ((c :: sep') ++ rest)
          then rev cur :: split_from (c :: sep') (sep' ++ rest) (length (c :: sep') - 1) []
          else split_from (c :: sep') (sep' ++ rest) 0 (c :: cur)).
  rewrite startswith_app.
  replace (length (c :: sep') - 1) with (length sep') by (simpl; lia).
  rewrite split_from_skip. reflexivity.
Qed.

(** Where no suffix of [a] (followed by [rest]) starts with the separator,
    the whole of [a] goes into the current piece. *)
Lemma split_from_nomatch (sep a rest : str) :
  (forall a1 a2, a = a1 ++ a2 -> a2 <> [] -> startswith sep (a2 ++ rest) = false) ->
  forall cur, split_from sep (a ++ rest) 0 cur = split_from sep rest 0 (rev a ++ cur).
Proof.
  induction a as [|c a IH]; intros H cur; [reflexivity|].
  simpl app at 1.
  change (split_from sep (c :: a ++ rest) 0 cur)
    with (if startswith sep (c :: a ++ rest)
          then rev cur :: split_from sep (a ++ rest) (length sep - 1) []
          else split_from sep (a ++ rest) 0 (c :: cur)).
  pose proof (H [] (c :: a) eq_refl) as H0. simpl app in H0.
  rewrite H0 by discriminate.
  rewrite IH.
  - simpl rev. rewrite <- app_assoc. reflexivity.
  - intros a1 a2 E NE. apply (H (c :: a1) a2); [rewrite E; reflexivity | exact NE].
Qed.

Lemma split_from_Forall (P : char -> Prop) (sep s : str) :
  Forall P s -> forall n cur, Forall P cur ->
  Forall (Forall P) (split_from sep s n cur).
Proof.
  induction 1 as [|c t Hc Ht IH]; intros n cur Hcur; simpl.
  - constructor; [apply Forall_rev, Hcur | constructor].
  - destruct n; [|apply IH, Hcur].
    destruct (startswith sep (c :: t)).
    + constructor; [apply Forall_rev, Hcur | apply IH; constructor].
    + apply IH. constructor; assumption.
Qed.

Lemma split_Forall (P : char -> Prop) (s sep : str) :
  Forall P s -> Forall (Forall P) (split s sep).
Proof. intros H. apply split_from_Forall; [exact H | constructor]. Qed.

Lemma join_cons (sep x : str) (l : list str) :
  l <> [] -> join sep (x :: l) = x ++ sep ++ join sep l.
Proof. destruct l; [contradiction | reflexivity]. Qed.

(** The pieces of a split, joined again with the separator, are the text
    that was split. *)
Lemma join_split_from (c : char) (sep' s : str) :
  forall n cur, n <= length s ->
  join (c :: sep') (split_from (c :: sep') s n cur) = rev cur ++ skipn n s.
Proof.
  induction s as [|x t IH]; intros n cur Hn.
  - simpl in Hn. assert (n = 0) by lia. subst n.
    simpl. rewrite app_nil_r. reflexivity.
  - destruct n as [|n].
    + change (split_from (c :: sep') (x :: t) 0 cur)
        with (if startswith (c :: sep') (x :: t)
              then rev cur :: split_from (c :: sep') t (length (c :: sep') - 1) []
              else split_from (c :: sep') t 0 (x :: cur)).
      destruct (startswith (c :: sep') (x :: t)) eqn:E.
      * apply startswith_true in E as [r E].
        simpl in E. injection E as -> ->.
        rewrite join_cons by apply split_from_nonempty.
        rewrite IH by (simpl; rewrite length_app; lia).
        replace (length (c :: sep') - 1) with (length sep') by (simpl; lia).
        rewrite skipn_app, skipn_all, Nat.sub_diag. reflexivity.
      * rewrite IH by lia. simpl. rewrite <- app_assoc. reflexivity.
    + simpl. apply IH. simpl in Hn. lia.
Qed.

Lemma join_split (c : char) (sep' s : str) :
  join (c :: sep') (split s (c :: sep')) = s.
Proof. unfold split. rewrite join_split_from by lia. reflexivity. Qed.

(** [split] cuts at the leftmost occurrences, and is the only such cut. *)
Lemma split_from_splits_into (c : char) (sep' s : str) :
  forall n cur,
    n <= length s ->
    (forall a1 a2, rev cur = a1 ++ a2 -> a2 <> [] ->
       startswith (c :: sep') (a2 ++ skipn n s) = false) ->
    splits_into (c :: sep') (rev cur ++ skipn n s)
      (split_from (c :: sep') s n cur).
Proof.
  induction s as [|x t IH]; intros n cur Hn I.
  - simpl in Hn. assert (n = 0) by lia. subst n. simpl. rewrite app_nil_r.
    apply splits_last. intros a1 a2 E NE.
    specialize (I a1 a2 E NE). simpl in I. rewrite app_nil_r in I. exact I.
  - destruct n as [|n].
    + change (split_from (c :: sep') (x :: t) 0 cur)
        with (if startswith (c :: sep') (x :: t)
              then rev cur :: split_from (c :: sep') t (length (c :: sep') - 1) []
              else split_from (c :: sep') t 0 (x :: cur)).
      simpl skipn in *.
      destruct (startswith (c :: sep') (x :: t)) eqn:E.
      * apply startswith_true in E as [r E].
        simpl in E. injection E as -> ->.
        replace (length (c :: sep') - 1) with (length sep') by (simpl; lia).
        change (c :: sep' ++ r) with ((c :: sep') ++ r).
        apply splits_cons; [exact I|].
        pose proof (IH (length sep') []) as H.
        rewrite skipn_app, skipn_all, Nat.sub_diag in H. simpl in H.
        apply H; [rewrite length_app; lia|].
        intros a1 a2 E NE. destruct a1; destruct a2; try discriminate.
        contradiction.
      * pose proof (IH 0 (x :: cur)) as H. simpl in H.
        rewrite <- app_assoc in H. apply H; [lia|].
        intros a1 a2 Ea NE.
        destruct a2 as [|y a2'] using rev_ind; [contradiction|]. clear IHa2'.
        rewrite app_assoc in Ea. apply app_inj_tail in Ea as [Ea <-].
        rewrite <- app_assoc. simpl.
        destruct a2' as [|z a2'']; [exact E|].
        apply (I a1 (z :: a2'')); [exact Ea | discriminate].
    + simpl. apply IH; [simpl in Hn; lia | exact I].
Qed.

Lemma split_splits_into (c : char) (sep' s : str) :
  splits_into (c :: sep') s (split s (c :: sep')).
Proof.
  apply (split_from_splits_into c sep' s 0 []); [lia|].
  intros a1 a2 E NE. destruct a1; destruct a2; try discriminate. contradiction.
Qed.

Lemma splits_into_unique (c : char) (sep' s : str) (ps : list str) :
  splits_into (c :: sep') s ps -> ps = split s (c :: sep').
Proof.
  induction 1 as [p H | p rest ps H _ IH]; unfold split.
  - rewrite <- (app_nil_r p) at 2. rewrite split_from_nomatch.
    + simpl. rewrite app_nil_r, rev_involutive. reflexivity.
    + intros a1 a2 E NE. rewrite app_nil_r. exact (H a1 a2 E NE).
  - rewrite split_from_nomatch by exact H.
    rewrite split_from_match, app_nil_r, rev_involutive.
    f_equal. exact IH.
Qed.

Lemma join_occurs (sep c : str) (l : list str) :
  In c l -> occurs c (join sep l).
Proof.
  induction l as [|x t IH]; [contradiction|].
  intros [-> | Hin].
  - destruct t as [|y t].
    + exists [], []. simpl. rewrite app_nil_r. reflexivity.
    + exists [], (sep ++ join sep (y :: t)). reflexivity.
  - destruct t as [|y t]; [contradiction|].
    destruct (IH Hin) as [a [b E]].
    exists (x ++ sep ++ a), b.
    rewrite join_cons by discriminate. rewrite E.
    rewrite <- !app_assoc. reflexivity.
Qed.

Lemma occurs_contains (p s : str) : occurs p s -> contains p s = true.
Proof.
  intros [a [b ->]].
  induction a as [|c a IH].
  - pose proof (startswith_app p b) as H. simpl app.
    destruct (p ++ b); simpl; rewrite H; reflexivity.
  - simpl. rewrite IH. apply orb_true_r.
Qed.

End SplitFacts.

(** A separator of the shape LF, marker, LF whose marker holds no LF, and
    chunks in which it cannot be found even when a LF is put after them:
    splitting the joined text gives the chunks back. *)
Section MarkerSeparator.

Variable m : str.
Hypothesis m_no_LF : ~ In LF m.

Let sep : str := LF :: m ++ [LF].

Lemma separable_nomatch (c rest a1 a2 : str) :
  (separable m) c ->
  rest = [] \/ (exists r, rest = LF :: r) ->
  c = a1 ++ a2 -> a2 <> [] ->
  startswith sep (a2 ++ rest) = false.
Proof.
  intros Hc Hrest Ec NE.
  destruct (startswith sep (a2 ++ rest)) eqn:E; [exfalso | reflexivity].
  apply startswith_true in E as [r' E].
  apply app_eq_app in E as [l [[E1 E2] | [E1 E2]]].
  - apply Hc. exists a1, (l ++ [LF]).
    rewrite Ec, E1. rewrite <- !app_assoc. reflexivity.
  - destruct l as [|x l'].
    + rewrite app_nil_r in E1. apply Hc. exists a1, [LF].
      rewrite Ec, <- E1. rewrite <- app_assoc. reflexivity.
    + assert (x = LF) as ->.
      { destruct Hrest as [-> | [r ->]]; [discriminate|].
        injection E2 as E2 _. symmetry. exact E2. }
      destruct a2 as [|y a2']; [contradiction|].
      unfold sep in E1. simpl in E1. injection E1 as Ey E1. subst y.
      destruct l' as [|z l''] using rev_ind.
      * apply app_inj_tail in E1 as [E1 _]. subst a2'.
        apply Hc. exists a1, []. rewrite Ec, app_nil_r.
        rewrite <- app_assoc. reflexivity.
      * clear IHl''.
        change (a2' ++ LF :: l'' ++ [z]) with (a2' ++ (LF :: l'') ++ [z]) in E1.
        rewrite app_assoc in E1.
        apply app_inj_tail in E1 as [E1 _].
        apply m_no_LF. rewrite E1. apply in_elt.
Qed.

Lemma split_join (l : list str) :
  l <> [] -> Forall (separable m) l -> split (join sep l) sep = l.
Proof.
  induction l as [|c t IH]; intros NE H; [contradiction|].
  inversion H as [|? ? Hc Ht]; subst.
  destruct t as [|c' t'].
  - simpl join. unfold split.
    rewrite <- (app_nil_r c) at 1.
    rewrite split_from_nomatch.
    + simpl. rewrite app_nil_r, rev_involutive. reflexivity.
    + intros a1 a2. apply separable_nomatch; [exact Hc | left; reflexivity].
  - rewrite join_cons by discriminate. unfold split.
    rewrite split_from_nomatch.
    + unfold sep at 1 2. rewrite split_from_match.
      rewrite app_nil_r, rev_involutive. f_equal.
      apply IH; [discriminate | exact Ht].
    + intros a1 a2. apply separable_nomatch; [exact Hc | right].
      eexists. reflexivity.
Qed.

End MarkerSeparator.

Section NewlineFacts.

Lemma translate_newlines_no_CR (s : str) (b : bool) : no_CR (translate_newlines s b).
Proof.
  revert b. induction s as [|c t IH]; intros b; simpl; [constructor|].
  destruct (N.eqb_spec c CR) as [E | NE].
  - constructor; [discriminate | apply IH].
  - destruct ((c =? LF)%N && b); [apply IH | constructor; [exact NE | apply IH]].
Qed.

Lemma translate_newlines_fixed (s : str) :
  no_CR s -> translate_newlines s false = s.
Proof.
  induction 1 as [|c t Hc Ht IH]; simpl; [reflexivity|].
  destruct (N.eqb_spec c CR) as [E | NE]; [contradiction|].
  rewrite andb_false_r, IH. reflexivity.
Qed.

Lemma join_Forall (P : char -> Prop) (sep : str) (l : list str) :
  Forall P sep -> Forall (Forall P) l -> Forall P (join sep l).
Proof.
  intros Hs. induction 1 as [|x t Hx Ht IH]; [constructor|].
  destruct t as [|y t]; [exact Hx|].
  rewrite join_cons by discriminate.
  apply Forall_app; split; [exact Hx|].
  apply Forall_app; split; [exact Hs | exact IH].
Qed.

End NewlineFacts.

Section ComprehensionFacts.

(** The comprehension keeps the paragraphs that are not blank, trimmed, in
    their order. *)
Lemma strip_nonempty_filter (l : list str) :
  strip_nonempty l = map strip (filter (fun p => negb (blank p)) l).
Proof.
  induction l as [|p l IH]; simpl; [reflexivity|].
  destruct (strip p) as [|c t] eqn:E.
  - rewrite (strip_nil_blank _ E). simpl. exact IH.
  - destruct (blank p) eqn:B.
    + rewrite (strip_blank _ B) in E. discriminate.
    + simpl. rewrite E, IH. reflexivity.
Qed.

Lemma strip_nonempty_trimmed (l : list str) : Forall trimmed (strip_nonempty l).
Proof.
  induction l as [|p l IH]; simpl; [constructor|].
  destruct (strip p) as [|c t] eqn:E; [exact IH|].
  constructor; [|exact IH].
  rewrite <- E. apply strip_trimmed. rewrite E. discriminate.
Qed.

Lemma strip_nonempty_fixed (l : list str) :
  Forall trimmed l -> strip_nonempty l = l.
Proof.
  induction 1 as [|p l Hp Hl IH]; simpl; [reflexivity|].
  rewrite (strip_fixed _ Hp), IH.
  destruct p; [destruct Hp as [NE _]; contradiction | reflexivity].
Qed.

Lemma strip_nonempty_Forall (P : char -> Prop) (l : list str) :
  Forall (Forall P) l -> Forall (Forall P) (strip_nonempty l).
Proof.
  induction 1 as [|p l Hp Hl IH]; simpl; [constructor|].
  pose proof (strip_Forall P p Hp) as Hs.
  destruct (strip p); [exact IH | constructor; assumption].
Qed.

Lemma strip_nonempty_trim_of (l : list str) :
  Forall2 trim_of (filter (fun p => negb (blank p)) l) (strip_nonempty l).
Proof.
  induction l as [|p l IH]; simpl; [constructor|].
  destruct (strip p) as [|c t] eqn:E.
  - rewrite (strip_nil_blank _ E). simpl. exact IH.
  - destruct (blank p) eqn:B.
    + rewrite (strip_blank _ B) in E. discriminate.
    + simpl. constructor; [|exact IH].
      rewrite <- E. split.
      * apply strip_trimmed. rewrite E. discriminate.
      * apply strip_decompose.
Qed.

End ComprehensionFacts.

(* ================================================================== *)
(** * Facts about the methods *)
(* ================================================================== *)

Section MethodFacts.

Variable scalar : Type.
Variable sq_l2 : list scalar -> list scalar -> scalar.
Variable scalar_leb : scalar -> scalar -> bool.
Variable no_hit_distance : scalar.

Local Abbreviation World := (World scalar).

Lemma np_array_Ok (embeddings a : list (vector scalar)) :
  np_array embeddings = Ok a -> a = embeddings.
Proof.
  unfold np_array. destruct embeddings as [|r rest]; [congruence|].
  intros H. destruct (forallb (fun r' => length r' =? length r) rest); congruence.
Qed.

Lemma save_eq (w : World) :
  save w =
  match index (self w) with
  | None => (Ok tt, w, [IndexNotBuilt])
  | Some i =>
      (Ok tt,
       {| self := self w;
          disk := saved_disk (disk w) i (chunks_with_content (self w));
          calls := calls w |},
       [SavingIndex; IndexSaved])
  end.
Proof.
  destruct w as [[svc [i|] cs ini] dk c]; reflexivity.
Qed.

(** [build] returns, in one of its five ways. *)
Lemma build_cases (w : World) :
  exists w' out, build w = (Ok tt, w', out) /\ build_case w w' out.
Proof.
  destruct w as [[osvc idx cs ini] dk c].
  destruct osvc as [svc|].
  2:{ eexists _, _. split; [reflexivity|]. apply build_no_service; reflexivity. }
  destruct (read_text (knowledge_file dk)) as [content|e] eqn:Eread.
  2:{ eexists _, _. split.
      - unfold build, build_body, try_except, bind, get_self, get_disk, lift.
        simpl. rewrite Eread. reflexivity.
      - eapply build_corpus_unreadable; simpl. all: eauto. }
  destruct (corpus_chunks content) as [|c0 cs0] eqn:Echunks.
  { eexists _, _. split.
    - unfold build, build_body, try_except, bind, get_self, get_disk, lift,
        set_chunks_with_content, set_self, print.
      simpl. rewrite Eread. unfold corpus_chunks in Echunks. simpl.
      rewrite Echunks. reflexivity.
    - eapply build_corpus_empty; simpl. all: eauto. }
  assert (NE : corpus_chunks content <> []) by (rewrite Echunks; discriminate).
  destruct (svc c (corpus_chunks content)) as [embeddings|e] eqn:Esvc.
  2:{ eexists _, _. split.
      - unfold build, build_body, try_except, bind, get_self, get_disk, lift,
          set_chunks_with_content, set_self, print, generate_embeddings.
        simpl. rewrite Eread. unfold corpus_chunks in Echunks, Esvc. simpl.
        rewrite Echunks. simpl. rewrite Echunks in Esvc. rewrite Esvc.
        reflexivity.
      - eapply build_embedding_failed; simpl. all: eauto.
        all: rewrite Echunks; reflexivity. }
  destruct (np_array embeddings) as [a|e] eqn:Earr.
  2:{ eexists _, _. split.
      - unfold build, build_body, try_except, bind, get_self, get_disk, lift,
          set_chunks_with_content, set_self, print, generate_embeddings.
        simpl. rewrite Eread. unfold corpus_chunks in Echunks, Esvc. simpl.
        rewrite Echunks. simpl. rewrite Echunks in Esvc. rewrite Esvc.
        rewrite Earr. reflexivity.
      - eapply build_embedding_failed; simpl. all: eauto.
        all: rewrite Echunks; reflexivity. }
  pose proof (np_array_Ok _ _ Earr) as ->.
  destruct (shape_1 embeddings) as [dim|e] eqn:Eshape.
  2:{ eexists _, _. split.
      - unfold build, build_body, try_except, bind, get_self, get_disk, lift,
          set_chunks_with_content, set_self, print, generate_embeddings.
        simpl. rewrite Eread. unfold corpus_chunks in Echunks, Esvc. simpl.
        rewrite Echunks. simpl. rewrite Echunks in Esvc. rewrite Esvc.
        rewrite Earr. rewrite Eshape. reflexivity.
      - eapply build_embedding_failed; simpl. all: eauto.
        all: rewrite Echunks; reflexivity. }
  eexists _, _. split.
  - unfold build, build_body, try_except, bind, get_self, get_disk, lift,
      set_chunks_with_content, set_self, print, generate_embeddings.
    simpl. rewrite Eread. unfold corpus_chunks in Echunks, Esvc. simpl.
    rewrite Echunks. simpl. rewrite Echunks in Esvc. rewrite Esvc.
    rewrite Earr. rewrite Eshape. reflexivity.
  - eapply build_done; simpl. all: eauto.
    all: rewrite Echunks; reflexivity.
Qed.

Lemma load_body_cases (w : World) :
  (exists i content,
      read_index (index_file (disk w)) = Ok i /\
      read_text (text_file (disk w)) = Ok content /\
      artifact_chunks content <> [] /\
      length (artifact_chunks content) = ntotal i /\
      load_body w =
        (Ok tt,
         with_self w (with_chunks (with_index (self w) (Some i)) (artifact_chunks content)),
         [IndexLoaded (Some (ntotal i)) (length (artifact_chunks content))]))
  \/
  (exists e w1, load_failure w w1 e /\ load_body w = (Raise e, w1, [])).
Proof.
  destruct w as [[osvc idx cs ini] dk c].
  destruct (read_index (index_file dk)) as [i|e] eqn:Eidx.
  2:{ right. exists e, {| self := Build_FaissRetriever osvc idx cs ini; disk := dk; calls := c |}.
      split; [apply load_index_unreadable; [exact Eidx | reflexivity]|].
      unfold load_body, bind, get_disk, lift. simpl. rewrite Eidx. reflexivity. }
  destruct (read_text (text_file dk)) as [content|e] eqn:Etxt.
  2:{ right. eexists e, _. split.
      - eapply load_text_unreadable; simpl. all: eauto.
      - unfold load_body, bind, get_disk, get_self, set_index, set_self, lift.
        simpl. rewrite Eidx. simpl. rewrite Etxt. reflexivity. }
  destruct (artifact_chunks content) as [|c0 cs0] eqn:Echunks.
  { right. eexists ValueError, _. split.
    - eapply load_mismatch; simpl. all: eauto.
      all: try (rewrite Echunks; reflexivity).
    - unfold load_body, bind, get_disk, get_self, set_index, set_self, lift,
        set_chunks_with_content, raise.
      simpl. rewrite Eidx. simpl. rewrite Etxt. simpl.
      unfold artifact_chunks in *. rewrite Echunks. reflexivity. }
  destruct (length (c0 :: cs0) =? ntotal i) eqn:Elen.
  - left. exists i, content. apply Nat.eqb_eq in Elen as Elen'.
    repeat split; try assumption.
    + rewrite Echunks. discriminate.
    + rewrite Echunks. exact Elen'.
    + unfold load_body, bind, get_disk, get_self, set_index, set_self, lift,
        set_chunks_with_content, raise, print.
      simpl. rewrite Eidx. simpl. rewrite Etxt. simpl.
      unfold artifact_chunks in *. rewrite Echunks.
      simpl chunks_with_content. cbv iota beta. simpl index.
      rewrite Elen. reflexivity.
  - right. eexists ValueError, _. split.
    + eapply load_mismatch; simpl. all: eauto.
      all: try (rewrite Echunks; reflexivity).
      right. rewrite Echunks. apply Nat.eqb_neq. exact Elen.
    + unfold load_body, bind, get_disk, get_self, set_index, set_self, lift,
        set_chunks_with_content, raise, print.
      simpl. rewrite Eidx. simpl. rewrite Etxt. simpl.
      unfold artifact_chunks in *. rewrite Echunks.
      simpl chunks_with_content. cbv iota beta. simpl index.
      rewrite Elen. reflexivity.
Qed.

(** [load] returns: the artifact is loaded, or the index is rebuilt. *)
Lemma load_cases (w : World) :
  exists w' out, load w = (Ok tt, w', out) /\ load_case w w' out.
Proof.
  destruct (load_body_cases w) as [[i [content [Ei [Et [NE [Len E]]]]]] | [e [w1 [F E]]]].
  - eexists _, _. split.
    + unfold load, try_except. rewrite E. reflexivity.
    + eapply load_done; eauto.
  - destruct (build_cases w1) as [w' [out1 [Eb Cb]]].
    exists w', (ErrorLoading e :: WillRebuild :: out1). split.
    + unfold load, try_except. rewrite E.
      unfold bind, print. rewrite Eb. reflexivity.
    + eapply load_rebuild; eauto.
Qed.

(** [initialize] returns, and the retriever is then marked initialized. *)
Lemma initialize_cases (w : World) :
  exists w' out, initialize w = (Ok tt, w', out) /\
    _initialized (self w') = true /\
    ((_initialized (self w) = true /\ w' = w /\ out = []) \/
     (_initialized (self w) = false /\
      exists w1 out1,
        w' = with_self w1 (with_initialized (self w1) true) /\
        ((exists_ (index_file (disk w)) && exists_ (text_file (disk w)) = true /\
          load w = (Ok tt, w1, out1) /\ load_case w w1 out1 /\
          out = LoadingExistingIndex :: out1) \/
         (exists_ (index_file (disk w)) && exists_ (text_file (disk w)) = false /\
          build w = (Ok tt, w1, out1) /\ build_case w w1 out1 /\
          out = NoIndexFound :: out1)))).
Proof.
  destruct (_initialized (self w)) eqn:Eini.
  - exists w, []. split; [|split; [exact Eini | left; auto]].
    unfold initialize, bind, get_self. simpl. rewrite Eini. reflexivity.
  - destruct (exists_ (index_file (disk w)) && exists_ (text_file (disk w))) eqn:Eex.
    + destruct (load_cases w) as [w1 [out1 [El Cl]]].
      exists (with_self w1 (with_initialized (self w1) true)), (LoadingExistingIndex :: out1).
      split; [|split; [reflexivity|]].
      * unfold initialize, bind, get_self, get_disk. simpl. rewrite Eini, Eex.
        unfold print. rewrite El. simpl. rewrite app_nil_r. reflexivity.
      * right. split; [reflexivity|]. exists w1, out1. split; [reflexivity|].
        left. auto.
    + destruct (build_cases w) as [w1 [out1 [Eb Cb]]].
      exists (with_self w1 (with_initialized (self w1) true)), (NoIndexFound :: out1).
      split; [|split; [reflexivity|]].
      * unfold initialize, bind, get_self, get_disk. simpl. rewrite Eini, Eex.
        unfold print. rewrite Eb. simpl. rewrite app_nil_r. reflexivity.
      * right. split; [reflexivity|]. exists w1, out1. split; [reflexivity|].
        right. auto.
Qed.

(** *** What the ways of [build] and [load] leave behind *)

Lemma build_case_succeeded (w w' : World) (out : list message) :
  build_case w w' out -> build_succeeded out ->
  exists svc content embeddings dim,
    embedding_service (self w) = Some svc /\
    read_text (knowledge_file (disk w)) = Ok content /\
    corpus_chunks content <> [] /\
    svc (calls w) (corpus_chunks content) = Ok embeddings /\
    shape_1 embeddings = Ok dim /\
    index (self w') = Some {| d := dim; xb := embeddings |} /\
    chunks_with_content (self w') = corpus_chunks content /\
    disk w' = saved_disk (disk w) {| d := dim; xb := embeddings |} (corpus_chunks content).
Proof.
  unfold build_succeeded.
  intros [E _ ->|svc e _ _ _ ->|svc content _ _ _ _ ->|svc content e _ _ _ _ _ ->
         |svc content embeddings dim Es Er NE Eg Ea Esh -> ->] Hin.
  1-4: simpl in Hin; repeat (destruct Hin as [Hin|Hin]; [discriminate|]); contradiction.
  exists svc, content, embeddings, dim. simpl. auto 10.
Qed.

Lemma build_case_failed (w w' : World) (out : list message) :
  build_case w w' out -> ~ build_succeeded out ->
  index (self w') = index (self w) /\ disk w' = disk w.
Proof.
  unfold build_succeeded.
  intros [E -> _|svc e _ _ -> _|svc content _ _ _ -> _|svc content e _ _ _ _ -> _
         |svc content embeddings dim Es Er NE Eg Ea Esh _ ->] Hout.
  1-4: split; reflexivity.
  exfalso. apply Hout. simpl. auto 10.
Qed.

Lemma build_case_fields (w w' : World) (out : list message) :
  build_case w w' out ->
  embedding_service (self w') = embedding_service (self w) /\
  _initialized (self w') = _initialized (self w) /\
  knowledge_file (disk w') = knowledge_file (disk w).
Proof.
  intros [E -> _|svc e _ _ -> _|svc content _ _ _ -> _|svc content e _ _ _ _ -> _
         |svc content embeddings dim Es Er NE Eg Ea Esh -> _]; simpl; auto.
Qed.

Lemma build_case_chunks (w w' : World) (out : list message) :
  build_case w w' out ->
  chunks_with_content (self w') = chunks_with_content (self w) \/
  exists content, chunks_with_content (self w') = corpus_chunks content.
Proof.
  intros [E -> _|svc e _ _ -> _|svc content _ _ Ec -> _|svc content e _ _ _ _ -> _
         |svc content embeddings dim Es Er NE Eg Ea Esh -> _]; simpl; eauto.
Qed.

Lemma load_failure_fields (w w1 : World) (e : exn) :
  load_failure w w1 e ->
  embedding_service (self w1) = embedding_service (self w) /\
  _initialized (self w1) = _initialized (self w) /\
  disk w1 = disk w /\ calls w1 = calls w.
Proof.
  intros [_ ->|i _ _ ->|i content _ _ _ _ ->]; simpl; auto.
Qed.

Lemma load_failure_chunks (w w1 : World) (e : exn) :
  load_failure w w1 e ->
  chunks_with_content (self w1) = chunks_with_content (self w) \/
  exists content, chunks_with_content (self w1) = artifact_chunks content.
Proof.
  intros [_ ->|i _ _ ->|i content _ _ _ _ ->]; simpl; eauto.
Qed.

Lemma load_case_loaded (w w' : World) (out : list message) :
  load_case w w' out -> load_succeeded out ->
  exists i content,
    read_index (index_file (disk w)) = Ok i /\
    read_text (text_file (disk w)) = Ok content /\
    artifact_chunks content <> [] /\
    length (artifact_chunks content) = ntotal i /\
    w' = with_self w (with_chunks (with_index (self w) (Some i)) (artifact_chunks content)).
Proof.
  intros [i content Ei Et NE Len -> _|e w1 out1 F B ->] [n [m Hin]].
  - exists i, content. auto.
  - exfalso. simpl in Hin.
    destruct Hin as [Hin|[Hin|Hin]]; try discriminate.
    destruct B as [_ _ ->|? ? _ _ _ ->|? ? _ _ _ _ ->|? ? ? _ _ _ _ _ ->
                  |? ? ? ? _ _ _ _ _ _ _ ->];
      simpl in Hin; repeat (destruct Hin as [Hin|Hin]; [discriminate|]); contradiction.
Qed.

Lemma shape_1_rows (embeddings : list (vector scalar)) (dim : nat) :
  shape_1 embeddings = Ok dim -> embeddings <> [].
Proof. destruct embeddings; [discriminate | discriminate]. Qed.

Lemma corpus_chunks_trimmed (content : str) : Forall trimmed (corpus_chunks content).
Proof. apply strip_nonempty_trimmed. Qed.

Lemma artifact_chunks_trimmed (content : str) : Forall trimmed (artifact_chunks content).
Proof. apply strip_nonempty_trimmed. Qed.

Lemma read_text_no_CR (f : file str) (content : str) :
  read_text f = Ok content -> no_CR content.
Proof.
  destruct f as [| |raw]; simpl; try discriminate.
  intros E. injection E as <-. apply translate_newlines_no_CR.
Qed.

Lemma corpus_chunks_no_CR (content : str) :
  no_CR content -> Forall no_CR (corpus_chunks content).
Proof. intros H. apply strip_nonempty_Forall, split_Forall, H. Qed.

Lemma build_case_size_invariant (w w' : World) (out : list message) :
  build_case w w' out -> build_succeeded out ->
  (forall svc, embedding_service (self w) = Some svc -> count_preserving svc) ->
  size_invariant (self w').
Proof.
  intros C S Hsvc.
  destruct (build_case_succeeded _ _ _ C S)
    as [svc [content [embeddings [dim [Es [Er [NE [Eg [Esh [Ei [Ec Ed]]]]]]]]]]].
  exists {| d := dim; xb := embeddings |}. split; [exact Ei|].
  rewrite Ec. unfold ntotal. simpl. exact (Hsvc svc Es _ _ _ Eg).
Qed.

(** *** The index query *)

Lemma insert_hit_perm (h : nat * scalar) (l : list (nat * scalar)) :
  Permutation (insert_hit scalar_leb h l) (h :: l).
Proof.
  induction l as [|y t IH]; simpl; [apply Permutation_refl|].
  destruct (scalar_leb (snd h) (snd y)); [apply Permutation_refl|].
  apply perm_trans with (y :: h :: t); [apply perm_skip, IH | apply perm_swap].
Qed.

Lemma ranked_perm (x : list (vector scalar)) (q : vector scalar) :
  Permutation (ranked sq_l2 scalar_leb x q)
              (combine (seq 0 (length x)) (map (sq_l2 q) x)).
Proof.
  unfold ranked.
  induction (combine (seq 0 (length x)) (map (sq_l2 q) x)) as [|h l IH]; simpl.
  - apply Permutation_refl.
  - apply perm_trans with (h :: fold_right (insert_hit scalar_leb) [] l);
      [apply insert_hit_perm | apply perm_skip, IH].
Qed.

(** For a comparison of distances that is total and transitive the ranking
    is in the order of section 4.3. *)
Section RankingOrder.

Hypothesis leb_total : forall a b, scalar_leb a b = true \/ scalar_leb b a = true.
Hypothesis leb_trans :
  forall a b c, scalar_leb a b = true -> scalar_leb b c = true -> scalar_leb a c = true.

Lemma insert_hit_sorted (h : nat * scalar) (l : list (nat * scalar)) :
  StronglySorted (ranks_before scalar_leb) l ->
  Forall (fun y => fst h < fst y) l ->
  StronglySorted (ranks_before scalar_leb) (insert_hit scalar_leb h l).
Proof.
  induction 1 as [|y t St IH Hy]; intros Hord; simpl.
  - constructor; constructor.
  - inversion Hord as [|? ? Hhy Hht]; subst.
    destruct (scalar_leb (snd h) (snd y)) eqn:E.
    + constructor; [constructor; assumption|].
      constructor; [split; [exact E | intros _; exact Hhy]|].
      apply Forall_forall. intros z Hz.
      pose proof (proj1 (Forall_forall _ _) Hy z Hz) as [Hyz _].
      pose proof (proj1 (Forall_forall _ _) Hht z Hz) as Hhz.
      split; [exact (leb_trans _ _ _ E Hyz) | intros _; exact Hhz].
    + constructor; [apply IH; exact Hht|].
      apply Forall_forall. intros z Hz.
      apply (Permutation_in _ (insert_hit_perm h t)) in Hz as [<- | Hz].
      * split; [destruct (leb_total (snd y) (snd h)); congruence | congruence].
      * exact (proj1 (Forall_forall _ _) Hy z Hz).
Qed.

Lemma combine_seq_increasing (l : list scalar) :
  forall s n, StronglySorted (fun a b : nat * scalar => fst a < fst b)
                (combine (seq s n) l).
Proof.
  induction l as [|x l IH]; intros s [|n]; simpl; try constructor.
  - apply IH.
  - apply Forall_forall. intros [o y] Ho. apply in_combine_l in Ho.
    apply in_seq in Ho. simpl. lia.
Qed.

Lemma ranked_sorted (x : list (vector scalar)) (q : vector scalar) :
  StronglySorted (ranks_before scalar_leb) (ranked sq_l2 scalar_leb x q).
Proof.
  unfold ranked.
  pose proof (combine_seq_increasing (map (sq_l2 q) x) 0 (length x)) as H.
  induction H as [|h t St IH Hh]; simpl; [constructor|].
  apply insert_hit_sorted; [exact IH|].
  apply Forall_forall. intros y Hy.
  assert (P : Permutation (fold_right (insert_hit scalar_leb) [] t) t).
  { clear. induction t as [|a t IHt]; simpl; [apply Permutation_refl|].
    apply perm_trans with (a :: fold_right (insert_hit scalar_leb) [] t);
      [apply insert_hit_perm | apply perm_skip, IHt]. }
  apply (Permutation_in _ P) in Hy.
  exact (proj1 (Forall_forall _ _) Hh y Hy).
Qed.

End RankingOrder.

Lemma map_fst_combine {A B} (a : list A) (b : list B) :
  length a = length b -> map fst (combine a b) = a.
Proof.
  revert b. induction a as [|x a IH]; intros [|y b] H; simpl in *; try reflexivity;
    try discriminate.
  f_equal. apply IH. lia.
Qed.

(** The ranking lists every ordinal of the index once. *)
Lemma ranked_ordinals (x : list (vector scalar)) (q : vector scalar) :
  Permutation (map fst (ranked sq_l2 scalar_leb x q)) (seq 0 (length x)).
Proof.
  rewrite <- (map_fst_combine (seq 0 (length x)) (map (sq_l2 q) x))
    by (rewrite length_seq, length_map; reflexivity).
  apply Permutation_map, ranked_perm.
Qed.

Lemma ranked_length (x : list (vector scalar)) (q : vector scalar) :
  length (ranked sq_l2 scalar_leb x q) = length x.
Proof.
  rewrite <- (length_map fst), (Permutation_length (ranked_ordinals x q)).
  apply length_seq.
Qed.

Lemma nearest_length (i : Index scalar) (q : vector scalar) (k : Z) :
  length (nearest sq_l2 scalar_leb i q k) = Nat.min (Z.to_nat k) (ntotal i).
Proof.
  unfold nearest. rewrite length_map, length_firstn, ranked_length. reflexivity.
Qed.

Lemma nearest_in_range (i : Index scalar) (q : vector scalar) (k : Z) :
  Forall (fun o => o < ntotal i) (nearest sq_l2 scalar_leb i q k).
Proof.
  apply Forall_forall. intros o Ho. unfold nearest in Ho.
  rewrite <- firstn_map in Ho.
  assert (Ho' : In o (map fst (ranked sq_l2 scalar_leb (xb i) q))).
  { rewrite <- (firstn_skipn (Z.to_nat k)). apply in_or_app. left. exact Ho. }
  apply (Permutation_in _ (ranked_ordinals (xb i) q)) in Ho'.
  rename Ho' into Hs. clear Ho. rename Hs into Ho.
  apply in_seq in Ho. unfold ntotal. lia.
Qed.

Lemma nearest_NoDup (i : Index scalar) (q : vector scalar) (k : Z) :
  NoDup (nearest sq_l2 scalar_leb i q k).
Proof.
  unfold nearest. rewrite <- firstn_map.
  assert (N : NoDup (map fst (ranked sq_l2 scalar_leb (xb i) q))).
  { apply (Permutation_NoDup (Permutation_sym (ranked_ordinals (xb i) q))).
    apply seq_NoDup. }
  rewrite <- (firstn_skipn (Z.to_nat k)) in N.
  exact (NoDup_app_remove_r _ _ N).
Qed.

Lemma index_search_eq (i : Index scalar) (q : vector scalar) (k : Z) :
  length q = d i -> (0 < k)%Z ->
  index_search sq_l2 scalar_leb no_hit_distance i q k =
  Ok (map snd (firstn (Z.to_nat k) (ranked sq_l2 scalar_leb (xb i) q))
        ++ repeat no_hit_distance (Z.to_nat k - Nat.min (Z.to_nat k) (ntotal i)),
      map Z.of_nat (nearest sq_l2 scalar_leb i q k)
        ++ repeat (-1)%Z (Z.to_nat k - Nat.min (Z.to_nat k) (ntotal i))).
Proof.
  intros Hd Hk. unfold index_search.
  rewrite Hd, Nat.eqb_refl. simpl negb. cbv iota.
  destruct (Z.leb_spec k 0) as [H|_]; [lia|].
  rewrite length_firstn, ranked_length. unfold nearest, ntotal.
  rewrite map_map. reflexivity.
Qed.

(** *** The loops over the labels *)

Lemma for_indices_eq (indices : list Z) (results : list str) (w : World) :
  for_indices indices results w =
  (Ok (results ++ chunks_at (chunks_with_content (self w)) indices), w,
   out_of_bounds (chunks_with_content (self w)) indices).
Proof.
  revert results. unfold chunks_at, out_of_bounds.
  induction indices as [|i rest IH]; intros results; simpl.
  - unfold ret. rewrite app_nil_r. reflexivity.
  - unfold bind, get_self. simpl.
    change ((0 <=? i)%Z && (i <? Z.of_nat (length (chunks_with_content (self w))))%Z)
      with (in_range (length (chunks_with_content (self w))) i).
    destruct (in_range (length (chunks_with_content (self w))) i); simpl.
    + rewrite IH. simpl. rewrite <- app_assoc. reflexivity.
    + unfold print. rewrite IH. reflexivity.
Qed.

Lemma for_ranked_texts (l : list str) (hits : list (Z * scalar)) :
  forall rank0 retrieved0, exists retrieved,
    for_ranked (Some l) rank0 hits retrieved0 = Ok retrieved /\
    map text retrieved = map text retrieved0 ++ chunks_at l (map fst hits).
Proof.
  unfold chunks_at.
  induction hits as [|[idx dist] rest IH]; intros rank0 retrieved0; simpl.
  - exists retrieved0. rewrite app_nil_r. auto.
  - unfold in_range at 1.
    destruct (0 <=? idx)%Z; simpl; [|apply IH].
    destruct (idx <? Z.of_nat (length l))%Z; simpl; [|apply IH].
    destruct (IH (S rank0)
                (retrieved0 ++ [{| rank := rank0; text := nth (Z.to_nat idx) l [];
                                   distance := dist |}]))
      as [retrieved [E T]].
    exists retrieved. split; [exact E|].
    rewrite T, map_app, <- app_assoc. reflexivity.
Qed.

Lemma chunks_at_labels (chunks : list str) (ords : list nat) (m : nat) :
  Forall (fun o => o < length chunks) ords ->
  chunks_at chunks (map Z.of_nat ords ++ repeat (-1)%Z m)
  = map (fun o => nth o chunks []) ords.
Proof.
  intros H. unfold chunks_at. rewrite filter_app, map_app.
  assert (R : filter (in_range (length chunks)) (repeat (-1)%Z m) = []).
  { induction m; simpl; auto. }
  rewrite R, app_nil_r.
  induction H as [|o ords Ho _ IH]; simpl; [reflexivity|].
  assert (I : in_range (length chunks) (Z.of_nat o) = true).
  { unfold in_range. apply andb_true_intro. split;
      [apply Z.leb_le | apply Z.ltb_lt]; lia. }
  rewrite I. simpl. rewrite Nat2Z.id, IH. reflexivity.
Qed.

Lemma out_of_bounds_labels (chunks : list str) (ords : list nat) (m : nat) :
  Forall (fun o => o < length chunks) ords ->
  out_of_bounds chunks (map Z.of_nat ords ++ repeat (-1)%Z m)
  = repeat (IndexOutOfBounds (-1)) m.
Proof.
  intros H. unfold out_of_bounds. rewrite filter_app, map_app.
  assert (R : filter (fun i => negb (in_range (length chunks) i)) (map Z.of_nat ords) = []).
  { induction H as [|o ords Ho _ IH]; simpl; [reflexivity|].
    assert (I : in_range (length chunks) (Z.of_nat o) = true).
    { unfold in_range. apply andb_true_intro. split;
        [apply Z.leb_le | apply Z.ltb_lt]; lia. }
    rewrite I. simpl. exact IH. }
  rewrite R. simpl.
  induction m; simpl; [reflexivity | f_equal; assumption].
Qed.

Lemma chunks_at_stored (chunks : list str) (indices : list Z) :
  Forall (fun c => In c chunks) (chunks_at chunks indices).
Proof.
  unfold chunks_at. apply Forall_forall. intros c Hc.
  apply in_map_iff in Hc as [i [<- Hi]].
  apply filter_In in Hi as [_ Hi]. unfold in_range in Hi.
  apply andb_prop in Hi as [H0 H1].
  apply Z.leb_le in H0. apply Z.ltb_lt in H1.
  apply nth_In. lia.
Qed.

Lemma chunks_at_length (chunks : list str) (indices : list Z) :
  length (chunks_at chunks indices) <= length indices.
Proof. unfold chunks_at. rewrite length_map. apply filter_length_le. Qed.

(** *** [search] *)

Lemma search_body_eq (i : Index scalar) (svc : EmbeddingService scalar)
    (query : str) (k : Z) (w : World) :
  search_body sq_l2 scalar_leb no_hit_distance i svc query k w =
  match svc (calls w) [query] with
  | Raise e => (Raise e, called w, [])
  | Ok [] => (Raise IndexError, called w, [])
  | Ok (v :: _) =>
      match index_search sq_l2 scalar_leb no_hit_distance i v k with
      | Raise e => (Raise e, called w, [])
      | Ok (_, indices) =>
          match chunks_at (chunks_with_content (self w)) indices with
          | [] =>
              (Ok no_relevant_information, called w,
               out_of_bounds (chunks_with_content (self w)) indices
                 ++ [NoRelevantDocuments])
          | (_ :: _) as results =>
              (Ok (join paragraph_break results), called w,
               out_of_bounds (chunks_with_content (self w)) indices
                 ++ [FoundContext (join paragraph_break results)])
          end
      end
  end.
Proof.
  unfold search_body, bind, generate_embeddings, lift.
  destruct (svc (calls w) [query]) as [[|v rest]|e]; try reflexivity.
  destruct (index_search sq_l2 scalar_leb no_hit_distance i v k)
    as [[distances indices]|e]; try reflexivity.
  rewrite for_indices_eq. simpl.
  destruct (chunks_at (chunks_with_content (self w)) indices); reflexivity.
Qed.

Lemma search_eq (query : str) (k : Z) (w : World) :
  exists out1,
    search sq_l2 scalar_leb no_hit_distance query k w =
    match index (self (after_lazy_initialize w)),
          embedding_service (self (after_lazy_initialize w)) with
    | Some i, Some svc =>
        match search_body sq_l2 scalar_leb no_hit_distance i svc query k
                (after_lazy_initialize w) with
        | (Ok s, w2, out2) => (Ok s, w2, out1 ++ Searching query :: out2)
        | (Raise e, w2, out2) =>
            (Ok search_error, w2,
             out1 ++ Searching query :: out2 ++ [ErrorDuringSearch e])
        end
    | _, _ => (Ok not_initialized_error, after_lazy_initialize w, out1)
    end.
Proof.
  assert (I : exists w1 out1,
             (if _initialized (self w) then ret tt w else initialize w)
               = (Ok tt, w1, out1) /\ after_lazy_initialize w = w1).
  { unfold after_lazy_initialize.
    destruct (_initialized (self w)).
    - exists w, []. auto.
    - destruct (initialize_cases w) as [w1 [out1 [E _]]].
      exists w1, out1. rewrite E. auto. }
  destruct I as [w1 [out1 [E ->]]].
  exists out1. unfold search, bind, get_self.
  replace ((if _initialized (self w) then ret tt else initialize) w)
    with (if _initialized (self w) then ret tt w else initialize w)
    by (destruct (_initialized (self w)); reflexivity).
  rewrite E.
  destruct (index (self w1)) as [i|]; [|simpl; rewrite app_nil_r; reflexivity].
  destruct (embedding_service (self w1)) as [svc|];
    [|simpl; rewrite app_nil_r; reflexivity].
  unfold print, try_except, ret.
  destruct (search_body sq_l2 scalar_leb no_hit_distance i svc query k w1)
    as [[[s|e] w2] out2]; simpl; try rewrite app_nil_r; reflexivity.
Qed.

(** *** The persisted text *)

Lemma marker_no_LF : ~ In LF marker.
Proof.
  unfold marker, lit. simpl.
  intros H. repeat (destruct H as [H|H]; [discriminate|]). contradiction.
Qed.

Lemma separator_no_CR : no_CR separator.
Proof.
  unfold no_CR, separator, marker, lit. simpl.
  repeat (constructor; [discriminate|]). constructor.
Qed.

(** What [save] wrote reads back as the chunks that were saved. *)
Lemma artifact_chunks_join (chunks : list str) :
  chunks <> [] ->
  Forall trimmed chunks -> Forall no_CR chunks ->
  Forall (separable marker) chunks ->
  read_text (Holds (join separator chunks)) = Ok (join separator chunks) /\
  artifact_chunks (join separator chunks) = chunks.
Proof.
  intros NE T C S. split.
  - simpl. unfold universal_newlines.
    rewrite translate_newlines_fixed; [reflexivity|].
    apply join_Forall; [apply separator_no_CR | exact C].
  - unfold artifact_chunks, separator.
    rewrite (split_join marker marker_no_LF chunks NE S).
    apply strip_nonempty_fixed, T.
Qed.

Lemma save_load_restores (w : World) (i : Index scalar)
    (r0 : FaissRetriever scalar) (n : nat) :
  index (self w) = Some i ->
  chunks_with_content (self w) <> [] ->
  ntotal i = length (chunks_with_content (self w)) ->
  chunks_trimmed (self w) ->
  Forall no_CR (chunks_with_content (self w)) ->
  Forall (separable marker) (chunks_with_content (self w)) ->
  exists w1,
    save w = (Ok tt, w1, [SavingIndex; IndexSaved]) /\
    load {| self := r0; disk := disk w1; calls := n |}
    = (Ok tt,
       {| self := with_chunks (with_index r0 (Some i)) (chunks_with_content (self w));
          disk := disk w1; calls := n |},
       [IndexLoaded (Some (ntotal i)) (length (chunks_with_content (self w)))]).
Proof.
  intros Hi NE Hsize T C S.
  eexists. split; [rewrite save_eq, Hi; reflexivity|].
  simpl disk.
  destruct (artifact_chunks_join _ NE T C S) as [Er Ea].
  set (w0 := {| self := r0;
                disk := saved_disk (disk w) i (chunks_with_content (self w));
                calls := n |}).
  assert (Er' : read_text (text_file (disk w0))
                = Ok (join separator (chunks_with_content (self w)))) by exact Er.
  assert (Ei' : read_index (index_file (disk w0)) = Ok i) by reflexivity.
  unfold load, try_except.
  destruct (load_body_cases w0)
    as [[i' [content [Ei [Et [_ [_ E]]]]]] | [e [w1 [F E]]]]; rewrite E.
  - rewrite Ei' in Ei. injection Ei as <-.
    rewrite Er' in Et. injection Et as <-.
    rewrite Ea. reflexivity.
  - exfalso.
    destruct F as [Ei _|i' Ei Et _|i' content Ei Et M _ _].
    + congruence.
    + congruence.
    + rewrite Ei' in Ei. injection Ei as <-.
      rewrite Er' in Et. injection Et as <-. rewrite Ea in M.
      destruct M as [M|M]; [contradiction | congruence].
Qed.

(** *** The stored chunks stay trimmed *)

Lemma build_case_trimmed (w w' : World) (out : list message) :
  build_case w w' out ->
  chunks_trimmed (self w) \/ build_succeeded out ->
  chunks_trimmed (self w').
Proof.
  intros C [T | S].
  - destruct (build_case_chunks _ _ _ C) as [Ec | [content Ec]];
      unfold chunks_trimmed; rewrite Ec; [exact T | apply corpus_chunks_trimmed].
  - destruct (build_case_succeeded _ _ _ C S)
      as [svc [content [embeddings [dim [_ [_ [_ [_ [_ [_ [Ec _]]]]]]]]]]].
    unfold chunks_trimmed. rewrite Ec. apply corpus_chunks_trimmed.
Qed.

Lemma build_case_not_loaded (w w' : World) (out : list message) :
  build_case w w' out -> ~ load_succeeded out.
Proof.
  intros C [n [m L]].
  destruct C as [_ _ ->|? ? _ _ _ ->|? ? _ _ _ _ ->|? ? ? _ _ _ _ _ ->
                |? ? ? ? _ _ _ _ _ _ _ ->];
    simpl in L; repeat (destruct L as [L|L]; [discriminate|]); contradiction.
Qed.

Lemma load_case_trimmed (w w' : World) (out : list message) :
  load_case w w' out ->
  chunks_trimmed (self w) \/ build_succeeded out \/ load_succeeded out ->
  chunks_trimmed (self w').
Proof.
  intros [i content _ _ _ _ -> _|e w2 out2 F Cb ->] H.
  - unfold chunks_trimmed. simpl. apply artifact_chunks_trimmed.
  - apply (build_case_trimmed _ _ _ Cb).
    destruct H as [T | [S | [n [m L]]]].
    + left. destruct (load_failure_chunks _ _ _ F) as [Ec | [content Ec]];
        unfold chunks_trimmed; rewrite Ec; [exact T | apply artifact_chunks_trimmed].
    + right. unfold build_succeeded in *. simpl in S.
      destruct S as [S|[S|S]]; [discriminate | discriminate | exact S].
    + exfalso. apply (build_case_not_loaded _ _ _ Cb).
      simpl in L. destruct L as [L|[L|L]]; try discriminate.
      exists n, m. exact L.
Qed.

Lemma initialize_trimmed (w w' : World) (r : Result unit) (out : list message) :
  initialize w = (r, w', out) ->
  chunks_trimmed (self w) -> chunks_trimmed (self w').
Proof.
  intros E T.
  destruct (initialize_cases w) as [w1 [out1 [E1 [_ C]]]].
  rewrite E1 in E. injection E as _ <- <-.
  destruct C as [[_ [-> _]] | [_ [w2 [out2 [-> [[_ [_ [Cl _]]] | [_ [_ [Cb _]]]]]]]]].
  - exact T.
  - unfold chunks_trimmed. simpl. apply (load_case_trimmed _ _ _ Cl). left. exact T.
  - unfold chunks_trimmed. simpl. apply (build_case_trimmed _ _ _ Cb). left. exact T.
Qed.

Lemma search_self (query : str) (k : Z) (w w' : World) (r : Result str)
    (out : list message) :
  search sq_l2 scalar_leb no_hit_distance query k w = (r, w', out) ->
  self w' = self (after_lazy_initialize w).
Proof.
  intros E. destruct (search_eq query k w) as [out1 E1]. rewrite E1 in E.
  destruct (index (self (after_lazy_initialize w))) as [i|];
    [|injection E as _ <- _; reflexivity].
  destruct (embedding_service (self (after_lazy_initialize w))) as [svc|];
    [|injection E as _ <- _; reflexivity].
  rewrite search_body_eq in E.
  destruct (svc (calls (after_lazy_initialize w)) [query]) as [[|v rest]|e];
    try (injection E as _ <- _; reflexivity).
  destruct (index_search sq_l2 scalar_leb no_hit_distance i v k)
    as [[distances indices]|e]; try (injection E as _ <- _; reflexivity).
  destruct (chunks_at (chunks_with_content (self (after_lazy_initialize w))) indices);
    injection E as _ <- _; reflexivity.
Qed.

(** In every world a retriever can be in, the stored chunks are trimmed. *)
Lemma reachable_chunks_trimmed (w : World) :
  reachable sq_l2 scalar_leb no_hit_distance w -> chunks_trimmed (self w).
Proof.
  induction 1 as [svc dk n | w dk n _ IH | w r w' out _ IH E | w r w' out _ IH E
                 | w r w' out _ IH E | w r w' out _ IH E | w query k r w' out _ IH E].
  - constructor.
  - exact IH.
  - exact (initialize_trimmed _ _ _ _ E IH).
  - destruct (build_cases w) as [w1 [out1 [E1 C]]].
    rewrite E1 in E. injection E as _ <- <-.
    apply (build_case_trimmed _ _ _ C). left. exact IH.
  - destruct (load_cases w) as [w1 [out1 [E1 C]]].
    rewrite E1 in E. injection E as _ <- <-.
    apply (load_case_trimmed _ _ _ C). left. exact IH.
  - rewrite save_eq in E. destruct (index (self w)); injection E as _ <- _; exact IH.
  - unfold chunks_trimmed. rewrite (search_self _ _ _ _ _ _ E).
    unfold after_lazy_initialize.
    destruct (_initialized (self w)); [exact IH|].
    destruct (initialize w) as [[r1 w1] out1] eqn:Ei.
    exact (initialize_trimmed _ _ _ _ Ei IH).
Qed.

(* ================================================================== *)
(** * The properties of the specification *)
(* ================================================================== *)

(** C1.  After a successful build (the embedding service answering with as
    many vectors as it was sent texts, its contract) and after every
    successful load, the index holds as many vectors as there are stored
    chunks: [index.ntotal == len(chunks_with_content)].  This also holds for
    a load that fell back to a rebuild which succeeded. *)
Theorem C1_index_size_equals_chunk_count
    (w w' : World) (r : Result unit) (out : list message) :
  (build w = (r, w', out) /\ build_succeeded out /\
   (forall svc, embedding_service (self w) = Some svc -> count_preserving svc))
  \/ (load w = (r, w', out) /\ load_succeeded out)
  \/ (load w = (r, w', out) /\ build_succeeded out /\
      (forall svc, embedding_service (self w) = Some svc -> count_preserving svc)) ->
  size_invariant (self w').
Proof.
  intros [[E [S Hsvc]] | [[E S] | [E [S Hsvc]]]].
  - destruct (build_cases w) as [w1 [out1 [E1 C]]].
    rewrite E1 in E. injection E as _ <- <-.
    exact (build_case_size_invariant _ _ _ C S Hsvc).
  - destruct (load_cases w) as [w1 [out1 [E1 C]]].
    rewrite E1 in E. injection E as _ <- <-.
    destruct (load_case_loaded _ _ _ C S) as [i [content [_ [_ [_ [Len ->]]]]]].
    exists i. split; [reflexivity | simpl; symmetry; exact Len].
  - destruct (load_cases w) as [w1 [out1 [E1 C]]].
    rewrite E1 in E. injection E as _ <- <-.
    destruct C as [i content _ _ _ _ _ ->|e w2 out2 F B ->].
    + exfalso. unfold build_succeeded in S. simpl in S.
      destruct S as [S|S]; [discriminate | contradiction].
    + apply (build_case_size_invariant _ _ _ B).
      * unfold build_succeeded in *. simpl in S.
        destruct S as [S|[S|S]]; [discriminate | discriminate | exact S].
      * destruct (load_failure_fields _ _ _ F) as [Es _].
        intros svc Hs. apply Hsvc. rewrite <- Es. exact Hs.
Qed.

(** C2, as amended.  On a retriever that has an embedding service, when
    the paragraph split of the corpus yields no non-empty chunk, [build]
    raises nothing: it prints the warning that no text chunks were found
    and returns, with an empty chunk list.  On a retriever without an
    embedding service [build] does not get that far: it prints that the
    service is not available and returns before the corpus is read, and
    the chunk list too is as it was.  In both cases [build] returns
    normally with the index field and the files as they were, so that no
    index, of zero vectors or other, is built or saved. *)
Theorem C2_empty_corpus_build_warns_and_returns (w : World) (content : str) :
  read_text (knowledge_file (disk w)) = Ok content ->
  corpus_chunks content = [] ->
  (forall svc, embedding_service (self w) = Some svc ->
     build w = (Ok tt, with_self w (with_chunks (self w) []), [NoTextChunksFound])) /\
  (embedding_service (self w) = None ->
     build w = (Ok tt, w, [EmbeddingServiceNotAvailable])) /\
  (exists w' out,
     build w = (Ok tt, w', out) /\
     index (self w') = index (self w) /\ disk w' = disk w /\
     ~ In IndexSaved out).
Proof.
  intros Er Ec.
  destruct (build_cases w) as [w1 [out1 [E1 C]]]. rewrite E1.
  destruct C as [Es -> ->|svc' e _ Er' _ _|svc' content' Es Er' Ec' -> ->
                |svc' content' e _ Er' NE _ _ _
                |svc' content' embeddings dim _ Er' NE _ _ _ _ _].
  - split; [intros svc Hs; congruence|]. split; [reflexivity|].
    exists w, [EmbeddingServiceNotAvailable].
    split; [reflexivity|]. split; [reflexivity|]. split; [reflexivity|].
    intros [H|[]]; discriminate.
  - congruence.
  - split; [intros svc _; reflexivity|]. split; [intros H; congruence|].
    eexists _, _. split; [reflexivity|]. split; [reflexivity|].
    split; [reflexivity|]. intros [H|[]]; discriminate.
  - rewrite Er in Er'. injection Er' as <-. contradiction.
  - rewrite Er in Er'. injection Er' as <-. contradiction.
Qed.

(** C3, as amended.  [initialize] never lets a failure out and never leaves
    the retriever uninitialized: it returns, and [_initialized] is then
    true.  When it runs on a retriever without index and without a persisted
    artifact, and the corpus file cannot be read or the embedding call of
    the build raises, the error is caught and printed by [build], the index
    stays unset and the files untouched, and every later [search] returns
    the fixed string saying that the index or the embedding service is not
    initialized. *)
Theorem C3_initialize_returns_and_marks_initialized (w : World) :
  exists w' out,
    initialize w = (Ok tt, w', out) /\
    _initialized (self w') = true /\
    (_initialized (self w) = false ->
     index (self w) = None ->
     exists_ (index_file (disk w)) && exists_ (text_file (disk w)) = false ->
     forall svc, embedding_service (self w) = Some svc ->
     (exists e, read_text (knowledge_file (disk w)) = Raise e) \/
     (exists content e,
         read_text (knowledge_file (disk w)) = Ok content /\
         corpus_chunks content <> [] /\
         svc (calls w) (corpus_chunks content) = Raise e) ->
     index (self w') = None /\
     disk w' = disk w /\
     forall query k,
       search sq_l2 scalar_leb no_hit_distance query k w'
       = (Ok not_initialized_error, w', [])).
Proof.
  destruct (initialize_cases w) as [w' [out [E [Ini C]]]].
  exists w', out. split; [exact E|]. split; [exact Ini|].
  intros Hini Hidx Hex svc Hsvc Hfail.
  destruct C as [[Hini' _] | [_ [w1 [out1 [-> [[Hex' _] | [_ [Eb [Cb _]]]]]]]]].
  - congruence.
  - congruence.
  - assert (F : ~ build_succeeded out1).
    { intros S.
      destruct (build_case_succeeded _ _ _ Cb S)
        as [svc' [content [embeddings [dim [Es [Er [NE [Eg _]]]]]]]].
      destruct Hfail as [[e Er'] | [content' [e [Er' [_ Eg']]]]].
      - congruence.
      - rewrite Er in Er'. injection Er' as <-.
        rewrite Hsvc in Es. injection Es as <-. congruence. }
    destruct (build_case_failed _ _ _ Cb F) as [Ei Ed].
    simpl. rewrite Ei, Hidx, Ed. repeat split.
    intros query k.
    unfold search, bind, get_self, ret. simpl.
    rewrite Ei, Hidx. reflexivity.
Qed.

(** C10.  After a build or a load every stored chunk is a non-empty string
    without whitespace at either end: when the chunks were so before (as
    they are in every world a retriever can be in), and also, whatever they
    were before, when the build or the load succeeded. *)
Theorem C10_stored_chunks_are_trimmed
    (w w' : World) (r : Result unit) (out : list message) :
  build w = (r, w', out) \/ load w = (r, w', out) ->
  chunks_trimmed (self w) \/ build_succeeded out \/ load_succeeded out ->
  chunks_trimmed (self w').
Proof.
  intros [E | E] H.
  - destruct (build_cases w) as [w1 [out1 [E1 C]]].
    rewrite E1 in E. injection E as _ <- <-.
    apply (build_case_trimmed _ _ _ C).
    destruct H as [T | [S | L]]; [left; exact T | right; exact S |].
    exfalso. exact (build_case_not_loaded _ _ _ C L).
  - destruct (load_cases w) as [w1 [out1 [E1 C]]].
    rewrite E1 in E. injection E as _ <- <-.
    exact (load_case_trimmed _ _ _ C H).
Qed.

(** C7.  For a text with at least one paragraph that is not blank, the
    chunker returns exactly the non-blank paragraphs between the
    double-newline breaks of the text (the breaks found from the left, which
    cut the text in one way only), each trimmed of the whitespace around it
    and non-empty, in their order, as many as there are non-blank
    paragraphs.  This is the chunking of [FaissRetriever.build] on the text
    it reads, and of [chunk_text] on its argument once the line ends CR LF
    are written LF, which is its first step. *)
Theorem C7_chunker_returns_trimmed_non_blank_paragraphs (text : str) :
  (exists p, In p (paragraphs text) /\ blank p = false) ->
  splits_into paragraph_break text (paragraphs text) /\
  join paragraph_break (paragraphs text) = text /\
  Forall2 trim_of (non_blank_paragraphs text) (corpus_chunks text) /\
  corpus_chunks text = map strip (non_blank_paragraphs text) /\
  length (corpus_chunks text) = length (non_blank_paragraphs text) /\
  1 <= length (corpus_chunks text) /\
  (forall content, replace_crlf content = text ->
     chunk_text content = corpus_chunks text).
Proof.
  intros [p [Hin Hp]].
  assert (L : length (corpus_chunks text) = length (non_blank_paragraphs text)).
  { unfold corpus_chunks, non_blank_paragraphs, paragraphs.
    rewrite strip_nonempty_filter. apply length_map. }
  split; [apply split_splits_into|].
  split; [apply join_split|].
  split; [apply strip_nonempty_trim_of|].
  split; [apply strip_nonempty_filter|].
  split; [exact L|].
  split.
  - rewrite L.
    assert (Hf : In p (non_blank_paragraphs text)).
    { apply filter_In. split; [exact Hin | rewrite Hp; reflexivity]. }
    destruct (non_blank_paragraphs text); [contradiction | simpl; lia].
  - intros content <-. reflexivity.
Qed.

(** C8.  On a ready retriever whose index holds N >= 1 vectors, aligned with
    N chunks, [search(query, k)] with a positive [k] (the embedding service
    answering with a vector of the dimension of the index) joins exactly
    min(k, N) chunks, so at most [k]: the chunks at the distinct ordinals the
    index found.  Whatever row of labels the index gives, the loops of
    [search] and of [search_faiss] take the chunks at the labels inside
    [0, N) only; the other labels are passed over ([search] prints a warning
    for each) and never index the chunk list. *)
Theorem C8_search_retrieves_min_k_N_chunks
    (w : World) (i : Index scalar) (svc : EmbeddingService scalar)
    (query : str) (k : Z) (v : vector scalar) (rest : list (vector scalar)) :
  _initialized (self w) = true ->
  index (self w) = Some i ->
  embedding_service (self w) = Some svc ->
  ntotal i = length (chunks_with_content (self w)) ->
  1 <= ntotal i ->
  svc (calls w) [query] = Ok (v :: rest) ->
  length v = d i ->
  (0 < k)%Z ->
  let chunks := chunks_with_content (self w) in
  let found := nearest sq_l2 scalar_leb i v k in
  let results := map (fun o => nth o chunks []) found in
  (exists out,
     search sq_l2 scalar_leb no_hit_distance query k w
     = (Ok (join paragraph_break results), called w, out)) /\
  length results = Nat.min (Z.to_nat k) (ntotal i) /\
  (Z.of_nat (length results) <= k)%Z /\
  NoDup found /\
  Forall (fun o => o < length chunks) found /\
  (forall indices results0,
     for_indices indices results0 w
     = (Ok (results0 ++ chunks_at chunks indices), w, out_of_bounds chunks indices)) /\
  (forall indices,
     Forall (fun c => In c chunks) (chunks_at chunks indices) /\
     length (chunks_at chunks indices) <= length indices) /\
  (forall (g : RagGlobals scalar) (embed_content : str -> Result (vector scalar)),
     is_ready g = true ->
     faiss_index g = Some i ->
     text_chunks g = Some chunks ->
     embed_content query = Ok v ->
     exists retrieved,
       search_faiss sq_l2 scalar_leb no_hit_distance g embed_content query k
       = Ok retrieved /\
       map text retrieved = results).
Proof.
  intros Hini Hidx Hsvc Hsize HN Hemb Hdim Hk chunks found results.
  assert (Hrange : Forall (fun o => o < length chunks) found).
  { unfold chunks. rewrite <- Hsize. apply nearest_in_range. }
  assert (Hlen : length results = Nat.min (Z.to_nat k) (ntotal i)).
  { unfold results. rewrite length_map. apply nearest_length. }
  assert (Hat : forall m, chunks_at chunks (map Z.of_nat found ++ repeat (-1)%Z m) = results).
  { intros m. apply chunks_at_labels. exact Hrange. }
  split; [|split; [exact Hlen|split; [lia|split; [apply nearest_NoDup|split; [exact Hrange|]]]]].
  - destruct (search_eq query k w) as [out1 E].
    unfold after_lazy_initialize in E. rewrite Hini in E. rewrite Hidx, Hsvc in E.
    rewrite search_body_eq in E. rewrite Hemb in E.
    rewrite (index_search_eq i v k Hdim Hk) in E.
    fold chunks in E. fold found in E. rewrite Hat in E.
    destruct results as [|c0 cs0] eqn:R.
    + exfalso. simpl in Hlen. lia.
    + eexists. exact E.
  - split; [|split].
    + intros indices results0. apply for_indices_eq.
    + intros indices. split; [apply chunks_at_stored | apply chunks_at_length].
    + intros g embed_content Hready Hfi Htc Hq.
      unfold search_faiss. rewrite Hready, Hq, Hfi. simpl negb. cbv iota.
      rewrite (index_search_eq i v k Hdim Hk). rewrite Htc.
      destruct (for_ranked_texts chunks
                  (combine (map Z.of_nat found
                              ++ repeat (-1)%Z (Z.to_nat k - Nat.min (Z.to_nat k) (ntotal i)))
                           (map snd (firstn (Z.to_nat k) (ranked sq_l2 scalar_leb (xb i) v))
                              ++ repeat no_hit_distance
                                   (Z.to_nat k - Nat.min (Z.to_nat k) (ntotal i)))) 1 [])
        as [retrieved [E T]].
      exists retrieved. split; [exact E|].
      rewrite T, map_fst_combine; [apply Hat|].
      rewrite !length_app, !repeat_length, !length_map.
      unfold found. rewrite nearest_length, length_firstn, ranked_length.
      reflexivity.
Qed.

(** C5, as amended.  For every index and chunk sequence reached by a
    successful build (the embedding service keeping its contract), provided
    the separator is found in no chunk and no chunk ends with a newline and
    the marker [<---CHUNK_SEPARATOR--->] (that is: the separator is not
    found in a chunk followed by a newline), [save] followed by [load], on
    any retriever object over the saved files, loads without a rebuild and
    restores the same index and the same chunk sequence: every ordinal maps
    to the same chunk text, and every query vector finds the same
    ordinals. *)
Theorem C5_save_then_load_restores_index_and_chunks
    (w0 w : World) (r : Result unit) (out : list message)
    (r0 : FaissRetriever scalar) (n : nat) :
  build w0 = (r, w, out) ->
  build_succeeded out ->
  (forall svc, embedding_service (self w0) = Some svc -> count_preserving svc) ->
  Forall (separable marker) (chunks_with_content (self w)) ->
  exists w1 out1 w2 out2,
    save w = (Ok tt, w1, out1) /\
    load {| self := r0; disk := disk w1; calls := n |} = (Ok tt, w2, out2) /\
    load_succeeded out2 /\
    index (self w2) = index (self w) /\
    chunks_with_content (self w2) = chunks_with_content (self w) /\
    (forall o, nth_error (chunks_with_content (self w2)) o
               = nth_error (chunks_with_content (self w)) o) /\
    (forall i i2 q k,
       index (self w) = Some i -> index (self w2) = Some i2 ->
       index_search sq_l2 scalar_leb no_hit_distance i2 q k
       = index_search sq_l2 scalar_leb no_hit_distance i q k).
Proof.
  intros E S Hsvc Hsep.
  destruct (build_cases w0) as [w' [out' [E' C]]].
  rewrite E' in E. injection E as _ <- <-.
  destruct (build_case_size_invariant _ _ _ C S Hsvc) as [i [Hi Hsize]].
  destruct (build_case_succeeded _ _ _ C S)
    as [svc [content [embeddings [dim [_ [Er [NE [_ [_ [_ [Ec _]]]]]]]]]]].
  assert (T : chunks_trimmed (self w')).
  { unfold chunks_trimmed. rewrite Ec. apply corpus_chunks_trimmed. }
  assert (N : Forall no_CR (chunks_with_content (self w'))).
  { rewrite Ec. apply corpus_chunks_no_CR. exact (read_text_no_CR _ _ Er). }
  assert (NE' : chunks_with_content (self w') <> []) by (rewrite Ec; exact NE).
  destruct (save_load_restores w' i r0 n Hi NE' Hsize T N Hsep) as [w1 [Es El]].
  eexists w1, _, _, _. split; [exact Es|]. split; [exact El|].
  split; [eexists _, _; left; reflexivity|].
  split; [simpl; symmetry; exact Hi|].
  split; [reflexivity|].
  split; [reflexivity|].
  intros i1 i2 q k H1 H2. simpl in H2. congruence.
Qed.

(** C6, as amended.  Neither [build] nor [save] validates or escapes the
    chunks: for a corpus with a chunk in which the separator is found, a
    build whose embedding call succeeds goes to its end without an error,
    keeps the chunk in the chunk sequence and writes it as it is into the
    text file, which is the chunks joined by the separator. *)
Theorem C6_separator_in_chunk_is_persisted_as_is
    (w : World) (svc : EmbeddingService scalar) (content : str)
    (embeddings : list (vector scalar)) (dim : nat) (c : str) :
  embedding_service (self w) = Some svc ->
  read_text (knowledge_file (disk w)) = Ok content ->
  In c (corpus_chunks content) ->
  occurs separator c ->
  svc (calls w) (corpus_chunks content) = Ok embeddings ->
  np_array embeddings = Ok embeddings ->
  shape_1 embeddings = Ok dim ->
  exists w',
    build w = (Ok tt, w',
               [GeneratingEmbeddings (length (corpus_chunks content));
                EmbeddingDimension dim; IndexBuilt (length embeddings);
                SavingIndex; IndexSaved]) /\
    In c (chunks_with_content (self w')) /\
    text_file (disk w') = Holds (join separator (corpus_chunks content)) /\
    occurs c (join separator (corpus_chunks content)).
Proof.
  intros Es Er Hin Hocc Eg Ea Esh.
  destruct (build_cases w) as [w' [out [E C]]].
  exists w'.
  destruct C as [Es' _ _|svc' e Es' Er' _ _|svc' content' Es' Er' Ec' _ _
                |svc' content' e Es' Er' NE F _ _
                |svc' content' embeddings' dim' Es' Er' NE Eg' Ea' Esh' -> ->].
  - congruence.
  - congruence.
  - exfalso. rewrite Er in Er'. injection Er' as <-.
    rewrite Ec' in Hin. contradiction.
  - exfalso. rewrite Er in Er'. injection Er' as <-.
    rewrite Es in Es'. injection Es' as <-.
    destruct F as [F | [embeddings' [Eg' [F | F]]]]; congruence.
  - rewrite Er in Er'. injection Er' as <-.
    rewrite Es in Es'. injection Es' as <-.
    rewrite Eg in Eg'. injection Eg' as <-.
    rewrite Esh in Esh'. injection Esh' as <-.
    split; [exact E|]. simpl.
    split; [exact Hin|]. split; [reflexivity|].
    apply join_occurs, Hin.
Qed.

(* ================================================================== *)
(** * More about the retriever *)
(* ================================================================== *)

(** *** [search] once the retriever is initialized, and before *)

Lemma search_initialized_eq (query : str) (k : Z) (w : World) :
  _initialized (self w) = true ->
  search sq_l2 scalar_leb no_hit_distance query k w =
  match index (self w), embedding_service (self w) with
  | Some i, Some svc =>
      match search_body sq_l2 scalar_leb no_hit_distance i svc query k w with
      | (Ok s, w2, out2) => (Ok s, w2, Searching query :: out2)
      | (Raise e, w2, out2) =>
          (Ok search_error, w2, Searching query :: out2 ++ [ErrorDuringSearch e])
      end
  | _, _ => (Ok not_initialized_error, w, [])
  end.
Proof.
  intros Hini. unfold search, bind, get_self. rewrite Hini.
  unfold ret at 1. cbv iota beta.
  destruct (index (self w)) as [i|]; [|reflexivity].
  destruct (embedding_service (self w)) as [svc|]; [|reflexivity].
  unfold print, try_except, ret.
  destruct (search_body sq_l2 scalar_leb no_hit_distance i svc query k w)
    as [[[s|e] w2] out2]; simpl; try rewrite app_nil_r; reflexivity.
Qed.

Lemma search_lazy_split (query : str) (k : Z) (w : World) :
  _initialized (self w) = false ->
  exists w1 out1 r w2 out2,
    initialize w = (Ok tt, w1, out1) /\
    _initialized (self w1) = true /\
    search sq_l2 scalar_leb no_hit_distance query k w1 = (r, w2, out2) /\
    search sq_l2 scalar_leb no_hit_distance query k w = (r, w2, out1 ++ out2).
Proof.
  intros Hini.
  destruct (initialize_cases w) as [w1 [out1 [E [Ini _]]]].
  destruct (search sq_l2 scalar_leb no_hit_distance query k w1)
    as [[r w2] out2] eqn:E1.
  exists w1, out1, r, w2, out2.
  split; [exact E|]. split; [exact Ini|]. split; [exact E1|].
  rewrite (search_initialized_eq query k w1 Ini) in E1.
  unfold search, bind, get_self. rewrite Hini, E. cbv iota beta.
  destruct (index (self w1)) as [i|].
  2:{ unfold ret. injection E1 as <- <- <-. reflexivity. }
  destruct (embedding_service (self w1)) as [svc|].
  2:{ unfold ret. injection E1 as <- <- <-. reflexivity. }
  unfold print, try_except, ret.
  destruct (search_body sq_l2 scalar_leb no_hit_distance i svc query k w1)
    as [[[s|e] w3] out3]; injection E1 as <- <- <-; simpl;
    try rewrite app_nil_r; reflexivity.
Qed.

Lemma search_body_world (i : Index scalar) (svc : EmbeddingService scalar)
    (query : str) (k : Z) (w : World) :
  snd (fst (search_body sq_l2 scalar_leb no_hit_distance i svc query k w)) = called w.
Proof.
  rewrite search_body_eq.
  destruct (svc (calls w) [query]) as [[|v rest]|e]; try reflexivity.
  destruct (index_search sq_l2 scalar_leb no_hit_distance i v k)
    as [[distances indices]|e]; try reflexivity.
  destruct (chunks_at (chunks_with_content (self w)) indices); reflexivity.
Qed.

Lemma search_body_no_save (i : Index scalar) (svc : EmbeddingService scalar)
    (query : str) (k : Z) (w : World) :
  ~ In IndexSaved (snd (search_body sq_l2 scalar_leb no_hit_distance i svc query k w)).
Proof.
  rewrite search_body_eq.
  assert (O : forall indices,
            ~ In IndexSaved (out_of_bounds (chunks_with_content (self w)) indices)).
  { intros indices H. unfold out_of_bounds in H.
    apply in_map_iff in H as [j [Hj _]]. discriminate. }
  destruct (svc (calls w) [query]) as [[|v rest]|e]; simpl; try tauto.
  destruct (index_search sq_l2 scalar_leb no_hit_distance i v k)
    as [[distances indices]|e]; simpl; try tauto.
  destruct (chunks_at (chunks_with_content (self w)) indices); simpl;
    intros H; apply in_app_or in H as [H|[H|[]]];
    try discriminate; exact (O _ H).
Qed.

(** What [search] does to the world once the retriever is initialized. *)
Lemma search_initialized_world (query : str) (k : Z) (w w' : World)
    (r : Result str) (out : list message) :
  _initialized (self w) = true ->
  search sq_l2 scalar_leb no_hit_distance query k w = (r, w', out) ->
  ~ In IndexSaved out /\
  ((index (self w) <> None /\ embedding_service (self w) <> None /\ w' = called w) \/
   ((index (self w) = None \/ embedding_service (self w) = None) /\ w' = w /\
    r = Ok not_initialized_error)).
Proof.
  intros Hini E. rewrite (search_initialized_eq query k w Hini) in E.
  destruct (index (self w)) as [i|].
  2:{ injection E as <- <- <-. split; [simpl; tauto|]. right. auto. }
  destruct (embedding_service (self w)) as [svc|].
  2:{ injection E as <- <- <-. split; [simpl; tauto|]. right. auto. }
  pose proof (search_body_world i svc query k w) as Hw.
  pose proof (search_body_no_save i svc query k w) as Hs.
  destruct (search_body sq_l2 scalar_leb no_hit_distance i svc query k w)
    as [[[s|e] w2] out2]; simpl in Hw, Hs; injection E as <- <- <-; subst w2.
  - split; [|left; repeat split; discriminate].
    intros [H|H]; [discriminate | exact (Hs H)].
  - split; [|left; repeat split; discriminate].
    intros [H|H]; [discriminate|].
    apply in_app_or in H as [H|[H|[]]]; [exact (Hs H) | discriminate].
Qed.

(** *** The files *)

(** X1.  [initialize] is idempotent: it returns with the retriever marked
    initialized, and a second call then changes nothing, prints nothing and
    calls nothing. *)
Theorem X1_initialize_twice_is_initialize_once (w : World) :
  exists w' out,
    initialize w = (Ok tt, w', out) /\
    initialize w' = (Ok tt, w', []).
Proof.
  destruct (initialize_cases w) as [w' [out [E [Ini _]]]].
  exists w', out. split; [exact E|].
  unfold initialize, bind, get_self. rewrite Ini. reflexivity.
Qed.

(** X3.  [load] takes the artifact, without a rebuild, exactly when the
    index file can be read, the text file can be read, it gives at least
    one chunk and as many chunks as the index has vectors; nothing else of
    the two files is compared.  It then holds that index and those chunks,
    has written no file and has made no call to the embedding service. *)
Theorem X3_load_takes_the_artifact_iff_the_sizes_agree
    (w w' : World) (r : Result unit) (out : list message) :
  load w = (r, w', out) ->
  (load_succeeded out <->
   exists i content,
     read_index (index_file (disk w)) = Ok i /\
     read_text (text_file (disk w)) = Ok content /\
     artifact_chunks content <> [] /\
     length (artifact_chunks content) = ntotal i) /\
  (load_succeeded out ->
   exists i content,
     read_index (index_file (disk w)) = Ok i /\
     read_text (text_file (disk w)) = Ok content /\
     index (self w') = Some i /\
     chunks_with_content (self w') = artifact_chunks content /\
     disk w' = disk w /\ calls w' = calls w).
Proof.
  intros E.
  destruct (load_cases w) as [w1 [out1 [E1 C]]].
  rewrite E1 in E. injection E as _ <- <-.
  split; [split|].
  - intros S. destruct (load_case_loaded _ _ _ C S)
      as [i [content [Ei [Et [NE [Len _]]]]]].
    exists i, content. auto.
  - intros [i [content [Ei [Et [NE Len]]]]].
    destruct C as [i' content' _ _ _ _ _ ->|e w2 out2 F _ _].
    + eexists _, _. left. reflexivity.
    + exfalso. destruct F as [Ei' _|i' Ei' Et' _|i' content' Ei' Et' M _ _].
      * congruence.
      * congruence.
      * rewrite Ei in Ei'. injection Ei' as <-.
        rewrite Et in Et'. injection Et' as <-.
        destruct M as [M|M]; contradiction.
  - intros S. destruct (load_case_loaded _ _ _ C S)
      as [i [content [Ei [Et [_ [_ ->]]]]]].
    exists i, content. simpl. auto 10.
Qed.

(** X4.  On an initialized retriever [search] only reads: it leaves the
    retriever object and the files as they were and never initializes,
    builds or saves.  It calls the embedding service once when both the
    index and the service are set, and not at all otherwise. *)
Theorem X4_search_only_reads_once_initialized
    (w w' : World) (query : str) (k : Z) (r : Result str) (out : list message) :
  _initialized (self w) = true ->
  search sq_l2 scalar_leb no_hit_distance query k w = (r, w', out) ->
  self w' = self w /\ disk w' = disk w /\ ~ In IndexSaved out /\
  (index (self w) <> None /\ embedding_service (self w) <> None ->
   calls w' = S (calls w)) /\
  (index (self w) = None \/ embedding_service (self w) = None ->
   calls w' = calls w /\ out = [] /\ r = Ok not_initialized_error).
Proof.
  intros Hini E.
  destruct (search_initialized_world query k w w' r out Hini E)
    as [Hs [[Hi [Hsvc ->]] | [Hn [-> ->]]]].
  - split; [reflexivity|]. split; [reflexivity|]. split; [exact Hs|].
    split; [intros _; reflexivity|].
    intros [H|H]; contradiction.
  - split; [reflexivity|]. split; [reflexivity|]. split; [exact Hs|].
    split; [intros [Hi Hsvc]; destruct Hn; contradiction|].
    intros _. split; [reflexivity|]. split; [|reflexivity].
    rewrite (search_initialized_eq query k w Hini) in E.
    destruct (index (self w)); [|injection E as <-; reflexivity].
    destruct (embedding_service (self w)); [|injection E as <-; reflexivity].
    destruct Hn; discriminate.
Qed.

(** X5.  On a retriever that is not initialized yet, [search] is
    [initialize] followed by the search in the world that leaves: same
    result, same final world, the printed messages one after the other. *)
Theorem X5_search_initializes_first
    (w : World) (query : str) (k : Z) :
  _initialized (self w) = false ->
  exists w1 out1 r w2 out2,
    initialize w = (Ok tt, w1, out1) /\
    search sq_l2 scalar_leb no_hit_distance query k w1 = (r, w2, out2) /\
    search sq_l2 scalar_leb no_hit_distance query k w = (r, w2, out1 ++ out2) /\
    _initialized (self w2) = true.
Proof.
  intros Hini.
  destruct (search_lazy_split query k w Hini)
    as [w1 [out1 [r [w2 [out2 [Ei [Ini [Es E]]]]]]]].
  exists w1, out1, r, w2, out2. repeat split; try assumption.
  destruct (search_initialized_world query k w1 w2 r out2 Ini Es)
    as [_ [[_ [_ ->]] | [_ [-> _]]]]; exact Ini.
Qed.

Lemma index_search_labels (i : Index scalar) (q : vector scalar) (k : Z)
    (distances : list scalar) (indices : list Z) :
  index_search sq_l2 scalar_leb no_hit_distance i q k = Ok (distances, indices) ->
  length indices = Z.to_nat k /\ length distances = Z.to_nat k.
Proof.
  unfold index_search.
  destruct (negb (length q =? d i)); [discriminate|].
  destruct (k <=? 0)%Z; [discriminate|].
  intros E. injection E as <- <-.
  rewrite !length_app, !repeat_length, !length_map, length_firstn. lia.
Qed.

(** X6.  A restart takes what a build saved: after a successful build (the
    embedding service keeping its contract) whose chunks are separable, a
    retriever made anew over the files the build left, with or without an
    embedding service, is initialized by loading them: nothing is rebuilt,
    no file is written, the embedding service is not called, and the index
    and the chunks are those of the build. *)
Theorem X6_restart_loads_what_the_build_saved
    (w0 w1 : World) (r : Result unit) (out : list message)
    (svc' : option (EmbeddingService scalar)) (n : nat) :
  build w0 = (r, w1, out) ->
  build_succeeded out ->
  (forall svc, embedding_service (self w0) = Some svc -> count_preserving svc) ->
  Forall (separable marker) (chunks_with_content (self w1)) ->
  exists w2,
    initialize {| self := __init__ svc'; disk := disk w1; calls := n |}
    = (Ok tt, w2,
       [LoadingExistingIndex;
        IndexLoaded (Some (length (chunks_with_content (self w1))))
                    (length (chunks_with_content (self w1)))]) /\
    _initialized (self w2) = true /\
    index (self w2) = index (self w1) /\
    chunks_with_content (self w2) = chunks_with_content (self w1) /\
    disk w2 = disk w1 /\
    calls w2 = n.
Proof.
  intros E S Hsvc Hsep.
  destruct (build_cases w0) as [w' [out' [E' C]]].
  rewrite E' in E. injection E as _ <- <-.
  destruct (build_case_size_invariant _ _ _ C S Hsvc) as [i [Hi Hsize]].
  destruct (build_case_succeeded _ _ _ C S)
    as [svc [content [embeddings [dim [_ [Er [NE [_ [_ [Hi' [Ec Ed]]]]]]]]]]].
  assert (T : chunks_trimmed (self w')).
  { unfold chunks_trimmed. rewrite Ec. apply corpus_chunks_trimmed. }
  assert (N : Forall no_CR (chunks_with_content (self w'))).
  { rewrite Ec. apply corpus_chunks_no_CR. exact (read_text_no_CR _ _ Er). }
  assert (NE' : chunks_with_content (self w') <> []) by (rewrite Ec; exact NE).
  destruct (save_load_restores w' i (__init__ svc') n Hi NE' Hsize T N Hsep)
    as [ws [Es El]].
  assert (Ds : disk ws = disk w').
  { rewrite save_eq, Hi in Es. injection Es as <-. simpl.
    rewrite Hi in Hi'. injection Hi' as ->.
    rewrite Ed, Ec. reflexivity. }
  rewrite Ds in El.
  eexists. split.
  - unfold initialize, bind, get_self, get_disk. simpl.
    rewrite Ed. simpl. unfold print. rewrite <- Ed.
    rewrite El. simpl. rewrite Hsize. reflexivity.
  - simpl. rewrite Ed. auto.
Qed.

(** X7.  A build starts from nothing: what a successful build leaves as
    index, chunks, index file and text file depends on the knowledge file
    and on the answer of the embedding service only, not on the index, the
    chunks or the files that were there before. *)
Theorem X7_build_does_not_depend_on_what_was_there
    (w v w' : World) (r : Result unit) (out : list message) :
  build w = (r, w', out) ->
  build_succeeded out ->
  embedding_service (self v) = embedding_service (self w) ->
  knowledge_file (disk v) = knowledge_file (disk w) ->
  calls v = calls w ->
  exists v',
    build v = (Ok tt, v', out) /\
    index (self v') = index (self w') /\
    chunks_with_content (self v') = chunks_with_content (self w') /\
    index_file (disk v') = index_file (disk w') /\
    text_file (disk v') = text_file (disk w').
Proof.
  intros E S Hs Hk Hc.
  destruct (build_cases w) as [w1 [out1 [E1 C]]].
  rewrite E1 in E. injection E as _ <- <-.
  destruct C as [_ _ ->|? ? _ _ _ ->|? ? _ _ _ _ ->|? ? ? _ _ _ _ _ ->
                |svc content embeddings dim Es Er NE Eg Ea Esh -> ->];
    try (exfalso; unfold build_succeeded in S; simpl in S;
         repeat (destruct S as [S|S]; [discriminate|]); contradiction).
  destruct (build_cases v) as [v' [out' [Ev C]]].
  exists v'. rewrite <- Hs in Es. rewrite <- Hk in Er. rewrite <- Hc in Eg.
  destruct C as [Es' _ _|svc' e Es' Er' _ _|svc' content' Es' Er' Ec' _ _
                |svc' content' e Es' Er' NE' F _ _
                |svc' content' embeddings' dim' Es' Er' NE' Eg' Ea' Esh' -> ->].
  - congruence.
  - congruence.
  - exfalso. rewrite Er in Er'. injection Er' as <-. contradiction.
  - exfalso. rewrite Er in Er'. injection Er' as <-.
    rewrite Es in Es'. injection Es' as <-.
    destruct F as [F | [embeddings' [Eg' [F | F]]]]; congruence.
  - rewrite Er in Er'. injection Er' as <-.
    rewrite Es in Es'. injection Es' as <-.
    rewrite Eg in Eg'. injection Eg' as <-.
    rewrite Esh in Esh'. injection Esh' as <-.
    split; [exact Ev|]. simpl. auto.
Qed.

(** X8.  With an index but no stored chunk (what a failed rebuild can leave
    behind), a query that reaches the index finds no label inside the chunk
    list: [search] warns once for each of the [k] labels and answers with
    the fixed text that no relevant information was found. *)
Theorem X8_search_without_chunks_finds_nothing
    (w : World) (i : Index scalar) (svc : EmbeddingService scalar)
    (query : str) (k : Z) (v : vector scalar) (rest : list (vector scalar)) :
  _initialized (self w) = true ->
  index (self w) = Some i ->
  embedding_service (self w) = Some svc ->
  chunks_with_content (self w) = [] ->
  svc (calls w) [query] = Ok (v :: rest) ->
  length v = d i ->
  (0 < k)%Z ->
  exists labels,
    length labels = Z.to_nat k /\
    search sq_l2 scalar_leb no_hit_distance query k w
    = (Ok no_relevant_information, called w,
       Searching query :: map IndexOutOfBounds labels ++ [NoRelevantDocuments]).
Proof.
  intros Hini Hidx Hsvc Hc Hemb Hdim Hk.
  destruct (index_search sq_l2 scalar_leb no_hit_distance i v k)
    as [[distances indices]|e] eqn:Eq.
  2:{ rewrite (index_search_eq i v k Hdim Hk) in Eq. discriminate. }
  exists indices. split; [exact (proj1 (index_search_labels _ _ _ _ _ Eq))|].
  rewrite (search_initialized_eq query k w Hini), Hidx, Hsvc.
  rewrite search_body_eq, Hemb, Eq, Hc.
  assert (R : forall j, in_range 0 j = false).
  { intros j. unfold in_range. simpl.
    destruct (Z.leb_spec 0 j); destruct (Z.ltb_spec j 0); simpl; try reflexivity; lia. }
  assert (A : forall l, chunks_at [] l = []).
  { intros l. unfold chunks_at. simpl.
    induction l as [|j l IH]; simpl; [reflexivity|]. rewrite R. exact IH. }
  assert (B : forall l, out_of_bounds [] l = map IndexOutOfBounds l).
  { intros l. unfold out_of_bounds. simpl. f_equal.
    induction l as [|j l IH]; simpl; [reflexivity|]. rewrite R. simpl.
    f_equal. exact IH. }
  rewrite A, B. reflexivity.
Qed.

End MethodFacts.

(* ================================================================== *)
(** * The upload and chat endpoints *)
(* ================================================================== *)

Section RagFacts.

Variable scalar : Type.
Variable sq_l2 : list scalar -> list scalar -> scalar.
Variable scalar_leb : scalar -> scalar -> bool.
Variable no_hit_distance : scalar.
Variable relevance : scalar -> scalar.

Lemma for_texts_Ok (provider : Rag.Provider scalar) (texts : list str) :
  forall n acc rows n',
    Rag.for_texts provider texts n acc = (Ok rows, n') ->
    n' = n + length texts /\
    exists new, rows = acc ++ new /\ length new = length texts /\
      forall j, j < length texts ->
        provider (n + j) retrieval_document (nth j texts []) = Ok (nth j new []).
Proof.
  induction texts as [|t rest IH]; intros n acc rows n' E; simpl in E.
  - injection E as <- <-. split; [simpl; lia|].
    exists []. rewrite app_nil_r. split; [reflexivity|]. split; [reflexivity|].
    simpl. intros j Hj. lia.
  - destruct (provider n retrieval_document t) as [v|e] eqn:Ep; [|discriminate].
    destruct (IH _ _ _ _ E) as [-> [new [-> [L H]]]].
    split; [simpl; lia|].
    exists (v :: new). rewrite <- app_assoc. split; [reflexivity|].
    split; [simpl; lia|].
    intros [|j] Hj; simpl.
    + rewrite Nat.add_0_r. exact Ep.
    + replace (n + S j) with (S n + j) by lia. apply H. simpl in Hj. lia.
Qed.

Lemma for_texts_Raise (provider : Rag.Provider scalar) (texts : list str) :
  forall n acc e n',
    Rag.for_texts provider texts n acc = (Raise e, n') ->
    exists j, j < length texts /\
      provider (n + j) retrieval_document (nth j texts []) = Raise e /\
      n' = S (n + j) /\
      forall i, i < j ->
        exists row, provider (n + i) retrieval_document (nth i texts []) = Ok row.
Proof.
  induction texts as [|t rest IH]; intros n acc e n' E; simpl in E; [discriminate|].
  destruct (provider n retrieval_document t) as [v|e'] eqn:Ep.
  - destruct (IH _ _ _ _ E) as [j [Hj [Ej [-> Hi]]]].
    exists (S j). split; [simpl; lia|].
    replace (n + S j) with (S n + j) by lia.
    split; [exact Ej|]. split; [reflexivity|].
    intros [|i] Hlt; simpl.
    + rewrite Nat.add_0_r. exists v. exact Ep.
    + replace (n + S i) with (S n + i) by lia. apply Hi. lia.
  - injection E as <- <-. exists 0. rewrite Nat.add_0_r.
    split; [simpl; lia|]. split; [exact Ep|]. split; [reflexivity|].
    intros i Hi. lia.
Qed.

Lemma np_array_rows (embeddings a : list (vector scalar)) :
  np_array embeddings = Ok a ->
  a = embeddings /\
  forall r1 r2, In r1 a -> In r2 a -> length r1 = length r2.
Proof.
  unfold np_array. destruct embeddings as [|r rest].
  - intros E. injection E as <-. split; [reflexivity|]. intros r1 r2 [].
  - destruct (forallb (fun r' => length r' =? length r) rest) eqn:F; [|discriminate].
    intros E. injection E as <-. split; [reflexivity|].
    rewrite forallb_forall in F.
    assert (A : forall x, In x (r :: rest) -> length x = length r).
    { intros x [<-|Hx]; [reflexivity|]. apply Nat.eqb_eq. apply F. exact Hx. }
    intros r1 r2 H1 H2. rewrite (A _ H1), (A _ H2). reflexivity.
Qed.

Lemma generate_embeddings_Ok (provider : Rag.Provider scalar) (texts : list str)
    (n : nat) (rows : list (vector scalar)) (n' : nat) :
  Rag.generate_embeddings provider texts n = (Ok rows, n') ->
  n' = n + length texts /\ length rows = length texts.
Proof.
  unfold Rag.generate_embeddings.
  destruct (Rag.for_texts provider texts n []) as [[embeddings|e] m] eqn:E;
    [|discriminate].
  intros H. injection H as Ha <-.
  destruct (np_array_rows _ _ Ha) as [-> _].
  destruct (for_texts_Ok _ _ _ _ _ _ E) as [-> [new [-> [L _]]]].
  simpl. auto.
Qed.

Lemma build_faiss_index_Ok (embeddings : list (vector scalar)) (i : Index scalar) :
  build_faiss_index embeddings = Ok i ->
  ntotal i = length embeddings /\ 1 <= length embeddings /\ xb i = embeddings.
Proof.
  unfold build_faiss_index, shape_1.
  destruct embeddings as [|r rest]; [discriminate|].
  intros E. injection E as <-. unfold ntotal. simpl. split; [reflexivity|].
  split; [lia|reflexivity].
Qed.

(** The ways of [upload_file]. *)
Lemma upload_file_cases (provider : Rag.Provider scalar) (file : Rag.UploadFile)
    (st : Rag.State scalar) :
  (Rag.filename file = None /\
   Rag.upload_file provider file st = (Raises (Library AttributeError), st)) \/
  (exists name, Rag.filename file = Some name /\
     endswith name (lit ".txt") = false /\
     Rag.upload_file provider file st
     = (Raises (HTTPException 400 (Text Rag.only_txt_files)), st)) \/
  (exists name, Rag.filename file = Some name /\
     endswith name (lit ".txt") = true /\
     ((Rag.content file = None /\
       Rag.upload_file provider file st
       = (Raises (HTTPException 400 (Text Rag.encoding_error)), st)) \/
      (exists text, Rag.content file = Some text /\ length text < 10 /\
         Rag.upload_file provider file st
         = (Raises (HTTPException 500
                      (StrOf (HTTPException 400 (Text Rag.content_too_short)))), st)) \/
      (exists text, Rag.content file = Some text /\ 10 <= length text /\
         ((exists e n,
             (Rag.generate_embeddings provider (chunk_text text) (Rag.embed_calls st)
              = (Raise e, n) \/
              exists embeddings,
                Rag.generate_embeddings provider (chunk_text text) (Rag.embed_calls st)
                = (Ok embeddings, n) /\
                build_faiss_index embeddings = Raise e) /\
             Rag.upload_file provider file st
             = (Raises (Rag.upload_except (Library e)),
                Rag.with_text_chunks st (chunk_text text) n)) \/
          (exists embeddings n i,
             Rag.generate_embeddings provider (chunk_text text) (Rag.embed_calls st)
             = (Ok embeddings, n) /\
             build_faiss_index embeddings = Ok i /\
             Rag.upload_file provider file st
             = (Returns {| Rag.status := lit "success";
                           Rag.message := lit "File '" ++ name ++
                                          lit "' uploaded and indexed successfully";
                           Rag.chunks_created := length (chunk_text text);
                           Rag.ready_for_chat := true |},
                {| Rag.globals := {| faiss_index := Some i;
                                     text_chunks := Some (chunk_text text);
                                     is_ready := true |};
                   Rag.embed_calls := n;
                   Rag.generate_calls := Rag.generate_calls st |})))))).
Proof.
  unfold Rag.upload_file, Rag.upload_body.
  destruct (Rag.filename file) as [name|]; [|left; auto].
  right. destruct (endswith name (lit ".txt")) eqn:Ee; simpl negb; cbv iota.
  2:{ left. exists name. auto. }
  right. exists name. split; [reflexivity|]. split; [exact Ee|].
  destruct (Rag.content file) as [text|]; [|left; auto].
  right. destruct (Nat.ltb_spec (length text) 10) as [Hl|Hl].
  { left. exists text. auto. }
  right. exists text. split; [reflexivity|]. split; [exact Hl|].
  destruct (Rag.generate_embeddings provider (chunk_text text) (Rag.embed_calls st))
    as [[embeddings|e] n] eqn:Eg.
  - destruct (build_faiss_index embeddings) as [i|e] eqn:Eb.
    + right. exists embeddings, n, i. auto.
    + left. exists e, n. split; [|reflexivity]. right. exists embeddings. auto.
  - left. exists e, n. split; [|reflexivity]. left. reflexivity.
Qed.

(** The ways of [chat]. *)
Lemma chat_cases (provider : Rag.Provider scalar) (model : nat -> str -> Result str)
    (request : Rag.ChatRequest) (st : Rag.State scalar) :
  (is_ready (Rag.globals st) = false /\
   Rag.chat sq_l2 scalar_leb no_hit_distance relevance provider model request st
   = (Raises (HTTPException 400 (Text Rag.upload_first)), st)) \/
  (is_ready (Rag.globals st) = true /\
   length (strip (Rag.question request)) < 3 /\
   Rag.chat sq_l2 scalar_leb no_hit_distance relevance provider model request st
   = (Raises (HTTPException 400 (Text Rag.question_too_short)), st)) \/
  (is_ready (Rag.globals st) = true /\
   3 <= length (strip (Rag.question request)) /\
   ((exists e,
       search_faiss sq_l2 scalar_leb no_hit_distance (Rag.globals st)
         (provider (Rag.embed_calls st) retrieval_query)
         (Rag.question request) (Rag.top_k request) = Raise e /\
       Rag.chat sq_l2 scalar_leb no_hit_distance relevance provider model request st
       = (Raises (HTTPException 500 (StrOf (Library e))),
          {| Rag.globals := Rag.globals st;
             Rag.embed_calls := S (Rag.embed_calls st);
             Rag.generate_calls := Rag.generate_calls st |})) \/
    (search_faiss sq_l2 scalar_leb no_hit_distance (Rag.globals st)
       (provider (Rag.embed_calls st) retrieval_query)
       (Rag.question request) (Rag.top_k request) = Ok [] /\
     Rag.chat sq_l2 scalar_leb no_hit_distance relevance provider model request st
     = (Returns {| Rag.response_question := Rag.question request;
                   Rag.answer := Rag.nothing_relevant;
                   Rag.sources := [] |},
        {| Rag.globals := Rag.globals st;
           Rag.embed_calls := S (Rag.embed_calls st);
           Rag.generate_calls := Rag.generate_calls st |})) \/
    (exists retrieved,
       search_faiss sq_l2 scalar_leb no_hit_distance (Rag.globals st)
         (provider (Rag.embed_calls st) retrieval_query)
         (Rag.question request) (Rag.top_k request) = Ok retrieved /\
       retrieved <> [] /\
       ((exists e,
           model (Rag.generate_calls st)
             (Rag.prompt (join [LF; LF] (map text retrieved)) (Rag.question request))
           = Raise e /\
           Rag.chat sq_l2 scalar_leb no_hit_distance relevance provider model request st
           = (Raises (HTTPException 500 (StrOf (Library e))),
              {| Rag.globals := Rag.globals st;
                 Rag.embed_calls := S (Rag.embed_calls st);
                 Rag.generate_calls := S (Rag.generate_calls st) |})) \/
        (exists a,
           model (Rag.generate_calls st)
             (Rag.prompt (join [LF; LF] (map text retrieved)) (Rag.question request))
           = Ok a /\
           Rag.chat sq_l2 scalar_leb no_hit_distance relevance provider model request st
           = (Returns {| Rag.response_question := Rag.question request;
                         Rag.answer := a;
                         Rag.sources := map (Rag.source_of relevance) retrieved |},
              {| Rag.globals := Rag.globals st;
                 Rag.embed_calls := S (Rag.embed_calls st);
                 Rag.generate_calls := S (Rag.generate_calls st) |})))))).
Proof.
  unfold Rag.chat.
  destruct (is_ready (Rag.globals st)) eqn:Er; simpl negb; cbv iota; [|left; auto].
  right.
  assert (Q : (match Rag.question request with [] => true | _ :: _ => false end
               || (length (strip (Rag.question request)) <? 3))
              = (length (strip (Rag.question request)) <? 3)).
  { destruct (Rag.question request); reflexivity. }
  rewrite Q.
  destruct (Nat.ltb_spec (length (strip (Rag.question request))) 3) as [Hl|Hl];
    [left; auto|].
  right. split; [reflexivity|]. split; [exact Hl|].
  unfold Rag.chat_body, Rag.generate_answer. rewrite Er.
  destruct (search_faiss sq_l2 scalar_leb no_hit_distance (Rag.globals st)
              (provider (Rag.embed_calls st) retrieval_query)
              (Rag.question request) (Rag.top_k request))
    as [[|c retrieved]|e].
  - right. left. auto.
  - right. right. exists (c :: retrieved). split; [reflexivity|].
    split; [discriminate|].
    destruct (model (Rag.generate_calls st)
                (Rag.prompt (join [LF; LF] (map text (c :: retrieved)))
                   (Rag.question request))) as [a|e].
    + right. exists a. auto.
    + left. exists e. auto.
  - left. exists e. auto.
Qed.

Lemma for_ranked_ranks (chunks : option (list str)) (hits : list (Z * scalar)) :
  forall rank0 acc res,
    for_ranked chunks rank0 hits acc = Ok res ->
    exists new, res = acc ++ new /\ length new <= length hits /\
      Forall (fun c => rank0 <= rank c < rank0 + length hits) new /\
      StronglySorted lt (map rank new) /\
      match chunks with
      | Some l => Forall (fun c => In (text c) l) new
      | None => new = []
      end.
Proof.
  induction hits as [|[idx dist] rest IH]; intros rank0 acc res E; simpl in E.
  - injection E as <-. exists []. rewrite app_nil_r.
    split; [reflexivity|]. split; [simpl; lia|]. split; [constructor|].
    split; [constructor|]. destruct chunks; [constructor|reflexivity].
  - match goal with
    | |- ?G => assert (Skip : for_ranked chunks (S rank0) rest acc = Ok res -> G)
    end.
    { intros E'. destruct (IH _ _ _ E') as [new [-> [L [R [S T]]]]].
      exists new. split; [reflexivity|]. split; [simpl; lia|].
      split; [|split; [exact S|exact T]].
      eapply Forall_impl; [|exact R]. simpl. intros c Hc. lia. }
    destruct (0 <=? idx)%Z eqn:E0; [|exact (Skip E)].
    destruct chunks as [l|]; [|discriminate].
    destruct (idx <? Z.of_nat (length l))%Z eqn:E1; [|exact (Skip E)].
    destruct (IH _ _ _ E) as [new [-> [L [R [S T]]]]].
    exists ({| rank := rank0; text := nth (Z.to_nat idx) l []; distance := dist |}
              :: new).
    rewrite <- app_assoc. split; [reflexivity|]. split; [simpl; lia|].
    split.
    { constructor; [simpl; lia|].
      eapply Forall_impl; [|exact R]. simpl. intros c Hc. lia. }
    split.
    { simpl. constructor; [exact S|]. apply Forall_map.
      eapply Forall_impl; [|exact R]. simpl. intros c Hc. lia. }
    constructor; [|exact T]. simpl. apply nth_In.
    apply Z.leb_le in E0. apply Z.ltb_lt in E1. lia.
Qed.

Lemma search_faiss_Ok (g : RagGlobals scalar) (embed_content : str -> Result (vector scalar))
    (query : str) (k : Z) (retrieved : list (Retrieved scalar)) :
  search_faiss sq_l2 scalar_leb no_hit_distance g embed_content query k = Ok retrieved ->
  length retrieved <= Z.to_nat k /\
  Forall (fun c => 1 <= rank c <= Z.to_nat k) retrieved /\
  StronglySorted lt (map rank retrieved) /\
  forall l, text_chunks g = Some l -> Forall (fun c => In (text c) l) retrieved.
Proof.
  unfold search_faiss. destruct (is_ready g); simpl negb; cbv iota.
  2:{ intros E. injection E as <-. simpl.
      split; [lia|]. split; [constructor|]. split; [constructor|].
      intros l _. constructor. }
  destruct (embed_content query) as [v|]; [|discriminate].
  destruct (faiss_index g) as [i|]; [|discriminate].
  destruct (index_search sq_l2 scalar_leb no_hit_distance i v k)
    as [[distances indices]|] eqn:Es; [|discriminate].
  intros E.
  destruct (index_search_labels _ _ _ _ _ _ _ _ _ Es) as [Li Ld].
  destruct (for_ranked_ranks _ _ _ _ _ E) as [new [-> [L [R [S T]]]]].
  rewrite length_combine, Li, Ld, Nat.min_id in *. simpl.
  split; [exact L|].
  split; [eapply Forall_impl; [|exact R]; simpl; intros c Hc; lia|].
  split; [exact S|].
  intros l El. rewrite El in T. exact T.
Qed.

Lemma source_text_length (c : Retrieved scalar) :
  length (Rag.source_text (Rag.source_of relevance c)) <= 203.
Proof.
  unfold Rag.source_of. cbn [Rag.source_text].
  destruct (200 <? length (text c)) eqn:H.
  - rewrite length_app, length_firstn. cbn [lit length].
    change (length (lit "...")) with 3. lia.
  - apply Nat.ltb_ge in H. exact (Nat.le_trans _ _ _ H (Nat.le_add_r 200 3)).
Qed.

Lemma reachable_ready (st : Rag.State scalar) :
  Rag.reachable sq_l2 scalar_leb no_hit_distance relevance st ->
  (is_ready (Rag.globals st) = true ->
   exists i l, faiss_index (Rag.globals st) = Some i /\
     text_chunks (Rag.globals st) = Some l /\ 1 <= ntotal i) /\
  (is_ready (Rag.globals st) = false -> faiss_index (Rag.globals st) = None).
Proof.
  induction 1 as [|st n m _ IH|provider file st r st' _ IH E
                  |provider model request st r st' _ IH E].
  - simpl. split; [discriminate|reflexivity].
  - exact IH.
  - destruct (upload_file_cases provider file st)
      as [[_ E1]|[[name [_ [_ E1]]]|[name [_ [_ [[_ E1]|[[text [_ [_ E1]]]
         |[text [_ [_ [[e [n [_ E1]]]|[embeddings [n [i [Eg [Eb E1]]]]]]]]]]]]]]]];
      rewrite E1 in E; injection E as _ <-; try exact IH.
    + destruct IH as [IH1 IH2]. simpl. split; [|exact IH2].
      intros R. destruct (IH1 R) as [i [l [Hi [_ Hn]]]].
      exists i, (chunk_text text). auto.
    + simpl. split; [|discriminate]. intros _.
      destruct (build_faiss_index_Ok _ _ Eb) as [Hn [H1 _]].
      exists i, (chunk_text text). split; [reflexivity|]. split; [reflexivity|]. lia.
  - assert (G : Rag.globals st' = Rag.globals st).
    { destruct (chat_cases provider model request st)
        as [[_ E1]|[[_ [_ E1]]|[_ [_ [[e [_ E1]]|[[_ E1]
           |[retrieved [_ [_ [[e [_ E1]]|[a [_ E1]]]]]]]]]]]];
        rewrite E1 in E; injection E as _ <-; reflexivity. }
    rewrite G. exact IH.
Qed.

(** X9.  When [generate_embeddings] returns, it has called the provider
    once for each text, in the order of the texts and as a document to
    retrieve, and the array holds the answers in that order, one row for
    each text, all rows of one length. *)
Theorem X9_generate_embeddings_gives_one_row_for_each_text
    (provider : Rag.Provider scalar) (texts : list str) (n : nat)
    (rows : list (vector scalar)) (n' : nat) :
  Rag.generate_embeddings provider texts n = (Ok rows, n') ->
  n' = n + length texts /\ length rows = length texts /\
  (forall j, j < length texts ->
     provider (n + j) retrieval_document (nth j texts []) = Ok (nth j rows [])) /\
  (forall r1 r2, In r1 rows -> In r2 rows -> length r1 = length r2).
Proof.
  unfold Rag.generate_embeddings.
  destruct (Rag.for_texts provider texts n []) as [[embeddings|e] m] eqn:E;
    [|discriminate].
  intros H. injection H as Ha <-.
  destruct (np_array_rows _ _ Ha) as [-> Hr].
  destruct (for_texts_Ok _ _ _ _ _ _ E) as [-> [new [-> [L H]]]].
  simpl in *. auto.
Qed.

(** X10.  When [generate_embeddings] raises, either a call to the provider
    raised that exception, every earlier call had answered and no later
    text was sent; or every text was answered and the exception is the
    [ValueError] of [np.array] over rows of different lengths. *)
Theorem X10_generate_embeddings_stops_at_the_first_failure
    (provider : Rag.Provider scalar) (texts : list str) (n : nat)
    (e : exn) (n' : nat) :
  Rag.generate_embeddings provider texts n = (Raise e, n') ->
  (exists j, j < length texts /\
     provider (n + j) retrieval_document (nth j texts []) = Raise e /\
     n' = S (n + j) /\
     forall i, i < j ->
       exists row, provider (n + i) retrieval_document (nth i texts []) = Ok row) \/
  (e = ValueError /\ n' = n + length texts /\
   exists rows, length rows = length texts /\
     (forall j, j < length texts ->
        provider (n + j) retrieval_document (nth j texts []) = Ok (nth j rows [])) /\
     exists r1 r2, In r1 rows /\ In r2 rows /\ length r1 <> length r2).
Proof.
  unfold Rag.generate_embeddings.
  destruct (Rag.for_texts provider texts n []) as [[embeddings|e'] m] eqn:E.
  - intros H. injection H as Ha <-. right.
    destruct (for_texts_Ok _ _ _ _ _ _ E) as [-> [new [-> [L H]]]]. simpl in *.
    unfold np_array in Ha. destruct new as [|r rest]; [discriminate|].
    destruct (forallb (fun r' => length r' =? length r) rest) eqn:F; [discriminate|].
    injection Ha as <-. split; [reflexivity|]. split; [reflexivity|].
    exists (r :: rest). split; [exact L|]. split; [exact H|].
    assert (X : exists x, In x rest /\ (length x =? length r) = false).
    { clear -F. induction rest as [|x rest IH]; [discriminate|]. simpl in F.
      destruct (length x =? length r) eqn:Ex.
      - destruct (IH F) as [y [Hy Ey]]. exists y. split; [right; exact Hy|exact Ey].
      - exists x. split; [left; reflexivity|exact Ex]. }
    destruct X as [x [Hx Ex]]. exists x, r.
    split; [right; exact Hx|]. split; [left; reflexivity|].
    apply Nat.eqb_neq. exact Ex.
  - intros H. injection H as <- <-. left. exact (for_texts_Raise _ _ _ _ _ _ E).
Qed.

(** X11.  An upload that is answered has taken a file whose name ends in
    [.txt] and whose text has ten characters or more; it leaves the module
    ready, with the chunks of that text and an index of as many vectors,
    at least one; [chunks_created] is that number, the provider was called
    once for each chunk and the model not at all. *)
Theorem X11_an_answered_upload_leaves_index_and_chunks_of_one_size
    (provider : Rag.Provider scalar) (file : Rag.UploadFile)
    (st : Rag.State scalar) (resp : Rag.UploadResponse) (st' : Rag.State scalar) :
  Rag.upload_file provider file st = (Returns resp, st') ->
  exists name text i,
    Rag.filename file = Some name /\ endswith name (lit ".txt") = true /\
    Rag.content file = Some text /\ 10 <= length text /\
    Rag.globals st' = {| faiss_index := Some i;
                         text_chunks := Some (chunk_text text);
                         is_ready := true |} /\
    ntotal i = length (chunk_text text) /\ 1 <= ntotal i /\
    Rag.chunks_created resp = ntotal i /\
    Rag.ready_for_chat resp = true /\
    Rag.embed_calls st' = Rag.embed_calls st + ntotal i /\
    Rag.generate_calls st' = Rag.generate_calls st.
Proof.
  intros E.
  destruct (upload_file_cases provider file st)
    as [[_ E1]|[[name [_ [_ E1]]]|[name [En [Ee [[_ E1]|[[text [_ [_ E1]]]
       |[text [Ec [Hl [[e [n [_ E1]]]|[embeddings [n [i [Eg [Eb E1]]]]]]]]]]]]]]]];
    rewrite E1 in E; try discriminate E.
  injection E as <- <-.
  destruct (generate_embeddings_Ok _ _ _ _ _ Eg) as [-> Hr].
  destruct (build_faiss_index_Ok _ _ Eb) as [Hn [H1 _]].
  exists name, text, i. simpl. rewrite Hn, Hr.
  repeat (split; [first [reflexivity | assumption | lia]|]). reflexivity.
Qed.

(** X12.  An upload that raises leaves the index and the ready flag as they
    were and has not called the model.  Either it changed nothing at all
    (the file was turned down before its text was chunked), or the chunks
    of the new text are already stored, beside the index of before. *)
Theorem X12_a_failed_upload_keeps_the_index_and_the_ready_flag
    (provider : Rag.Provider scalar) (file : Rag.UploadFile)
    (st : Rag.State scalar) (e : raised) (st' : Rag.State scalar) :
  Rag.upload_file provider file st = (Raises e, st') ->
  faiss_index (Rag.globals st') = faiss_index (Rag.globals st) /\
  is_ready (Rag.globals st') = is_ready (Rag.globals st) /\
  Rag.generate_calls st' = Rag.generate_calls st /\
  (st' = st \/
   exists text, Rag.content file = Some text /\ 10 <= length text /\
     text_chunks (Rag.globals st') = Some (chunk_text text)).
Proof.
  intros E.
  destruct (upload_file_cases provider file st)
    as [[_ E1]|[[name [_ [_ E1]]]|[name [En [Ee [[_ E1]|[[text [_ [_ E1]]]
       |[text [Ec [Hl [[x [n [_ E1]]]|[embeddings [n [i [Eg [Eb E1]]]]]]]]]]]]]]]];
    rewrite E1 in E; try discriminate E; injection E as _ <-;
    try (split; [reflexivity|]; split; [reflexivity|]; split; [reflexivity|];
         left; reflexivity).
  simpl. split; [reflexivity|]. split; [reflexivity|]. split; [reflexivity|].
  right. exists text. auto.
Qed.

(** X13.  A [.txt] file whose text has fewer than ten characters is not
    answered with the status 400 the body raises: that exception is raised
    inside the [try] block and caught by [except Exception], so the answer
    has status 500, with the string of the 400 exception as its detail.
    Nothing is changed. *)
Theorem X13_a_short_file_is_answered_with_status_500
    (provider : Rag.Provider scalar) (file : Rag.UploadFile)
    (st : Rag.State scalar) (name text : str) :
  Rag.filename file = Some name ->
  endswith name (lit ".txt") = true ->
  Rag.content file = Some text ->
  length text < 10 ->
  Rag.upload_file provider file st
  = (Raises (HTTPException 500
               (StrOf (HTTPException 400 (Text Rag.content_too_short)))), st).
Proof.
  intros En Ee Ec Hl.
  destruct (upload_file_cases provider file st)
    as [[En' _]|[[name' [En' [Ee' _]]]|[name' [En' [_ [[Ec' _]|[[text' [_ [_ E1]]]
       |[text' [Ec' [Hl' _]]]]]]]]]].
  - congruence.
  - assert (name' = name) by congruence. subst. congruence.
  - congruence.
  - exact E1.
  - assert (text' = text) by congruence. subst. lia.
Qed.

(** X14.  In every state the module can reach, when [root] reports the
    module as ready the index and the chunk list are both set, the index
    holds at least one vector and [chunks_loaded] is the number of stored
    chunks; and as long as it reports it as not ready there is no index. *)
Theorem X14_ready_means_an_index_and_chunks_are_set (st : Rag.State scalar) :
  Rag.reachable sq_l2 scalar_leb no_hit_distance relevance st ->
  (Rag.ready (Rag.root st) = true ->
   exists i l, faiss_index (Rag.globals st) = Some i /\
     text_chunks (Rag.globals st) = Some l /\ 1 <= ntotal i /\
     Rag.chunks_loaded (Rag.root st) = length l) /\
  (Rag.ready (Rag.root st) = false -> faiss_index (Rag.globals st) = None).
Proof.
  intros H. destruct (reachable_ready st H) as [H1 H2].
  unfold Rag.root. cbn [Rag.ready Rag.chunks_loaded].
  split; [|exact H2].
  intros R. destruct (H1 R) as [i [l [Hi [Hc Hn]]]].
  exists i, l. split; [exact Hi|]. split; [exact Hc|]. split; [exact Hn|].
  rewrite Hc. destruct l; reflexivity.
Qed.


(** X16.  An answer of [chat] repeats the question and lists one source
    for each retrieved chunk, in the order of retrieval: at most [top_k]
    of them, their ranks increasing and between 1 and [top_k], no source
    text longer than 203 characters.  When nothing was retrieved the answer
    is the fixed text and the model was not called; otherwise the answer
    is what the model gave for the prompt over the retrieved texts and the
    question. *)
Theorem X16_chat_answers_with_one_source_for_each_retrieved_chunk
    (provider : Rag.Provider scalar) (model : nat -> str -> Result str)
    (request : Rag.ChatRequest) (st : Rag.State scalar)
    (resp : Rag.ChatResponse scalar) (st' : Rag.State scalar) :
  Rag.chat sq_l2 scalar_leb no_hit_distance relevance provider model request st
  = (Returns resp, st') ->
  Rag.response_question resp = Rag.question request /\
  exists retrieved,
    search_faiss sq_l2 scalar_leb no_hit_distance (Rag.globals st)
      (provider (Rag.embed_calls st) retrieval_query)
      (Rag.question request) (Rag.top_k request) = Ok retrieved /\
    Rag.sources resp = map (Rag.source_of relevance) retrieved /\
    length (Rag.sources resp) <= Z.to_nat (Rag.top_k request) /\
    StronglySorted lt (map Rag.source_rank (Rag.sources resp)) /\
    Forall (fun s => 1 <= Rag.source_rank s <= Z.to_nat (Rag.top_k request) /\
                     length (Rag.source_text s) <= 203) (Rag.sources resp) /\
    (retrieved = [] ->
     Rag.answer resp = Rag.nothing_relevant /\
     Rag.generate_calls st' = Rag.generate_calls st) /\
    (retrieved <> [] ->
     model (Rag.generate_calls st)
       (Rag.prompt (join [LF; LF] (map text retrieved)) (Rag.question request))
     = Ok (Rag.answer resp) /\
     Rag.generate_calls st' = S (Rag.generate_calls st)).
Proof.
  intros E.
  assert (F : forall retrieved,
             search_faiss sq_l2 scalar_leb no_hit_distance (Rag.globals st)
               (provider (Rag.embed_calls st) retrieval_query)
               (Rag.question request) (Rag.top_k request) = Ok retrieved ->
             length (map (Rag.source_of relevance) retrieved)
             <= Z.to_nat (Rag.top_k request) /\
             StronglySorted lt
               (map Rag.source_rank (map (Rag.source_of relevance) retrieved)) /\
             Forall (fun s => 1 <= Rag.source_rank s <= Z.to_nat (Rag.top_k request) /\
                              length (Rag.source_text s) <= 203)
               (map (Rag.source_of relevance) retrieved)).
  { intros retrieved Es. destruct (search_faiss_Ok _ _ _ _ _ Es) as [L [R [S _]]].
    rewrite length_map, map_map. split; [exact L|]. split; [exact S|].
    apply Forall_map. eapply Forall_impl; [|exact R].
    intros c Hc. split; [exact Hc|apply source_text_length]. }
  destruct (chat_cases provider model request st)
    as [[Hr E1]|[[Hr [Hl E1]]|[Hr [Hl [[e [_ E1]]|[[Es E1]
       |[retrieved [Es [NE [[e [_ E1]]|[a [Ea E1]]]]]]]]]]]];
    rewrite E1 in E; try discriminate E; injection E as <- <-; simpl.
  - split; [reflexivity|]. exists []. split; [exact Es|]. split; [reflexivity|].
    destruct (F _ Es) as [F1 [F2 F3]].
    split; [exact F1|]. split; [exact F2|]. split; [exact F3|].
    split; [intros _; split; reflexivity|]. intros H. contradiction.
  - split; [reflexivity|]. exists retrieved. split; [exact Es|]. split; [reflexivity|].
    destruct (F _ Es) as [F1 [F2 F3]].
    split; [exact F1|]. split; [exact F2|]. split; [exact F3|].
    split; [intros H; contradiction|]. intros _. split; [exact Ea|reflexivity].
Qed.


Lemma occurs_trans (a b c : str) : occurs a b -> occurs b c -> occurs a c.
Proof.
  intros [x [y ->]] [u [v ->]]. exists (u ++ x), (y ++ v).
  rewrite <- !app_assoc. reflexivity.
Qed.

(** X18.  [generate_answer] calls the model once, with a prompt in which
    the question and the text of every retrieved chunk occur as they are,
    and returns or raises what the model does. *)
Theorem X18_the_prompt_holds_the_question_and_every_retrieved_text
    (model : nat -> str -> Result str) (query : str)
    (context_chunks : list (Retrieved scalar)) (n : nat) :
  exists p,
    Rag.generate_answer model query context_chunks n = (model n p, S n) /\
    occurs query p /\
    forall c, In c context_chunks -> occurs (text c) p.
Proof.
  eexists. split; [reflexivity|]. split.
  - unfold Rag.prompt. apply join_occurs.
    repeat (first [left; reflexivity | right]).
  - intros c Hc.
    apply occurs_trans with (b := join [LF; LF] (map text context_chunks)).
    + apply join_occurs. apply in_map. exact Hc.
    + unfold Rag.prompt. apply join_occurs.
      repeat (first [left; reflexivity | right]).
Qed.

End RagFacts.

(* ================================================================== *)
(** * Setting up the agent, and its tools *)
(* ================================================================== *)

Section AgentFacts.

Variable scalar : Type.
Variable sq_l2 : list scalar -> list scalar -> scalar.
Variable scalar_leb : scalar -> scalar -> bool.
Variable no_hit_distance : scalar.
Variable chat_service : Type.
Variable agent : Type.

Lemma load_case_service (w w' : World scalar) (out : list message) :
  load_case w w' out ->
  embedding_service (self w') = embedding_service (self w).
Proof.
  intros [i content _ _ _ _ -> _|e w1 out1 F B _].
  - reflexivity.
  - destruct (build_case_fields _ _ _ _ B) as [-> _].
    destruct (load_failure_fields _ _ _ _ F) as [-> _]. reflexivity.
Qed.

Lemma initialize_service (w : World scalar) :
  exists w' out,
    initialize w = (Ok tt, w', out) /\
    _initialized (self w') = true /\
    embedding_service (self w') = embedding_service (self w).
Proof.
  destruct (initialize_cases _ w) as [w' [out [E [Ini H]]]].
  exists w', out. split; [exact E|]. split; [exact Ini|].
  destruct H as [[_ [-> _]]|[_ [w1 [out1 [-> [[_ [_ [C _]]]|[_ [_ [C _]]]]]]]]].
  - reflexivity.
  - simpl. exact (load_case_service _ _ _ C).
  - simpl. destruct (build_case_fields _ _ _ _ C) as [-> _]. reflexivity.
Qed.

(** X19.  Whether [setup_agent] returns the agent depends on the calls to
    Semantic Kernel, on the directory of the index and on the system
    prompt only: when these succeed it returns the agent, whatever the
    knowledge base, the artifact files and the answers of the embedding
    service are, and the global retriever is then set, marked initialized
    and holds the embedding service; and it returns only when they all
    succeeded. *)
Theorem X19_setup_agent_returns_whatever_the_knowledge_base_is
    (lib : Libraries scalar chat_service agent) (g : AppGlobals scalar) :
  (forall svc chat system_prompt a,
     GoogleAITextEmbedding lib = Ok svc ->
     GoogleAIChatCompletion lib = Ok chat ->
     add_embedding_service lib = Ok tt ->
     add_chat_service lib = Ok tt ->
     makedirs lib = Ok tt ->
     read_text (system_prompt_md lib) = Ok system_prompt ->
     ChatCompletionAgent lib chat system_prompt = Ok a ->
     register_plugins lib = Ok tt ->
     exists g' out r,
       setup_agent lib g = (Ok a, g', out) /\
       faiss_retriever (process g') = Some r /\
       _initialized r = true /\
       embedding_service r = Some svc /\
       embedding_service_global g' = Some svc) /\
  (forall a g' out,
     setup_agent lib g = (Ok a, g', out) ->
     exists svc chat system_prompt,
       GoogleAITextEmbedding lib = Ok svc /\
       GoogleAIChatCompletion lib = Ok chat /\
       add_embedding_service lib = Ok tt /\
       add_chat_service lib = Ok tt /\
       makedirs lib = Ok tt /\
       read_text (system_prompt_md lib) = Ok system_prompt /\
       ChatCompletionAgent lib chat system_prompt = Ok a /\
       register_plugins lib = Ok tt).
Proof.
  split.
  - intros svc chat system_prompt a H1 H2 H3 H4 H5 H6 H7 H8.
    unfold setup_agent, load_system_prompt. rewrite H1, H2, H3, H4, H5.
    destruct (initialize_service
                {| self := __init__ (Some svc); disk := p_disk (process g);
                   calls := p_calls (process g) |})
      as [w [out [E [Ini Es]]]].
    rewrite E, H6, H7, H8.
    eexists _, out, (self w). split; [reflexivity|]. simpl. auto.
  - intros a g' out. unfold setup_agent, load_system_prompt.
    destruct (GoogleAITextEmbedding lib) as [svc|]; [|discriminate].
    destruct (GoogleAIChatCompletion lib) as [chat|]; [|discriminate].
    destruct (add_embedding_service lib) as [[]|]; [|discriminate].
    destruct (add_chat_service lib) as [[]|]; [|discriminate].
    destruct (makedirs lib) as [[]|]; [|discriminate].
    destruct (initialize _) as [[[[]|] w] out1]; [|discriminate].
    destruct (read_text (system_prompt_md lib)) as [system_prompt|]; [|discriminate].
    destruct (ChatCompletionAgent lib chat system_prompt) as [a'|] eqn:Ea;
      [|discriminate].
    destruct (register_plugins lib) as [[]|]; [|discriminate].
    intros E. injection E as <- _ _.
    exists svc, chat, system_prompt. auto 10.
Qed.

(** X20.  When the libraries work but there is no complete artifact and
    the knowledge file cannot be read, the application starts all the same
    and holds an agent, and [health_check] reports the index as ready;
    while the retriever holds no index, and [retrieve_knowledge] answers
    every query with the fixed text that the index is not initialized. *)
Theorem X20_health_check_reports_ready_without_an_index
    (lib : Libraries scalar chat_service agent) (g : AppGlobals scalar)
    (svc : EmbeddingService scalar) (chat : chat_service)
    (system_prompt : str) (a : agent) (e : exn) :
  GoogleAITextEmbedding lib = Ok svc ->
  GoogleAIChatCompletion lib = Ok chat ->
  add_embedding_service lib = Ok tt ->
  add_chat_service lib = Ok tt ->
  makedirs lib = Ok tt ->
  read_text (system_prompt_md lib) = Ok system_prompt ->
  ChatCompletionAgent lib chat system_prompt = Ok a ->
  register_plugins lib = Ok tt ->
  exists_ (index_file (p_disk (process g)))
    && exists_ (text_file (p_disk (process g))) = false ->
  read_text (knowledge_file (p_disk (process g))) = Raise e ->
  exists app_state_agent g' out,
    lifespan lib g = (app_state_agent, g', out) /\
    app_state_agent = Some a /\
    rag_index (health_check app_state_agent) = lit "ready" /\
    (exists r, faiss_retriever (process g') = Some r /\ index r = None) /\
    forall query,
      retrieve_knowledge sq_l2 scalar_leb no_hit_distance query (process g')
      = (Ok not_initialized_error, process g', []).
Proof.
  intros H1 H2 H3 H4 H5 H6 H7 H8 Hex Hk.
  unfold lifespan, setup_agent, load_system_prompt. rewrite H1, H2, H3, H4, H5.
  set (w0 := {| self := __init__ (Some svc); disk := p_disk (process g);
                calls := p_calls (process g) |}).
  destruct (initialize_cases _ w0)
    as [w' [out [E [Ini [[F _]|[_ [w1 [out1 [Ew [[Hex' _]|[_ [_ [C _]]]]]]]]]]]]].
  - discriminate F.
  - simpl in Hex'. rewrite Hex in Hex'. discriminate Hex'.
  - assert (W : w1 = w0).
    { destruct C as [F _ _|svc' e' _ _ -> _|svc' content _ R _ _ _
                    |svc' content e' _ R _ _ _ _
                    |svc' content embeddings dim _ R _ _ _ _ _ _].
      - discriminate F.
      - reflexivity.
      - simpl in R. rewrite Hk in R. discriminate R.
      - simpl in R. rewrite Hk in R. discriminate R.
      - simpl in R. rewrite Hk in R. discriminate R. }
    subst w1. rewrite E, H6, H7, H8. subst w'.
    eexists _, _, _. split; [reflexivity|]. split; [reflexivity|].
    split; [reflexivity|]. split.
    + eexists. split; reflexivity.
    + intros query. unfold retrieve_knowledge.
      cbn [faiss_retriever process p_disk p_calls].
      rewrite search_initialized_eq by reflexivity. reflexivity.
Qed.

End AgentFacts.

Lemma contains_char (c : N) (s : list N) : contains [c] s = true <-> In c s.
Proof.
  induction s as [|b t IH]; simpl.
  - split; [discriminate|contradiction].
  - rewrite andb_true_r, orb_true_iff, IH, N.eqb_eq. split.
    + intros [->|H]; [left; reflexivity|right; exact H].
    + intros [->|H]; [left; reflexivity|right; exact H].
Qed.

(** X21.  [request_password_reset] takes an address exactly when it holds
    an at sign and a full stop, wherever they stand; it then answers that
    the link was sent, quoting the address as given, and otherwise that
    the format is invalid.  The two answers differ. *)
Theorem X21_request_password_reset_looks_for_two_characters (email : str) :
  (In 64%N email /\ In 46%N email ->
   request_password_reset email = reset_link_sent email) /\
  (~ (In 64%N email /\ In 46%N email) ->
   request_password_reset email = invalid_email) /\
  reset_link_sent email <> invalid_email.
Proof.
  unfold request_password_reset.
  change (lit "@") with [64%N]. change (lit ".") with [46%N].
  destruct (contains [64%N] email) eqn:E1; destruct (contains [46%N] email) eqn:E2;
    (split; [|split; [|discriminate]]).
  - intros [H _]. destruct email; [contradiction|reflexivity].
  - intros H. exfalso. apply H. split; apply contains_char; assumption.
  - intros [_ H]. rewrite (proj2 (contains_char _ _) H) in E2. discriminate E2.
  - intros _. destruct email; reflexivity.
  - intros [H _]. rewrite (proj2 (contains_char _ _) H) in E1. discriminate E1.
  - intros _. destruct email; reflexivity.
  - intros [H _]. rewrite (proj2 (contains_char _ _) H) in E1. discriminate E1.
  - intros _. destruct email; reflexivity.
Qed.

(* ================================================================== *)
(** * The retriever when printing and writing can fail *)
(* ================================================================== *)

Section StrictFacts.

Variable scalar : Type.
Variable sq_l2 : list scalar -> list scalar -> scalar.
Variable scalar_leb : scalar -> scalar -> bool.
Variable no_hit_distance : scalar.

Lemma strict_save_eq (faults : Strict.Faults scalar) (w : World scalar) :
  Strict.save faults w =
  match index (self w) with
  | None => (Ok tt, w, [IndexNotBuilt])
  | Some i =>
      match Strict.on_write_index faults with
      | Some (e, remains) =>
          (Raise e,
           {| self := self w;
              disk := {| index_file := remains;
                         text_file := text_file (disk w);
                         knowledge_file := knowledge_file (disk w) |};
              calls := calls w |},
           [SavingIndex])
      | None =>
          match Strict.on_write_text faults with
          | Some (e, remains) =>
              (Raise e,
               {| self := self w;
                  disk := {| index_file := Holds i;
                             text_file := remains;
                             knowledge_file := knowledge_file (disk w) |};
                  calls := calls w |},
               [SavingIndex])
          | None =>
              if encodable (join separator (chunks_with_content (self w)))
              then (Ok tt,
                    {| self := self w;
                       disk := saved_disk (disk w) i (chunks_with_content (self w));
                       calls := calls w |},
                    [SavingIndex; IndexSaved])
              else (Raise UnicodeEncodeError,
                    {| self := self w;
                       disk := {| index_file := Holds i;
                                  text_file := Holds [];
                                  knowledge_file := knowledge_file (disk w) |};
                       calls := calls w |},
                    [SavingIndex])
          end
      end
  end.
Proof.
  destruct w as [s dk c].
  unfold Strict.save, Strict.write_index, Strict.write_text_file,
    bind, get_self, get_disk, set_disk, print, raise. simpl.
  destruct (index s) as [i|]; [|reflexivity].
  destruct (Strict.on_write_index faults) as [[e f]|]; [reflexivity|].
  destruct (Strict.on_write_text faults) as [[e f]|]; [reflexivity|].
  simpl.
  destruct (encodable (join separator (chunks_with_content s))); reflexivity.
Qed.

Lemma strict_save_frame (faults : Strict.Faults scalar) (w : World scalar) :
  exists r w' out,
    Strict.save faults w = (r, w', out) /\
    self w' = self w /\ calls w' = calls w /\
    writes_by_save w w' out /\
    (forall e, r = Raise e -> ~ In IndexSaved out).
Proof.
  rewrite strict_save_eq. unfold writes_by_save.
  destruct (index (self w)) as [i|] eqn:Ei.
  2:{ eexists _, _, _. split; [reflexivity|]. simpl.
      repeat split; try discriminate.
      intros [H|[]]; discriminate. }
  destruct (Strict.on_write_index faults) as [[e f]|].
  { eexists _, _, _. split; [reflexivity|]. simpl.
    repeat split; try tauto.
    - intros [H|[]]; discriminate.
    - intros e' _ [H|[]]; discriminate. }
  destruct (Strict.on_write_text faults) as [[e f]|].
  { eexists _, _, _. split; [reflexivity|]. simpl.
    repeat split; try tauto.
    - intros [H|[]]; discriminate.
    - intros e' _ [H|[]]; discriminate. }
  destruct (encodable (join separator (chunks_with_content (self w)))) eqn:En.
  - eexists _, _, _. split; [reflexivity|]. simpl.
    repeat split; try tauto.
    + intros _. exists i. auto.
    + intros e' H. discriminate.
  - eexists _, _, _. split; [reflexivity|]. simpl.
    repeat split; try tauto.
    + intros [H|[]]; discriminate.
    + intros e' _ [H|[]]; discriminate.
Qed.

Lemma strict_build_eq (faults : Strict.Faults scalar) (w : World scalar) :
  Strict.build faults w =
  match embedding_service (self w) with
  | None => (Ok tt, w, [EmbeddingServiceNotAvailable])
  | Some svc =>
      match read_text (knowledge_file (disk w)) with
      | Raise e => (Ok tt, w, [ErrorBuilding e])
      | Ok content =>
          match corpus_chunks content with
          | [] => (Ok tt, with_self w (with_chunks (self w) []), [NoTextChunksFound])
          | (_ :: _) as chunks =>
              let w1 := called (with_self w (with_chunks (self w) chunks)) in
              match
                match svc (calls w) chunks with
                | Raise e => Raise e
                | Ok embeddings =>
                    match np_array embeddings with
                    | Raise e => Raise e
                    | Ok a =>
                        match shape_1 a with
                        | Raise e => Raise e
                        | Ok dim => Ok (a, dim)
                        end
                    end
                end
              with
              | Raise e =>
                  (Ok tt, w1, [GeneratingEmbeddings (length chunks); ErrorBuilding e])
              | Ok (a, dim) =>
                  match Strict.save faults
                          (with_self w1
                             (with_index (self w1)
                                (Some (add (IndexFlatL2 dim) a)))) with
                  | (Ok _, w3, out) =>
                      (Ok tt, w3,
                       [GeneratingEmbeddings (length chunks); EmbeddingDimension dim;
                        IndexBuilt (ntotal (add (IndexFlatL2 dim) a))] ++ out)
                  | (Raise e, w3, out) =>
                      (Ok tt, w3,
                       [GeneratingEmbeddings (length chunks); EmbeddingDimension dim;
                        IndexBuilt (ntotal (add (IndexFlatL2 dim) a))]
                         ++ out ++ [ErrorBuilding e])
                  end
              end
          end
      end
  end.
Proof.
  destruct w as [[osvc idx cs ini] dk c].
  unfold Strict.build, bind, get_self. cbn [self embedding_service].
  destruct osvc as [svc|]; [|reflexivity].
  unfold try_except, Strict.build_body, bind, get_disk, lift, corpus_chunks.
  cbn [disk].
  destruct (read_text (knowledge_file dk)) as [content|e]; [|reflexivity].
  unfold set_chunks_with_content, bind, get_self, set_self, with_chunks.
  cbn [self embedding_service index chunks_with_content _initialized disk calls].
  destruct (strip_nonempty (split content paragraph_break)) as [|c0 l]; [reflexivity|].
  unfold print, generate_embeddings, lift, set_index, bind, get_self, set_self,
    with_index, with_self, called.
  cbn [self embedding_service index chunks_with_content _initialized disk calls].
  destruct (svc c (c0 :: l)) as [embeddings|e]; [|reflexivity].
  destruct (np_array embeddings) as [a|e]; [|reflexivity].
  destruct (shape_1 a) as [dim|e]; [|reflexivity].
  cbn [self embedding_service index chunks_with_content _initialized disk calls].
  match goal with
  | |- context [Strict.save faults ?x] =>
      destruct (Strict.save faults x) as [[[[]|e] w3] out]
  end; simpl; try rewrite app_nil_r; reflexivity.
Qed.

Lemma strict_build_frame (faults : Strict.Faults scalar) (w : World scalar) :
  exists w' out,
    Strict.build faults w = (Ok tt, w', out) /\
    _initialized (self w') = _initialized (self w) /\
    embedding_service (self w') = embedding_service (self w) /\
    writes_by_save w w' out.
Proof.
  rewrite strict_build_eq. unfold writes_by_save.
  assert (N : forall (w0 : World scalar) m,
            m <> SavingIndex -> m <> IndexSaved ->
            exists w' out,
              (Ok tt, w0, [m]) = (Ok tt, w', out) /\
              _initialized (self w') = _initialized (self w0) /\
              embedding_service (self w') = embedding_service (self w0) /\
              knowledge_file (disk w') = knowledge_file (disk w0) /\
              (~ In SavingIndex out -> disk w' = disk w0) /\
              (In IndexSaved out ->
               exists i, index (self w') = Some i /\
                 disk w' = saved_disk (disk w0) i (chunks_with_content (self w')) /\
                 encodable (join separator (chunks_with_content (self w'))) = true)).
  { intros w0 m H1 H2. exists w0, [m]. repeat split; try reflexivity.
    intros [H|[]]. congruence. }
  destruct (embedding_service (self w)) as [svc|] eqn:Es.
  2:{ destruct (N w EmbeddingServiceNotAvailable) as [w' [out [E [H1 [H2 H3]]]]];
        [discriminate|discriminate|].
      exists w', out. rewrite Es in H2. auto. }
  destruct (read_text (knowledge_file (disk w))) as [content|e].
  2:{ destruct (N w (ErrorBuilding e)) as [w' [out [E [H1 [H2 H3]]]]];
        [discriminate|discriminate|].
      exists w', out. rewrite Es in H2. auto. }
  destruct (corpus_chunks content) as [|c0 l] eqn:Ec.
  { eexists _, _. split; [reflexivity|]. simpl. rewrite Es.
    repeat split; try reflexivity. intros [H|[]]; discriminate. }
  cbv zeta.
  set (chunks := c0 :: l).
  destruct (match svc (calls w) chunks with
            | Ok embeddings =>
                match np_array embeddings with
                | Ok a => match shape_1 a with
                          | Ok dim => Ok (a, dim)
                          | Raise e => Raise e
                          end
                | Raise e => Raise e
                end
            | Raise e => Raise e
            end) as [[a dim]|e].
  2:{ eexists _, _. split; [reflexivity|]. simpl. rewrite Es.
      repeat split; try reflexivity.
      intros [H|[H|[]]]; discriminate. }
  set (w2 := with_self (called (with_self w (with_chunks (self w) chunks)))
               (with_index (self (called (with_self w (with_chunks (self w) chunks))))
                  (Some (add (IndexFlatL2 dim) a)))).
  destruct (strict_save_frame faults w2)
    as [r [w3 [out [E [Hs [Hc [[Hk [Hd Hi]] Hr]]]]]]].
  rewrite E.
  assert (D2 : disk w2 = disk w) by reflexivity.
  assert (I2 : _initialized (self w2) = _initialized (self w)) by reflexivity.
  assert (S2 : embedding_service (self w2) = embedding_service (self w)) by reflexivity.
  rewrite D2 in *. rewrite <- Hs in I2, S2. rewrite Es in S2.
  destruct r as [[]|e].
  - eexists _, _. split; [reflexivity|].
    split; [exact I2|]. split; [exact S2|]. split; [exact Hk|]. split.
    + intros H. apply Hd. intros H1. apply H. simpl. tauto.
    + intros H. apply Hi. simpl in H.
      destruct H as [H|[H|[H|H]]]; try discriminate. exact H.
  - eexists _, _. split; [reflexivity|].
    split; [exact I2|]. split; [exact S2|]. split; [exact Hk|]. split.
    + intros H. apply Hd. intros H1. apply H. simpl.
      right. right. right. apply in_or_app. left. exact H1.
    + intros H. exfalso. apply (Hr e eq_refl). simpl in H.
      destruct H as [H|[H|[H|H]]]; try discriminate.
      apply in_app_or in H as [H|[H|[]]]; [exact H|discriminate].
Qed.

Lemma strict_load_frame (faults : Strict.Faults scalar) (w : World scalar) :
  exists w' out,
    Strict.load faults w = (Ok tt, w', out) /\
    _initialized (self w') = _initialized (self w) /\
    embedding_service (self w') = embedding_service (self w) /\
    writes_by_save w w' out.
Proof.
  unfold Strict.load, try_except.
  destruct (load_body_cases _ w)
    as [[i [content [_ [_ [_ [_ E]]]]]] | [e [w1 [F E]]]]; rewrite E.
  - eexists _, _. split; [reflexivity|]. unfold writes_by_save. simpl.
    repeat split; try reflexivity. intros [H|[]]; discriminate.
  - destruct (load_failure_fields _ _ _ _ F) as [Fs [Fi [Fd Fc]]].
    destruct (strict_build_frame faults w1) as [w' [out [Eb [Hi [Hs [Hk [Hd Hx]]]]]]].
    unfold bind, print. rewrite Eb.
    eexists _, _. split; [reflexivity|].
    rewrite Hi, Hs, Fi, Fs. split; [reflexivity|]. split; [reflexivity|].
    unfold writes_by_save. rewrite <- Fd. split; [exact Hk|]. split.
    + intros H. apply Hd. intros H1. apply H. simpl. tauto.
    + intros H. apply Hx. simpl in H.
      destruct H as [H|[H|H]]; try discriminate. exact H.
Qed.

Lemma strict_initialize_frame (faults : Strict.Faults scalar) (w : World scalar) :
  exists w' out,
    Strict.initialize faults w = (Ok tt, w', out) /\
    _initialized (self w') = true /\
    embedding_service (self w') = embedding_service (self w) /\
    writes_by_save w w' out /\
    (_initialized (self w) = true -> w' = w /\ out = []).
Proof.
  destruct (_initialized (self w)) eqn:Ini.
  { exists w, []. split.
    - unfold Strict.initialize, bind, get_self. simpl. rewrite Ini. reflexivity.
    - split; [exact Ini|]. split; [reflexivity|].
      split; [|auto]. unfold writes_by_save. simpl. repeat split; try reflexivity.
      intros []. }
  assert (Step : exists w1 out1 m,
            m <> SavingIndex /\ m <> IndexSaved /\
            Strict.initialize faults w
            = (Ok tt, with_self w1 (with_initialized (self w1) true), m :: out1) /\
            embedding_service (self w1) = embedding_service (self w) /\
            writes_by_save w w1 out1).
  { destruct (exists_ (index_file (disk w)) && exists_ (text_file (disk w))) eqn:Eex.
    - destruct (strict_load_frame faults w) as [w1 [out1 [E [Hi [Hs Hw]]]]].
      exists w1, out1, LoadingExistingIndex.
      split; [discriminate|]. split; [discriminate|]. split; [|auto].
      unfold Strict.initialize, bind, get_self, get_disk. simpl. rewrite Ini, Eex.
      unfold print. rewrite E. simpl. rewrite app_nil_r. reflexivity.
    - destruct (strict_build_frame faults w) as [w1 [out1 [E [Hi [Hs Hw]]]]].
      exists w1, out1, NoIndexFound.
      split; [discriminate|]. split; [discriminate|]. split; [|auto].
      unfold Strict.initialize, bind, get_self, get_disk. simpl. rewrite Ini, Eex.
      unfold print. rewrite E. simpl. rewrite app_nil_r. reflexivity. }
  destruct Step as [w1 [out1 [m [M1 [M2 [E [Hs [Hk [Hd Hx]]]]]]]]].
  eexists _, _. split; [exact E|]. simpl. split; [reflexivity|].
  split; [exact Hs|]. split; [|discriminate].
  unfold writes_by_save. simpl. split; [exact Hk|]. split.
  - intros H. apply Hd. intros H1. apply H. right. exact H1.
  - intros [H|H]; [congruence|]. exact (Hx H).
Qed.

Lemma strict_search_body_eq (i : Index scalar) (svc : EmbeddingService scalar)
    (query : str) (k : Z) (w : World scalar) :
  Strict.search_body sq_l2 scalar_leb no_hit_distance i svc query k w =
  match svc (calls w) [query] with
  | Raise e => (Raise e, called w, [])
  | Ok [] => (Raise IndexError, called w, [])
  | Ok (v :: _) =>
      match index_search sq_l2 scalar_leb no_hit_distance i v k with
      | Raise e => (Raise e, called w, [])
      | Ok (_, indices) =>
          match chunks_at (chunks_with_content (self w)) indices with
          | [] =>
              (Ok no_relevant_information, called w,
               out_of_bounds (chunks_with_content (self w)) indices
                 ++ [NoRelevantDocuments])
          | (_ :: _) as results =>
              if encodable (join paragraph_break results)
              then (Ok (join paragraph_break results), called w,
                    out_of_bounds (chunks_with_content (self w)) indices
                      ++ [FoundContext (join paragraph_break results)])
              else (Raise UnicodeEncodeError, called w,
                    out_of_bounds (chunks_with_content (self w)) indices)
          end
      end
  end.
Proof.
  unfold Strict.search_body, bind, generate_embeddings, lift.
  destruct (svc (calls w) [query]) as [[|v rest]|e]; try reflexivity.
  destruct (index_search sq_l2 scalar_leb no_hit_distance i v k)
    as [[distances indices]|e]; try reflexivity.
  rewrite for_indices_eq. cbv beta iota. rewrite app_nil_l. cbn [self disk calls].
  destruct (chunks_at (chunks_with_content (self w)) indices) as [|c l];
    [reflexivity|].
  unfold Strict.print_text.
  destruct (encodable (join paragraph_break (c :: l)));
    unfold print, raise, ret; cbv beta iota; rewrite ?app_nil_r; reflexivity.
Qed.

Lemma out_of_bounds_no_save (chunks : list str) (indices : list Z) (m : message) :
  In m (out_of_bounds chunks indices) -> m <> SavingIndex /\ m <> IndexSaved.
Proof.
  unfold out_of_bounds. intros H. apply in_map_iff in H as [j [<- _]].
  split; discriminate.
Qed.

(** What [search] does once the retriever is initialized. *)
Lemma strict_search_body_frame (i : Index scalar) (svc : EmbeddingService scalar)
    (query : str) (k : Z) (w : World scalar) :
  exists r out,
    Strict.search_body sq_l2 scalar_leb no_hit_distance i svc query k w
    = (r, called w, out) /\
    (forall m, In m out -> m <> SavingIndex /\ m <> IndexSaved) /\
    (forall e, svc (calls w) [query] = Raise e -> r = Raise e) /\
    (svc (calls w) [query] = Ok [] -> r = Raise IndexError) /\
    (forall v rest e,
       svc (calls w) [query] = Ok (v :: rest) ->
       index_search sq_l2 scalar_leb no_hit_distance i v k = Raise e ->
       r = Raise e).
Proof.
  destruct (Strict.search_body sq_l2 scalar_leb no_hit_distance i svc query k w)
    as [[r w2] out] eqn:E.
  rewrite strict_search_body_eq in E.
  assert (O : forall indices m l,
            In m (out_of_bounds (chunks_with_content (self w)) indices ++ l) ->
            (forall m', In m' l -> m' <> SavingIndex /\ m' <> IndexSaved) ->
            m <> SavingIndex /\ m <> IndexSaved).
  { intros indices m l H Hl. apply in_app_or in H as [H|H];
      [exact (out_of_bounds_no_save _ _ _ H)|exact (Hl _ H)]. }
  destruct (svc (calls w) [query]) as [[|v rest]|e].
  - injection E as <- <- <-. eexists _, _. split; [reflexivity|].
    split; [intros m []|].
    repeat split; intros; try discriminate; congruence.
  - destruct (index_search sq_l2 scalar_leb no_hit_distance i v k)
      as [[distances indices]|e] eqn:Ei.
    + destruct (chunks_at (chunks_with_content (self w)) indices) as [|c l].
      * injection E as <- <- <-. eexists _, _. split; [reflexivity|]. split.
        { intros m H. apply (O _ m _ H). intros m' [<-|[]]. split; discriminate. }
        repeat split; intros; try discriminate; congruence.
      * cbv beta iota zeta in E.
        destruct (encodable (join paragraph_break (c :: l)));
          injection E as <- <- <-; eexists _, _; (split; [reflexivity|]); split.
        { intros m H. apply (O _ m _ H). intros m' [<-|[]]. split; discriminate. }
        { repeat split; intros; try discriminate; congruence. }
        { intros m H. exact (out_of_bounds_no_save _ _ _ H). }
        { repeat split; intros; try discriminate; congruence. }
    + injection E as <- <- <-. eexists _, _. split; [reflexivity|].
      split; [intros m []|].
      repeat split; intros; try discriminate; congruence.
  - injection E as <- <- <-. eexists _, _. split; [reflexivity|].
    split; [intros m []|].
    repeat split; intros; try discriminate; congruence.
Qed.

Lemma strict_search_eq (faults : Strict.Faults scalar) (query : str) (k : Z)
    (w : World scalar) :
  exists out1,
    writes_by_save w (Strict.after_lazy_initialize faults w) out1 /\
    Strict.search sq_l2 scalar_leb no_hit_distance faults query k w =
    match index (self (Strict.after_lazy_initialize faults w)),
          embedding_service (self (Strict.after_lazy_initialize faults w)) with
    | Some i, Some svc =>
        if encodable query
        then
          match Strict.search_body sq_l2 scalar_leb no_hit_distance i svc query k
                  (Strict.after_lazy_initialize faults w) with
          | (Ok s, w2, out2) => (Ok s, w2, out1 ++ Searching query :: out2)
          | (Raise e, w2, out2) =>
              (Ok search_error, w2,
               out1 ++ Searching query :: out2 ++ [ErrorDuringSearch e])
          end
        else (Raise UnicodeEncodeError, Strict.after_lazy_initialize faults w, out1)
    | _, _ => (Ok not_initialized_error, Strict.after_lazy_initialize faults w, out1)
    end.
Proof.
  assert (I : exists w1 out1,
             (if _initialized (self w) then ret tt w else Strict.initialize faults w)
               = (Ok tt, w1, out1) /\
             Strict.after_lazy_initialize faults w = w1 /\
             writes_by_save w w1 out1).
  { unfold Strict.after_lazy_initialize.
    destruct (_initialized (self w)).
    - exists w, []. split; [reflexivity|]. split; [reflexivity|].
      unfold writes_by_save. simpl. repeat split; try reflexivity. intros [].
    - destruct (strict_initialize_frame faults w) as [w1 [out1 [E [_ [_ [Hw _]]]]]].
      exists w1, out1. rewrite E. auto. }
  destruct I as [w1 [out1 [E [-> Hw]]]].
  exists out1. split; [exact Hw|].
  unfold Strict.search, bind, get_self.
  replace ((if _initialized (self w) then ret tt else Strict.initialize faults) w)
    with (if _initialized (self w) then ret tt w else Strict.initialize faults w)
    by (destruct (_initialized (self w)); reflexivity).
  rewrite E.
  destruct (index (self w1)) as [i|]; [|simpl; rewrite app_nil_r; reflexivity].
  destruct (embedding_service (self w1)) as [svc|];
    [|simpl; rewrite app_nil_r; reflexivity].
  unfold Strict.print_text.
  destruct (encodable query).
  - unfold print, try_except, ret.
    destruct (Strict.search_body sq_l2 scalar_leb no_hit_distance i svc query k w1)
      as [[[s|e] w2] out2]; simpl; try rewrite app_nil_r; reflexivity.
  - unfold raise. simpl. rewrite app_nil_r. reflexivity.
Qed.


(** X2.  With the writes as they are, no method of the retriever ever
    writes the knowledge file; until a [save] has started writing (it has
    printed that it saves the index) every file is as it was; and when a
    [save] went to its end (it has printed that the index and the chunks
    are saved) the index file and the text file hold the index and the
    chunks of the retriever.  Between the two messages the files can be in
    any state: the index file is replaced first, and the write of the text
    file can still fail. *)
Theorem X2_files_are_written_only_by_a_save
    (faults : Strict.Faults scalar) (w w' : World scalar) (out : list message) :
  (exists r, Strict.initialize faults w = (r, w', out)) \/
  (exists r, Strict.build faults w = (r, w', out)) \/
  (exists r, Strict.load faults w = (r, w', out)) \/
  (exists r, Strict.save faults w = (r, w', out)) \/
  (exists query k r,
     Strict.search sq_l2 scalar_leb no_hit_distance faults query k w = (r, w', out)) ->
  knowledge_file (disk w') = knowledge_file (disk w) /\
  (~ In SavingIndex out -> disk w' = disk w) /\
  (In IndexSaved out ->
   exists i, index (self w') = Some i /\
     disk w' = saved_disk (disk w) i (chunks_with_content (self w')) /\
     encodable (join separator (chunks_with_content (self w'))) = true).
Proof.
  intros H. change (writes_by_save w w' out).
  destruct H as [[r E] | [[r E] | [[r E] | [[r E] | [query [k [r E]]]]]]].
  - destruct (strict_initialize_frame faults w) as [w1 [out1 [E1 [_ [_ [H _]]]]]].
    rewrite E1 in E. injection E as _ <- <-. exact H.
  - destruct (strict_build_frame faults w) as [w1 [out1 [E1 [_ [_ H]]]]].
    rewrite E1 in E. injection E as _ <- <-. exact H.
  - destruct (strict_load_frame faults w) as [w1 [out1 [E1 [_ [_ H]]]]].
    rewrite E1 in E. injection E as _ <- <-. exact H.
  - destruct (strict_save_frame faults w) as [r1 [w1 [out1 [E1 [_ [_ [H _]]]]]]].
    rewrite E1 in E. injection E as _ <- <-. exact H.
  - destruct (strict_search_eq faults query k w) as [out1 [Hw E1]].
    rewrite E1 in E. clear E1.
    set (w1 := Strict.after_lazy_initialize faults w) in *.
    destruct (index (self w1)) as [i|].
    2:{ injection E as _ <- <-. exact Hw. }
    destruct (embedding_service (self w1)) as [svc|].
    2:{ injection E as _ <- <-. exact Hw. }
    destruct (encodable query).
    2:{ injection E as _ <- <-. exact Hw. }
    destruct (strict_search_body_frame i svc query k w1)
      as [r2 [out2 [Eb [Ho _]]]].
    rewrite Eb in E.
    assert (A : forall l,
              (forall m, In m l -> m <> SavingIndex /\ m <> IndexSaved) ->
              writes_by_save w (called w1) (out1 ++ Searching query :: l)).
    { intros l Hl. destruct Hw as [Hk [Hd Hx]].
      unfold writes_by_save. simpl. split; [exact Hk|]. split.
      - intros H. apply Hd. intros H1. apply H. apply in_or_app. left. exact H1.
      - intros H. apply Hx. apply in_app_or in H as [H|[H|H]];
          [exact H|discriminate H|].
        destruct (Hl _ H) as [_ N]. congruence. }
    destruct r2 as [s|e]; injection E as _ <- <-.
    + apply A. exact Ho.
    + apply A. intros m H. apply in_app_or in H as [H|[<-|[]]];
        [exact (Ho _ H)|split; discriminate].
Qed.

Lemma encodable_Forall (s : str) :
  encodable s = true <->
  Forall (fun c => negb ((55296 <=? c)%N && (c <=? 57343)%N) = true) s.
Proof.
  unfold encodable. rewrite forallb_forall, Forall_forall. reflexivity.
Qed.

Lemma encodable_join (sep : str) (l : list str) :
  encodable sep = true ->
  Forall (fun c => encodable c = true) l ->
  encodable (join sep l) = true.
Proof.
  intros Hs Hl. apply encodable_Forall. apply join_Forall.
  - apply encodable_Forall. exact Hs.
  - eapply Forall_impl; [|exact Hl]. intros c. apply encodable_Forall.
Qed.

Lemma encodable_chunks (content sep : str) :
  encodable content = true ->
  Forall (fun c => encodable c = true) (strip_nonempty (split content sep)).
Proof.
  intros H.
  eapply Forall_impl; [intros c Hc; apply encodable_Forall; exact Hc|].
  apply strip_nonempty_Forall, split_Forall, encodable_Forall, H.
Qed.

Lemma strict_save_is_save (w : World scalar) :
  Forall (fun c => encodable c = true) (chunks_with_content (self w)) ->
  Strict.save Strict.no_faults w = save w.
Proof.
  intros H. rewrite strict_save_eq, save_eq.
  destruct (index (self w)) as [i|]; [|reflexivity].
  cbn [Strict.on_write_index Strict.on_write_text Strict.no_faults].
  rewrite (encodable_join separator _ eq_refl H). reflexivity.
Qed.

Lemma build_eq (w : World scalar) :
  build w =
  match embedding_service (self w) with
  | None => (Ok tt, w, [EmbeddingServiceNotAvailable])
  | Some svc =>
      match read_text (knowledge_file (disk w)) with
      | Raise e => (Ok tt, w, [ErrorBuilding e])
      | Ok content =>
          match corpus_chunks content with
          | [] => (Ok tt, with_self w (with_chunks (self w) []), [NoTextChunksFound])
          | (_ :: _) as chunks =>
              let w1 := called (with_self w (with_chunks (self w) chunks)) in
              match
                match svc (calls w) chunks with
                | Raise e => Raise e
                | Ok embeddings =>
                    match np_array embeddings with
                    | Raise e => Raise e
                    | Ok a =>
                        match shape_1 a with
                        | Raise e => Raise e
                        | Ok dim => Ok (a, dim)
                        end
                    end
                end
              with
              | Raise e =>
                  (Ok tt, w1, [GeneratingEmbeddings (length chunks); ErrorBuilding e])
              | Ok (a, dim) =>
                  match save
                          (with_self w1
                             (with_index (self w1)
                                (Some (add (IndexFlatL2 dim) a)))) with
                  | (Ok _, w3, out) =>
                      (Ok tt, w3,
                       [GeneratingEmbeddings (length chunks); EmbeddingDimension dim;
                        IndexBuilt (ntotal (add (IndexFlatL2 dim) a))] ++ out)
                  | (Raise e, w3, out) =>
                      (Ok tt, w3,
                       [GeneratingEmbeddings (length chunks); EmbeddingDimension dim;
                        IndexBuilt (ntotal (add (IndexFlatL2 dim) a))]
                         ++ out ++ [ErrorBuilding e])
                  end
              end
          end
      end
  end.
Proof.
  destruct w as [[osvc idx cs ini] dk c].
  unfold build, bind, get_self. cbn [self embedding_service].
  destruct osvc as [svc|]; [|reflexivity].
  unfold try_except, build_body, bind, get_disk, lift, corpus_chunks.
  cbn [disk].
  destruct (read_text (knowledge_file dk)) as [content|e]; [|reflexivity].
  unfold set_chunks_with_content, bind, get_self, set_self, with_chunks.
  cbn [self embedding_service index chunks_with_content _initialized disk calls].
  destruct (strip_nonempty (split content paragraph_break)) as [|c0 l]; [reflexivity|].
  unfold print, generate_embeddings, lift, set_index, bind, get_self, set_self,
    with_index, with_self, called.
  cbn [self embedding_service index chunks_with_content _initialized disk calls].
  destruct (svc c (c0 :: l)) as [embeddings|e]; [|reflexivity].
  destruct (np_array embeddings) as [a|e]; [|reflexivity].
  destruct (shape_1 a) as [dim|e]; [|reflexivity].
  cbn [self embedding_service index chunks_with_content _initialized disk calls].
  match goal with
  | |- context [save ?x] =>
      destruct (save x) as [[[[]|e] w3] out]
  end; simpl; try rewrite app_nil_r; reflexivity.
Qed.

Lemma strict_build_is_build (w : World scalar) :
  (forall content,
     read_text (knowledge_file (disk w)) = Ok content -> encodable content = true) ->
  Strict.build Strict.no_faults w = build w.
Proof.
  intros H. rewrite strict_build_eq, build_eq.
  destruct (embedding_service (self w)) as [svc|]; [|reflexivity].
  destruct (read_text (knowledge_file (disk w))) as [content|e]; [|reflexivity].
  pose proof (encodable_chunks content paragraph_break (H content eq_refl)) as Hc.
  fold (corpus_chunks content) in Hc.
  destruct (corpus_chunks content) as [|c0 l]; [reflexivity|].
  cbv zeta.
  destruct (match svc (calls w) (c0 :: l) with
            | Ok embeddings =>
                match np_array embeddings with
                | Ok a => match shape_1 a with
                          | Ok dim => Ok (a, dim)
                          | Raise e => Raise e
                          end
                | Raise e => Raise e
                end
            | Raise e => Raise e
            end) as [[a dim]|e]; [|reflexivity].
  rewrite strict_save_is_save; [reflexivity|exact Hc].
Qed.

Lemma strict_load_is_load (w : World scalar) :
  (forall content,
     read_text (knowledge_file (disk w)) = Ok content -> encodable content = true) ->
  Strict.load Strict.no_faults w = load w.
Proof.
  intros H. unfold Strict.load, load, try_except.
  destruct (load_body_cases _ w)
    as [[i [content [_ [_ [_ [_ E]]]]]] | [e [w1 [F E]]]]; rewrite E; [reflexivity|].
  destruct (load_failure_fields _ _ _ _ F) as [_ [_ [Fd _]]].
  unfold bind, print. rewrite strict_build_is_build; [reflexivity|].
  rewrite Fd. exact H.
Qed.

Lemma strict_initialize_is_initialize (w : World scalar) :
  (forall content,
     read_text (knowledge_file (disk w)) = Ok content -> encodable content = true) ->
  Strict.initialize Strict.no_faults w = initialize w.
Proof.
  intros H. unfold Strict.initialize, initialize, bind, get_self, get_disk.
  cbv beta iota.
  destruct (_initialized (self w)); [reflexivity|].
  destruct (exists_ (index_file (disk w)) && exists_ (text_file (disk w))).
  - unfold print. cbv beta iota. rewrite (strict_load_is_load w H). reflexivity.
  - unfold print. cbv beta iota. rewrite (strict_build_is_build w H). reflexivity.
Qed.

Lemma strict_search_body_is_search_body (i : Index scalar)
    (svc : EmbeddingService scalar) (query : str) (k : Z) (w : World scalar) :
  Forall (fun c => encodable c = true) (chunks_with_content (self w)) ->
  Strict.search_body sq_l2 scalar_leb no_hit_distance i svc query k w
  = search_body sq_l2 scalar_leb no_hit_distance i svc query k w.
Proof.
  intros H. rewrite strict_search_body_eq, search_body_eq.
  destruct (svc (calls w) [query]) as [[|v rest]|e]; try reflexivity.
  destruct (index_search sq_l2 scalar_leb no_hit_distance i v k)
    as [[distances indices]|e]; try reflexivity.
  pose proof (chunks_at_stored (chunks_with_content (self w)) indices) as Hs.
  destruct (chunks_at (chunks_with_content (self w)) indices) as [|c l];
    [reflexivity|].
  cbv beta iota zeta.
  rewrite encodable_join; [reflexivity|reflexivity|].
  rewrite Forall_forall in *. intros x Hx. apply H. apply Hs. exact Hx.
Qed.

Lemma strict_search_is_search (query : str) (k : Z) (w : World scalar) :
  encodable query = true ->
  Forall (fun c => encodable c = true)
    (chunks_with_content (self (after_lazy_initialize w))) ->
  (_initialized (self w) = false ->
   forall content,
     read_text (knowledge_file (disk w)) = Ok content -> encodable content = true) ->
  Strict.search sq_l2 scalar_leb no_hit_distance Strict.no_faults query k w
  = search sq_l2 scalar_leb no_hit_distance query k w.
Proof.
  intros Hq Hc Hk.
  assert (I : (if _initialized (self w) then ret tt w
               else Strict.initialize Strict.no_faults w)
              = (if _initialized (self w) then ret tt w else initialize w)).
  { destruct (_initialized (self w)); [reflexivity|].
    apply strict_initialize_is_initialize. apply Hk. reflexivity. }
  assert (W : exists out1,
            (if _initialized (self w) then ret tt w else initialize w)
            = (Ok tt, after_lazy_initialize w, out1)).
  { unfold after_lazy_initialize. destruct (_initialized (self w)).
    - exists []. reflexivity.
    - destruct (initialize_cases _ w) as [w1 [out1 [E _]]]. rewrite E.
      exists out1. reflexivity. }
  destruct W as [out1 W].
  unfold Strict.search, search, bind, get_self.
  replace ((if _initialized (self w) then ret tt
            else Strict.initialize Strict.no_faults) w)
    with (if _initialized (self w) then ret tt w
          else Strict.initialize Strict.no_faults w)
    by (destruct (_initialized (self w)); reflexivity).
  replace ((if _initialized (self w) then ret tt else initialize) w)
    with (if _initialized (self w) then ret tt w else initialize w)
    by (destruct (_initialized (self w)); reflexivity).
  rewrite I, W.
  set (w1 := after_lazy_initialize w) in *.
  destruct (index (self w1)) as [i|]; [|reflexivity].
  destruct (embedding_service (self w1)) as [svc|]; [|reflexivity].
  unfold Strict.print_text. rewrite Hq.
  unfold try_except, bind, print.
  rewrite (strict_search_body_is_search_body i svc query k w1 Hc). reflexivity.
Qed.


(** X23.  Whatever the writes of [save] do, [build], [load] and
    [initialize] return normally: a write that fails is caught by [build]
    like every other failure.  [initialize] then leaves the retriever
    marked initialized with its embedding service as it was, and a second
    call changes nothing. *)
Theorem X23_a_failing_write_never_fails_the_initialization
    (faults : Strict.Faults scalar) (w : World scalar) :
  (exists w' out, Strict.build faults w = (Ok tt, w', out)) /\
  (exists w' out, Strict.load faults w = (Ok tt, w', out)) /\
  (exists w' out,
     Strict.initialize faults w = (Ok tt, w', out) /\
     _initialized (self w') = true /\
     embedding_service (self w') = embedding_service (self w) /\
     Strict.initialize faults w' = (Ok tt, w', [])).
Proof.
  split.
  { destruct (strict_build_frame faults w) as [w' [out [E _]]].
    exists w', out. exact E. }
  split.
  { destruct (strict_load_frame faults w) as [w' [out [E _]]].
    exists w', out. exact E. }
  destruct (strict_initialize_frame faults w) as [w' [out [E [Ini [Hs _]]]]].
  exists w', out. split; [exact E|]. split; [exact Ini|]. split; [exact Hs|].
  destruct (strict_initialize_frame faults w') as [w2 [out2 [E2 [_ [_ [_ H]]]]]].
  destruct (H Ini) as [-> ->]. exact E2.
Qed.

End StrictFacts.

(* ================================================================== *)
(** * The properties on the concrete scenarios *)
(* ================================================================== *)

Import Scenario.

Lemma stub_count_preserving : count_preserving stub.
Proof.
  intros n texts vs H. unfold stub in H. injection H as <-. apply length_map.
Qed.

(** The state after the build of the scenario corpus, and after a load of
    what that build saved, keep the size invariant (C1). *)
Lemma C1_witness :
  size_invariant (self (after_build (fresh stub (Holds corpus)))) /\
  size_invariant
    (self (let '(_, w, _) :=
             load (restarted stub (after_build (fresh stub (Holds corpus)))) in w)).
Proof.
  split.
  - apply (C1_index_size_equals_chunk_count Z (fresh stub (Holds corpus)) _ (Ok tt)
             [GeneratingEmbeddings 2; EmbeddingDimension 1; IndexBuilt 2;
              SavingIndex; IndexSaved]).
    left. split; [vm_compute; reflexivity|].
    split; [unfold build_succeeded; simpl; tauto|].
    intros svc E. simpl in E. injection E as <-. exact stub_count_preserving.
  - apply (C1_index_size_equals_chunk_count Z
             (restarted stub (after_build (fresh stub (Holds corpus)))) _ (Ok tt)
             [IndexLoaded (Some 2) 2]).
    right. left. split; [vm_compute; reflexivity|].
    exists (Some 2), 2. simpl. tauto.
Defined.

(** C2 as stated fails: the corpus of blank paragraphs gives no chunk, and
    [build] returns normally, having printed a warning; nothing is raised
    to the caller. *)
Lemma C2_counterexample :
  corpus_chunks blank_corpus = [] /\
  build (fresh stub (Holds blank_corpus))
  = (Ok tt, fresh stub (Holds blank_corpus), [NoTextChunksFound]) /\
  ~ (exists e w' out, build (fresh stub (Holds blank_corpus)) = (Raise e, w', out)).
Proof.
  split; [reflexivity|]. split; [reflexivity|].
  intros [e [w' [out H]]]. vm_compute in H. discriminate.
Qed.

Lemma C2_witness :
  build (fresh stub (Holds blank_corpus))
  = (Ok tt,
     with_self (fresh stub (Holds blank_corpus))
       (with_chunks (self (fresh stub (Holds blank_corpus))) []),
     [NoTextChunksFound]).
Proof.
  apply (proj1 (C2_empty_corpus_build_warns_and_returns Z
                  (fresh stub (Holds blank_corpus)) blank_corpus
                  eq_refl eq_refl) stub).
  reflexivity.
Defined.

(** C3 as stated fails: with the corpus file missing, and with the
    embedding provider down, [initialize] returns normally and leaves the
    retriever marked initialized; in the second case the chunks are stored
    and the index is not. *)
Lemma C3_counterexample :
  initialize (fresh stub Absent)
  = (Ok tt,
     with_self (fresh stub Absent) (with_initialized (__init__ (Some stub)) true),
     [NoIndexFound; ErrorBuilding FileNotFoundError]) /\
  (exists out,
     initialize (fresh provider_down (Holds corpus))
     = (Ok tt, after_initialize (fresh provider_down (Holds corpus)), out) /\
     out = [NoIndexFound; GeneratingEmbeddings 2; ErrorBuilding ProviderError]) /\
  _initialized (self (after_initialize (fresh provider_down (Holds corpus)))) = true /\
  index (self (after_initialize (fresh provider_down (Holds corpus)))) = None /\
  length (chunks_with_content
            (self (after_initialize (fresh provider_down (Holds corpus))))) = 2.
Proof.
  split; [reflexivity|].
  split; [eexists; split; reflexivity|].
  repeat split; reflexivity.
Qed.

Lemma C3_witness :
  exists w' out,
    initialize (fresh provider_down (Holds corpus)) = (Ok tt, w', out) /\
    _initialized (self w') = true /\
    index (self w') = None /\
    search sq_l2 Z.leb no_hit question 2 w' = (Ok not_initialized_error, w', []).
Proof.
  destruct (C3_initialize_returns_and_marks_initialized Z sq_l2 Z.leb no_hit
              (fresh provider_down (Holds corpus))) as [w' [out [E [I H]]]].
  exists w', out. split; [exact E|]. split; [exact I|].
  destruct (H eq_refl eq_refl eq_refl provider_down eq_refl) as [Hi [_ Hs]].
  - right. exists corpus, ProviderError.
    split; [reflexivity|]. split; [vm_compute; discriminate | reflexivity].
  - split; [exact Hi | apply Hs].
Defined.

(** C4 fails on the code.  An index file of two vectors beside a text file
    of three chunks, the knowledge file missing: the load sees the mismatch
    and falls back to a rebuild, the rebuild fails, and [initialize] leaves
    the retriever marked initialized with the index of two vectors and the
    three chunks it had loaded.  The next [search] answers from them. *)
Lemma C4_mismatched_artifact_is_served_after_failed_rebuild :
  initialize mismatched_artifact
  = (Ok tt, after_initialize mismatched_artifact,
     [LoadingExistingIndex; ErrorLoading ValueError; WillRebuild;
      ErrorBuilding FileNotFoundError]) /\
  _initialized (self (after_initialize mismatched_artifact)) = true /\
  index (self (after_initialize mismatched_artifact)) = Some stale_index /\
  ntotal stale_index = 2 /\
  chunks_with_content (self (after_initialize mismatched_artifact)) = three_chunks /\
  ~ size_invariant (self (after_initialize mismatched_artifact)) /\
  exists out,
    search sq_l2 Z.leb no_hit question 2 (after_initialize mismatched_artifact)
    = (Ok (lit "beta" ++ [LF; LF] ++ lit "alpha"),
       called (after_initialize mismatched_artifact), out).
Proof.
  split; [reflexivity|]. split; [reflexivity|]. split; [reflexivity|].
  split; [reflexivity|]. split; [reflexivity|]. split.
  - intros [i [Hi Hn]]. vm_compute in Hi. injection Hi as <-.
    vm_compute in Hn. discriminate.
  - eexists. vm_compute. reflexivity.
Qed.

(** C5 as stated fails: the first chunk ends with a newline and the marker;
    what [build] saved is loaded back without complaint, with two chunks
    for two vectors, but the chunk texts are not the ones saved. *)
Lemma C5_counterexample :
  build (fresh stub (Holds marker_tail_corpus))
  = (Ok tt, after_build (fresh stub (Holds marker_tail_corpus)),
     [GeneratingEmbeddings 2; EmbeddingDimension 1; IndexBuilt 2;
      SavingIndex; IndexSaved]) /\
  chunks_with_content (self (after_build (fresh stub (Holds marker_tail_corpus))))
  = [lit "x" ++ [LF] ++ marker; lit "y"] /\
  exists w2,
    load (restarted stub
            (after_save (after_build (fresh stub (Holds marker_tail_corpus)))))
    = (Ok tt, w2, [IndexLoaded (Some 2) 2]) /\
    chunks_with_content (self w2) = [lit "x"; marker ++ [LF] ++ lit "y"] /\
    nth_error (chunks_with_content (self w2)) 0
    <> nth_error
         (chunks_with_content
            (self (after_build (fresh stub (Holds marker_tail_corpus))))) 0.
Proof.
  split; [reflexivity|]. split; [reflexivity|].
  eexists. split; [vm_compute; reflexivity|].
  split; [reflexivity|].
  vm_compute. discriminate.
Qed.

Lemma corpus_chunks_separable :
  Forall (separable marker)
    (chunks_with_content (self (after_build (fresh stub (Holds corpus))))).
Proof.
  repeat constructor; intros H; apply occurs_contains in H;
    vm_compute in H; discriminate.
Qed.

Lemma C5_witness :
  exists w1 out1 w2 out2,
    save (after_build (fresh stub (Holds corpus))) = (Ok tt, w1, out1) /\
    load {| self := __init__ (Some stub); disk := disk w1; calls := 7 |}
    = (Ok tt, w2, out2) /\
    chunks_with_content (self w2)
    = chunks_with_content (self (after_build (fresh stub (Holds corpus)))).
Proof.
  destruct (C5_save_then_load_restores_index_and_chunks Z sq_l2 Z.leb no_hit
              (fresh stub (Holds corpus)) (after_build (fresh stub (Holds corpus)))
              (Ok tt)
              [GeneratingEmbeddings 2; EmbeddingDimension 1; IndexBuilt 2;
               SavingIndex; IndexSaved]
              (__init__ (Some stub)) 7)
    as [w1 [out1 [w2 [out2 [Es [El [_ [_ [Ec _]]]]]]]]].
  - vm_compute. reflexivity.
  - unfold build_succeeded. simpl. tauto.
  - intros svc E. simpl in E. injection E as <-. exact stub_count_preserving.
  - exact corpus_chunks_separable.
  - exists w1, out1, w2, out2. auto.
Defined.

(** C6 as stated fails: the one chunk of this corpus holds the separator;
    [build] goes to its end without any error and the text file holds the
    chunk as it is. *)
Lemma C6_counterexample :
  occurs separator separator_corpus /\
  build (fresh stub (Holds separator_corpus))
  = (Ok tt, after_build (fresh stub (Holds separator_corpus)),
     [GeneratingEmbeddings 1; EmbeddingDimension 1; IndexBuilt 1;
      SavingIndex; IndexSaved]) /\
  chunks_with_content (self (after_build (fresh stub (Holds separator_corpus))))
  = [separator_corpus] /\
  text_file (disk (after_build (fresh stub (Holds separator_corpus))))
  = Holds separator_corpus.
Proof.
  split; [exists (lit "a"), (lit "b"); reflexivity|].
  repeat split; reflexivity.
Qed.

Lemma C6_witness :
  exists w',
    build (fresh stub (Holds separator_corpus))
    = (Ok tt, w',
       [GeneratingEmbeddings 1; EmbeddingDimension 1; IndexBuilt 1;
        SavingIndex; IndexSaved]) /\
    text_file (disk w') = Holds separator_corpus.
Proof.
  destruct (C6_separator_in_chunk_is_persisted_as_is Z
              (fresh stub (Holds separator_corpus)) stub separator_corpus
              [[27%Z]] 1 separator_corpus)
    as [w' [E [_ [Et _]]]].
  - reflexivity.
  - reflexivity.
  - left. reflexivity.
  - exists (lit "a"), (lit "b"). reflexivity.
  - reflexivity.
  - reflexivity.
  - reflexivity.
  - exists w'. split; [exact E | exact Et].
Defined.

Lemma C7_witness :
  corpus_chunks corpus
  = [lit "Reset your password by visiting /reset.";
     lit "Contact support at help@co.com for billing issues."] /\
  length (corpus_chunks corpus) = length (non_blank_paragraphs corpus) /\
  chunk_text corpus = corpus_chunks corpus.
Proof.
  destruct (C7_chunker_returns_trimmed_non_blank_paragraphs corpus)
    as [_ [_ [_ [_ [L [_ H]]]]]].
  - exists (lit "Reset your password by visiting /reset.").
    split; [left; reflexivity | reflexivity].
  - split; [reflexivity|]. split; [exact L|]. apply H. reflexivity.
Defined.

(** The question of the scenario, asked for five neighbours of an index of
    two: both chunks come back, the nearer first. *)
Lemma C8_witness :
  exists out,
    search sq_l2 Z.leb no_hit question 5
      (after_initialize (fresh stub (Holds corpus)))
    = (Ok (join paragraph_break
             [lit "Reset your password by visiting /reset.";
              lit "Contact support at help@co.com for billing issues."]),
       called (after_initialize (fresh stub (Holds corpus))), out).
Proof.
  destruct (C8_search_retrieves_min_k_N_chunks Z sq_l2 Z.leb no_hit
              (after_initialize (fresh stub (Holds corpus)))
              {| d := 1; xb := [[39%Z]; [50%Z]] |} stub question 5
              [26%Z] [])
    as [[out E] _].
  - reflexivity.
  - reflexivity.
  - reflexivity.
  - reflexivity.
  - vm_compute. lia.
  - reflexivity.
  - reflexivity.
  - lia.
  - exists out. exact E.
Defined.

Lemma C10_witness :
  chunks_trimmed (self (after_build (fresh stub (Holds corpus)))).
Proof.
  apply (C10_stored_chunks_are_trimmed Z (fresh stub (Holds corpus)) _ (Ok tt)
           [GeneratingEmbeddings 2; EmbeddingDimension 1; IndexBuilt 2;
            SavingIndex; IndexSaved]).
  - left. vm_compute. reflexivity.
  - right. left. unfold build_succeeded. simpl. tauto.
Defined.

(** * The further properties of the retriever on the scenarios *)

(** A restart over the files of a build: the artifact is taken. *)
Lemma X3_witness :
  exists i content,
    read_index (index_file (disk (restarted stub (after_build (fresh stub (Holds corpus))))))
    = Ok i /\
    read_text (text_file (disk (restarted stub (after_build (fresh stub (Holds corpus))))))
    = Ok content /\
    artifact_chunks content <> [] /\
    length (artifact_chunks content) = ntotal i.
Proof.
  destruct (X3_load_takes_the_artifact_iff_the_sizes_agree Z
              (restarted stub (after_build (fresh stub (Holds corpus))))
              (let '(_, w, _) :=
                 load (restarted stub (after_build (fresh stub (Holds corpus)))) in w)
              (Ok tt) [IndexLoaded (Some 2) 2])
    as [[H _] _].
  - vm_compute. reflexivity.
  - apply H. exists (Some 2), 2. simpl. left. reflexivity.
Defined.

(** The provider is down: the search fails having called it once, and
    nothing of the retriever or of the files has changed. *)
Lemma X4_witness :
  exists w',
    search sq_l2 Z.leb no_hit question 2 ready_provider_down
    = (Ok search_error, w', [Searching question; ErrorDuringSearch ProviderError]) /\
    self w' = self ready_provider_down /\
    disk w' = disk ready_provider_down /\
    calls w' = 1.
Proof.
  exists (called ready_provider_down).
  assert (E : search sq_l2 Z.leb no_hit question 2 ready_provider_down
              = (Ok search_error, called ready_provider_down,
                 [Searching question; ErrorDuringSearch ProviderError])).
  { vm_compute. reflexivity. }
  destruct (X4_search_only_reads_once_initialized Z sq_l2 Z.leb no_hit
              ready_provider_down (called ready_provider_down) question 2
              (Ok search_error)
              [Searching question; ErrorDuringSearch ProviderError]
              eq_refl E)
    as [Hs [Hd [_ [Hc _]]]].
  split; [exact E|]. split; [exact Hs|]. split; [exact Hd|].
  apply Hc. simpl. split; discriminate.
Defined.

(** The first search of a fresh retriever. *)
Lemma X5_witness :
  exists w1 out1 r w2 out2,
    initialize (fresh stub (Holds corpus)) = (Ok tt, w1, out1) /\
    search sq_l2 Z.leb no_hit question 2 w1 = (r, w2, out2) /\
    search sq_l2 Z.leb no_hit question 2 (fresh stub (Holds corpus))
    = (r, w2, out1 ++ out2) /\
    _initialized (self w2) = true.
Proof.
  exact (X5_search_initializes_first Z sq_l2 Z.leb no_hit
           (fresh stub (Holds corpus)) question 2 eq_refl).
Defined.

(** A restart without an embedding service over the files of a build. *)
Lemma X6_witness :
  exists w2,
    initialize {| self := __init__ None;
                  disk := disk (after_build (fresh stub (Holds corpus)));
                  calls := 7 |}
    = (Ok tt, w2, [LoadingExistingIndex; IndexLoaded (Some 2) 2]) /\
    index (self w2) = index (self (after_build (fresh stub (Holds corpus)))) /\
    chunks_with_content (self w2)
    = chunks_with_content (self (after_build (fresh stub (Holds corpus)))) /\
    calls w2 = 7.
Proof.
  destruct (X6_restart_loads_what_the_build_saved Z
              (fresh stub (Holds corpus)) (after_build (fresh stub (Holds corpus)))
              (Ok tt)
              [GeneratingEmbeddings 2; EmbeddingDimension 1; IndexBuilt 2;
               SavingIndex; IndexSaved]
              None 7)
    as [w2 [E [_ [Hi [Hc [_ Hn]]]]]].
  - vm_compute. reflexivity.
  - unfold build_succeeded. simpl. tauto.
  - intros svc E. simpl in E. injection E as <-. exact stub_count_preserving.
  - exact corpus_chunks_separable.
  - exists w2. split; [exact E|]. split; [exact Hi|]. split; [exact Hc|exact Hn].
Defined.

(** A build over a retriever that held another index, other chunks and
    other artifact files gives what the build of a fresh one gives. *)
Lemma X7_witness :
  exists v',
    build (Cases.stale (Holds corpus))
    = (Ok tt, v',
       [GeneratingEmbeddings 2; EmbeddingDimension 1; IndexBuilt 2;
        SavingIndex; IndexSaved]) /\
    index (self v') = index (self (after_build (fresh stub (Holds corpus)))) /\
    chunks_with_content (self v')
    = chunks_with_content (self (after_build (fresh stub (Holds corpus)))).
Proof.
  destruct (X7_build_does_not_depend_on_what_was_there Z
              (fresh stub (Holds corpus)) (Cases.stale (Holds corpus))
              (after_build (fresh stub (Holds corpus))) (Ok tt)
              [GeneratingEmbeddings 2; EmbeddingDimension 1; IndexBuilt 2;
               SavingIndex; IndexSaved])
    as [v' [E [Hi [Hc _]]]].
  - vm_compute. reflexivity.
  - unfold build_succeeded. simpl. tauto.
  - reflexivity.
  - reflexivity.
  - reflexivity.
  - exists v'. split; [exact E|]. split; [exact Hi|exact Hc].
Defined.

(** An index of two vectors and no chunk: three labels, three warnings. *)
Lemma X8_witness :
  exists labels,
    length labels = 3 /\
    search sq_l2 Z.leb no_hit question 3 Cases.index_without_chunks
    = (Ok no_relevant_information, called Cases.index_without_chunks,
       Searching question :: map IndexOutOfBounds labels ++ [NoRelevantDocuments]).
Proof.
  exact (X8_search_without_chunks_finds_nothing Z sq_l2 Z.leb no_hit
           Cases.index_without_chunks stale_index stub question 3 [26%Z] []
           eq_refl eq_refl eq_refl eq_refl eq_refl eq_refl eq_refl).
Defined.

(** * The retriever on the scenarios when printing and writing can fail *)



(** The disk is full when the text file is written: the build returns,
    the index file is replaced and the text file is empty, and the message
    that the index and the chunks are saved was not printed. *)
Lemma X2_witness :
  knowledge_file (disk (Cases.after_strict_build Cases.disk_full
                          (fresh stub (Holds corpus))))
  = Holds corpus /\
  index_file (disk (Cases.after_strict_build Cases.disk_full
                      (fresh stub (Holds corpus))))
  = Holds {| d := 1; xb := [[39%Z]; [50%Z]] |} /\
  text_file (disk (Cases.after_strict_build Cases.disk_full
                     (fresh stub (Holds corpus))))
  = Holds [].
Proof.
  destruct (X2_files_are_written_only_by_a_save Z sq_l2 Z.leb no_hit
              Cases.disk_full (fresh stub (Holds corpus))
              (Cases.after_strict_build Cases.disk_full (fresh stub (Holds corpus)))
              [GeneratingEmbeddings 2; EmbeddingDimension 1; IndexBuilt 2;
               SavingIndex; ErrorBuilding OSError])
    as [Hk _].
  - right. left. exists (Ok tt). vm_compute. reflexivity.
  - split; [exact Hk|]. split; reflexivity.
Defined.


(** * The endpoints of [rag.py] on the scenarios *)

Lemma reachable_after_upload (p : Rag.Provider Z) (f : Rag.UploadFile)
    (st : Rag.State Z) :
  Rag.reachable sq_l2 Z.leb no_hit Cases.relevance st ->
  Rag.reachable sq_l2 Z.leb no_hit Cases.relevance (Cases.after_upload p f st).
Proof.
  intros H.
  apply (Rag.reachable_upload Z sq_l2 Z.leb no_hit Cases.relevance p f st
           (fst (Rag.upload_file p f st)) _ H).
  apply surjective_pairing.
Qed.

Lemma reachable_failed_reupload :
  Rag.reachable sq_l2 Z.leb no_hit Cases.relevance Cases.failed_reupload.
Proof.
  apply reachable_after_upload. apply reachable_after_upload.
  apply Rag.reachable_started.
Qed.

(** The two chunks of the corpus: two calls, two rows. *)
Lemma X9_witness :
  2 = 0 + length (chunk_text corpus) /\
  length [[39%Z]; [50%Z]] = length (chunk_text corpus).
Proof.
  destruct (X9_generate_embeddings_gives_one_row_for_each_text Z
              Cases.provider (chunk_text corpus) 0 [[39%Z]; [50%Z]] 2)
    as [H1 [H2 _]].
  - vm_compute. reflexivity.
  - split; assumption.
Defined.

(** The provider is down: the first call raises and no other is made. *)
Lemma X10_witness :
  exists j, j < length three_chunks /\
    Cases.provider_down (0 + j) retrieval_document (nth j three_chunks [])
    = Raise ProviderError /\
    1 = S (0 + j).
Proof.
  destruct (X10_generate_embeddings_stops_at_the_first_failure Z
              Cases.provider_down three_chunks 0 ProviderError 1)
    as [[j [H1 [H2 [H3 _]]]]|[H _]].
  - vm_compute. reflexivity.
  - exists j. split; [exact H1|]. split; [exact H2|exact H3].
  - discriminate H.
Defined.

(** The corpus uploaded as [knowledge.txt]: two chunks, two vectors. *)
Lemma X11_witness :
  exists i,
    Rag.globals Cases.uploaded
    = {| faiss_index := Some i;
         text_chunks := Some (chunk_text corpus);
         is_ready := true |} /\
    ntotal i = length (chunk_text corpus) /\
    Rag.embed_calls Cases.uploaded = 0 + ntotal i.
Proof.
  destruct (Rag.upload_file Cases.provider Cases.knowledge_txt Rag.started)
    as [[resp|e] st'] eqn:E; [|vm_compute in E; discriminate E].
  destruct (X11_an_answered_upload_leaves_index_and_chunks_of_one_size Z
              Cases.provider Cases.knowledge_txt Rag.started resp st' E)
    as [name [text [i [_ [_ [Ec [_ [G [N [_ [_ [_ [C _]]]]]]]]]]]]].
  injection Ec as <-.
  assert (S : Cases.uploaded = st').
  { unfold Cases.uploaded, Cases.after_upload. rewrite E. reflexivity. }
  rewrite S. exists i. split; [exact G|]. split; [exact N|exact C].
Defined.

(** A second file while the provider is down: the upload fails, the module
    stays ready with the index of the two vectors of the first file, and
    the chunk list is already that of the second file, of three chunks. *)
Lemma X12_witness :
  is_ready (Rag.globals Cases.failed_reupload) = true /\
  faiss_index (Rag.globals Cases.failed_reupload)
  = Some {| d := 1; xb := [[39%Z]; [50%Z]] |} /\
  text_chunks (Rag.globals Cases.failed_reupload)
  = Some [lit "one"; lit "two"; lit "three"].
Proof.
  destruct (Rag.upload_file Cases.provider_down Cases.other_txt Cases.uploaded)
    as [[resp|e] st'] eqn:E; [vm_compute in E; discriminate E|].
  destruct (X12_a_failed_upload_keeps_the_index_and_the_ready_flag Z
              Cases.provider_down Cases.other_txt Cases.uploaded e st' E)
    as [Hi [Hr _]].
  assert (S : Cases.failed_reupload = st').
  { unfold Cases.failed_reupload, Cases.after_upload. rewrite E. reflexivity. }
  rewrite S, Hi, Hr. split; [reflexivity|]. split; [reflexivity|].
  rewrite <- S. reflexivity.
Defined.

(** Nine characters in a [.txt] file: status 500. *)
Lemma X13_witness :
  Rag.upload_file Cases.provider Cases.short_txt Rag.started
  = (Raises (HTTPException 500
               (StrOf (HTTPException 400 (Text Rag.content_too_short)))),
     Rag.started).
Proof.
  apply (X13_a_short_file_is_answered_with_status_500 Z
           Cases.provider Cases.short_txt Rag.started
           (lit "short.txt") (lit "too short")).
  - reflexivity.
  - reflexivity.
  - reflexivity.
  - vm_compute. lia.
Defined.

(** After the failed second upload the module is ready and both globals
    are set; [root] counts the three chunks of the second file. *)
Lemma X14_witness :
  exists i l,
    faiss_index (Rag.globals Cases.failed_reupload) = Some i /\
    text_chunks (Rag.globals Cases.failed_reupload) = Some l /\
    1 <= ntotal i /\
    Rag.chunks_loaded (Rag.root Cases.failed_reupload) = length l.
Proof.
  destruct (X14_ready_means_an_index_and_chunks_are_set Z sq_l2 Z.leb no_hit
              Cases.relevance Cases.failed_reupload reachable_failed_reupload)
    as [H _].
  apply H. reflexivity.
Defined.


(** A question with [top_k] 5 after the failed second upload: it is
    answered, from the index of the first file and the chunks of the
    second, with no more than five sources. *)
Lemma X16_witness :
  exists resp st',
    Rag.chat sq_l2 Z.leb no_hit Cases.relevance Cases.provider Cases.model
      (Cases.ask question 5) Cases.failed_reupload = (Returns resp, st') /\
    Rag.response_question resp = question /\
    length (Rag.sources resp) <= 5.
Proof.
  destruct (Rag.chat sq_l2 Z.leb no_hit Cases.relevance Cases.provider Cases.model
              (Cases.ask question 5) Cases.failed_reupload)
    as [[resp|e] st'] eqn:E; [|vm_compute in E; discriminate E].
  exists resp, st'. split; [reflexivity|].
  destruct (X16_chat_answers_with_one_source_for_each_retrieved_chunk Z
              sq_l2 Z.leb no_hit Cases.relevance Cases.provider Cases.model
              (Cases.ask question 5) Cases.failed_reupload resp st' E)
    as [Q [retrieved [_ [_ [L _]]]]].
  split; [exact Q|exact L].
Defined.


(** * Setting up the agent on the scenarios *)

(** The libraries work and the knowledge base is there. *)
Lemma X19_witness :
  exists g' out r,
    setup_agent Cases.working (Cases.at_startup (Holds corpus))
    = (Ok (lit "You are a support agent."), g', out) /\
    faiss_retriever (process g') = Some r /\
    _initialized r = true.
Proof.
  destruct (proj1 (X19_setup_agent_returns_whatever_the_knowledge_base_is
                     Z unit str Cases.working (Cases.at_startup (Holds corpus)))
              stub tt (lit "You are a support agent.")
              (lit "You are a support agent.")
              eq_refl eq_refl eq_refl eq_refl eq_refl eq_refl eq_refl eq_refl)
    as [g' [out [r [E [Hr [Hi _]]]]]].
  exists g', out, r. split; [exact E|]. split; [exact Hr|exact Hi].
Defined.

(** The libraries work and there is no knowledge file. *)
Lemma X20_witness :
  exists app_state_agent g' out,
    lifespan Cases.working (Cases.at_startup Absent) = (app_state_agent, g', out) /\
    rag_index (health_check app_state_agent) = lit "ready" /\
    retrieve_knowledge sq_l2 Z.leb no_hit question (process g')
    = (Ok not_initialized_error, process g', []).
Proof.
  destruct (X20_health_check_reports_ready_without_an_index Z sq_l2 Z.leb no_hit
              unit str Cases.working (Cases.at_startup Absent)
              stub tt (lit "You are a support agent.")
              (lit "You are a support agent.") FileNotFoundError
              eq_refl eq_refl eq_refl eq_refl eq_refl eq_refl eq_refl eq_refl
              eq_refl eq_refl)
    as [a [g' [out [E [_ [H [_ R]]]]]]].
  exists a, g', out. split; [exact E|]. split; [exact H|exact (R question)].
Defined.

(** An address of the corpus. *)
Lemma X21_witness :
  request_password_reset (lit "help@co.com") = reset_link_sent (lit "help@co.com").
Proof.
  apply (proj1 (X21_request_password_reset_looks_for_two_characters
                  (lit "help@co.com"))).
  split; vm_compute; repeat (first [left; reflexivity | right]).
Defined.

(** * The string operations on small inputs *)

Example split_two : split (lit "a" ++ [LF; LF] ++ lit "b c") [LF; LF] = [lit "a"; lit "b c"].
Proof. reflexivity. Qed.
Example split_trailing : split (lit "a" ++ [LF; LF]) [LF; LF] = [lit "a"; []].
Proof. reflexivity. Qed.
Example split_odd : split (lit "a" ++ [LF; LF; LF] ++ lit "b") [LF; LF] = [lit "a"; LF :: lit "b"].
Proof. reflexivity. Qed.
Example split_empty : split [] [LF; LF] = [[]].
Proof. reflexivity. Qed.
Example strip_ex : strip (lit "  a b " ++ [LF]) = lit "a b".
Proof. reflexivity. Qed.
Example un_ex : universal_newlines (lit "a" ++ [CR; LF; CR] ++ lit "b") = lit "a" ++ [LF; LF] ++ lit "b".
Proof. reflexivity. Qed.
